(** * gst-wasapi: the WASAPI capture source

    A shallow embedding of [gst-wasapi/gstwasapisrc.c]: the overflow buffer
    and the capture drain loop of [gst_wasapi_src_read], the offset
    calculator [gst_audio_base_src_get_offset] and the buffer producer with
    its clock slaving, [gst_audio_base_src_create].

    C integers are modelled as [Z] with the wrap-around of their type
    written out ([guint], [gint], [guint64], [gint64]); buffers are lists of
    bytes; what the function receives from the driver, the ring buffer or
    the clock is passed in as a script of answers. *)

From Stdlib Require Import ZArith List Bool Lia.
From Stdlib.Strings Require Import Byte.
Import ListNotations.
Local Open Scope Z_scope.

(* ================================================================== *)
(** * Definitions *)
(* ================================================================== *)

(** ** Machine integers

    Conversions to the C types used by the source.  [gsize] is the 64-bit
    [size_t] of a Win64 build. *)

Definition guint (x : Z) : Z := x mod 2 ^ 32.
Definition guint64 (x : Z) : Z := x mod 2 ^ 64.
Definition gsize (x : Z) : Z := x mod 2 ^ 64.
Definition gint (x : Z) : Z := (x + 2 ^ 31) mod 2 ^ 32 - 2 ^ 31.
Definition gint64 (x : Z) : Z := (x + 2 ^ 63) mod 2 ^ 64 - 2 ^ 63.

Definition G_MAXINT : Z := 2 ^ 31 - 1.
Definition G_MAXUINT : Z := 2 ^ 32 - 1.
Definition G_MAXINT64 : Z := 2 ^ 63 - 1.
Definition G_MAXUINT64 : Z := 2 ^ 64 - 1.

(** [GstClockTime] is a [guint64]; [GST_CLOCK_TIME_NONE] is its largest
    value, the same bit pattern as the [-1] the source compares
    [next_sample] and [offset] with. *)
Definition GST_CLOCK_TIME_NONE : Z := G_MAXUINT64.
Definition GST_SECOND : Z := 1000000000.
Definition GST_CLOCK_TIME_IS_VALID (t : Z) : bool := negb (t =? GST_CLOCK_TIME_NONE).

(** [GST_CLOCK_DIFF (s, e)] is [(GstClockTimeDiff) ((e) - (s))]: the
    unsigned difference read as a signed 64-bit value. *)
Definition GST_CLOCK_DIFF (s e : Z) : Z := gint64 (guint64 (e - s)).

(** [ABS] on a [gint64]: [((a) < 0) ? -(a) : (a)]. *)
Definition ABS64 (a : Z) : Z := if a <? 0 then gint64 (- a) else a.

(** [gst_util_uint64_scale_int (val, num, denom)], for the positive
    [denom] it is called with: [val * num / denom], rounded down, without
    intermediate overflow; [G_MAXUINT64] when the result does not fit. *)
Definition gst_util_uint64_scale_int (val num denom : Z) : Z :=
  let r := val * num / denom in
  if r <=? G_MAXUINT64 then r else G_MAXUINT64.

(** ** The ring buffer and the base source *)

Inductive GstAudioBaseSrcSlaveMethod : Type :=
| GST_AUDIO_BASE_SRC_SLAVE_RESAMPLE
| GST_AUDIO_BASE_SRC_SLAVE_RE_TIMESTAMP
| GST_AUDIO_BASE_SRC_SLAVE_SKEW
| GST_AUDIO_BASE_SRC_SLAVE_NONE.

(** The fields of [GstAudioRingBuffer] and of its [spec] that the source
    reads.  [segdone] is the counter the producer advances. *)
Record GstAudioRingBuffer : Type := {
  acquired : bool;
  spec_segsize : Z;
  spec_segtotal : Z;
  spec_bpf : Z;
  spec_rate : Z;
  samples_per_seg : Z;
  segdone : Z;
  segbase : Z
}.

Definition set_segdone (rb : GstAudioRingBuffer) (v : Z) : GstAudioRingBuffer :=
  {| acquired := acquired rb; spec_segsize := spec_segsize rb;
     spec_segtotal := spec_segtotal rb; spec_bpf := spec_bpf rb;
     spec_rate := spec_rate rb; samples_per_seg := samples_per_seg rb;
     segdone := v; segbase := segbase rb |}.

(** [gst_audio_ring_buffer_advance]: an atomic add on [segdone]. *)
Definition gst_audio_ring_buffer_advance (rb : GstAudioRingBuffer) (advance : Z)
  : GstAudioRingBuffer :=
  set_segdone rb (gint (segdone rb + advance)).

(** The part of [GstAudioBaseSrc] (and of the [GstBaseSrc] and
    [GstElement] below it) that [create] uses. *)
Record GstAudioBaseSrc : Type := {
  next_sample : Z;
  blocksize : Z;
  ringbuffer : GstAudioRingBuffer;
  slave_method : GstAudioBaseSrcSlaveMethod;
  base_time : Z
}.

Definition set_next_sample (src : GstAudioBaseSrc) (v : Z) : GstAudioBaseSrc :=
  {| next_sample := v; blocksize := blocksize src; ringbuffer := ringbuffer src;
     slave_method := slave_method src; base_time := base_time src |}.

Definition set_ringbuffer (src : GstAudioBaseSrc) (rb : GstAudioRingBuffer)
  : GstAudioBaseSrc :=
  {| next_sample := next_sample src; blocksize := blocksize src; ringbuffer := rb;
     slave_method := slave_method src; base_time := base_time src |}.

(** ** The offset calculator

    [gst_audio_base_src_get_offset].  [sample / sps] divides a [guint64] by
    a [gint], so [sps] is converted to [guint64]; the quotient is stored in
    the [gint] [readseg].  A zero [sps] traps in C; the theorems assume
    [0 < sps]. *)
Definition gst_audio_base_src_get_offset (src : GstAudioBaseSrc) : Z :=
  let sample := next_sample src in
  let sps := samples_per_seg (ringbuffer src) in
  let segtotal := spec_segtotal (ringbuffer src) in
  let segdone := gint (segdone (ringbuffer src) - segbase (ringbuffer src)) in
  if negb (sample =? G_MAXUINT64) then
    let readseg := gint (sample / guint64 sps) in
    let diff := gint (segdone - readseg) in
    if diff >=? segtotal
    then guint64 (guint64 segdone * guint64 sps)
    else sample
  else guint64 (guint64 segdone * guint64 sps).

(** The offset rule as the specification words it, over unbounded
    integers: the sentinel and the lapped consumer go to
    [current_write_segment * samples_per_segment], anything else keeps
    [next_sample]. *)
Definition spec_offset (next_sample current_write_segment sps total_segments : Z) : Z :=
  if next_sample =? G_MAXUINT64 then current_write_segment * sps
  else if current_write_segment - next_sample / sps >=? total_segments
       then current_write_segment * sps
       else next_sample.

(** The write segment the calculator works with, and the segment of the
    sample it resolves to. *)
Definition current_write_segment (src : GstAudioBaseSrc) : Z :=
  segdone (ringbuffer src) - segbase (ringbuffer src).

Definition resolved_read_segment (src : GstAudioBaseSrc) : Z :=
  gst_audio_base_src_get_offset src / samples_per_seg (ringbuffer src).

(** ** Win32 events and COM results

    An event object is auto-reset or manual-reset, as [CreateEvent] is
    told; satisfying a wait resets an auto-reset event. *)

Record HANDLE : Type := {
  bManualReset : bool;
  signaled : bool
}.

Definition CreateEvent (manual_reset initial_state : bool) : HANDLE :=
  {| bManualReset := manual_reset; signaled := initial_state |}.

Definition SetEvent (h : HANDLE) : HANDLE :=
  {| bManualReset := bManualReset h; signaled := true |}.

(** The object after it has released a waiting thread. *)
Definition wait_satisfied (h : HANDLE) : HANDLE :=
  {| bManualReset := bManualReset h;
     signaled := if bManualReset h then signaled h else false |}.

Definition WAIT_OBJECT_0 : Z := 0.
Definition WAIT_FAILED : Z := 4294967295.

(** [WaitForMultipleObjects (2, events, FALSE, INFINITE)]: the lowest
    index of a signaled object and the objects afterwards; [None] while
    neither is signaled and the thread stays blocked. *)
Definition WaitForMultipleObjects (h0 h1 : HANDLE) : option (Z * HANDLE * HANDLE) :=
  if signaled h0 then Some (WAIT_OBJECT_0, wait_satisfied h0, h1)
  else if signaled h1 then Some (WAIT_OBJECT_0 + 1, h0, wait_satisfied h1)
  else None.

(** The answers of [IAudioCaptureClient_GetBuffer] the source tells
    apart; [E_FAIL] stands for any other code.  The answers of
    [IAudioClient_Start], [IAudioClient_Stop], [IAudioClient_Reset] and
    [IAudioCaptureClient_ReleaseBuffer] are only looked at through the
    macros [HR_FAILED_AND] and [HR_FAILED_RET] of [gstwasapiutil.h], which
    is not among the sources: the model takes a boolean for them, [true]
    when the macro takes its failure branch. *)
Inductive HRESULT : Type :=
| S_OK
| AUDCLNT_S_BUFFER_EMPTY
| AUDCLNT_E_DEVICE_INVALIDATED
| E_FAIL.

Definition AUDCLNT_BUFFERFLAGS_DATA_DISCONTINUITY : Z := 1.
Definition AUDCLNT_BUFFERFLAGS_SILENT : Z := 2.

(** ** The element *)

Record WAVEFORMATEX : Type := {
  nBlockAlign : Z
}.

(** What the element posts on its bus: the element message
    [wasapi_restart] when the device is gone, the [RESOURCE/SEEK] error of a
    pull at the wrong offset, the [CORE/CLOCK] warning of a discontinuity. *)
Inductive GstMessage : Type :=
| wasapi_restart
| error_resource_seek (offset : Z)
| warning_core_clock (dropped : Z).

(** [GstWasapiSrc].  [client] and [device_strid] are pointers in C:
    [client] is [true] when it is not [NULL], [device_strid] is [None] for
    [NULL].  The four drift fields are used by the source file but declared
    in a header revision that is not among the sources; their widths are
    those of their property accessors ([g_value_get_uint64],
    [g_value_set_uint64]), and [initial_timestamp_diff] has the [gint64]
    type of the [timestamp_diff] stored in it. *)
Record GstWasapiSrc : Type := {
  parent : GstAudioBaseSrc;
  client : bool;
  event_handle : HANDLE;
  stop_handle : HANDLE;
  overflow_buffer_size : Z;
  overflow_buffer_ptr : Z;
  overflow_buffer_length : Z;
  overflow_buffer : list byte;
  client_needs_restart : bool;
  mix_format : WAVEFORMATEX;
  eos_sent : bool;
  device_strid : option (list Z);
  initial_timestamp_diff : Z;
  timeshifted_count : Z;
  drift_correction_count : Z;
  drift_correction_threshold : Z
}.

Definition set_parent (self : GstWasapiSrc) (v : GstAudioBaseSrc) : GstWasapiSrc :=
  {| parent := v; client := client self;
     event_handle := event_handle self; stop_handle := stop_handle self;
     overflow_buffer_size := overflow_buffer_size self;
     overflow_buffer_ptr := overflow_buffer_ptr self;
     overflow_buffer_length := overflow_buffer_length self;
     overflow_buffer := overflow_buffer self;
     client_needs_restart := client_needs_restart self;
     mix_format := mix_format self; eos_sent := eos_sent self;
     device_strid := device_strid self;
     initial_timestamp_diff := initial_timestamp_diff self;
     timeshifted_count := timeshifted_count self;
     drift_correction_count := drift_correction_count self;
     drift_correction_threshold := drift_correction_threshold self |}.

Definition set_events (self : GstWasapiSrc) (ev st : HANDLE) : GstWasapiSrc :=
  {| parent := parent self; client := client self;
     event_handle := ev; stop_handle := st;
     overflow_buffer_size := overflow_buffer_size self;
     overflow_buffer_ptr := overflow_buffer_ptr self;
     overflow_buffer_length := overflow_buffer_length self;
     overflow_buffer := overflow_buffer self;
     client_needs_restart := client_needs_restart self;
     mix_format := mix_format self; eos_sent := eos_sent self;
     device_strid := device_strid self;
     initial_timestamp_diff := initial_timestamp_diff self;
     timeshifted_count := timeshifted_count self;
     drift_correction_count := drift_correction_count self;
     drift_correction_threshold := drift_correction_threshold self |}.

Definition set_overflow (self : GstWasapiSrc) (size ptr len : Z) (buf : list byte)
  : GstWasapiSrc :=
  {| parent := parent self; client := client self;
     event_handle := event_handle self; stop_handle := stop_handle self;
     overflow_buffer_size := size;
     overflow_buffer_ptr := ptr;
     overflow_buffer_length := len;
     overflow_buffer := buf;
     client_needs_restart := client_needs_restart self;
     mix_format := mix_format self; eos_sent := eos_sent self;
     device_strid := device_strid self;
     initial_timestamp_diff := initial_timestamp_diff self;
     timeshifted_count := timeshifted_count self;
     drift_correction_count := drift_correction_count self;
     drift_correction_threshold := drift_correction_threshold self |}.

Definition set_client_needs_restart (self : GstWasapiSrc) (v : bool) : GstWasapiSrc :=
  {| parent := parent self; client := client self;
     event_handle := event_handle self; stop_handle := stop_handle self;
     overflow_buffer_size := overflow_buffer_size self;
     overflow_buffer_ptr := overflow_buffer_ptr self;
     overflow_buffer_length := overflow_buffer_length self;
     overflow_buffer := overflow_buffer self;
     client_needs_restart := v;
     mix_format := mix_format self; eos_sent := eos_sent self;
     device_strid := device_strid self;
     initial_timestamp_diff := initial_timestamp_diff self;
     timeshifted_count := timeshifted_count self;
     drift_correction_count := drift_correction_count self;
     drift_correction_threshold := drift_correction_threshold self |}.

Definition set_eos_sent (self : GstWasapiSrc) (v : bool) : GstWasapiSrc :=
  {| parent := parent self; client := client self;
     event_handle := event_handle self; stop_handle := stop_handle self;
     overflow_buffer_size := overflow_buffer_size self;
     overflow_buffer_ptr := overflow_buffer_ptr self;
     overflow_buffer_length := overflow_buffer_length self;
     overflow_buffer := overflow_buffer self;
     client_needs_restart := client_needs_restart self;
     mix_format := mix_format self; eos_sent := v;
     device_strid := device_strid self;
     initial_timestamp_diff := initial_timestamp_diff self;
     timeshifted_count := timeshifted_count self;
     drift_correction_count := drift_correction_count self;
     drift_correction_threshold := drift_correction_threshold self |}.

Definition set_drift (self : GstWasapiSrc) (initial count : Z) : GstWasapiSrc :=
  {| parent := parent self; client := client self;
     event_handle := event_handle self; stop_handle := stop_handle self;
     overflow_buffer_size := overflow_buffer_size self;
     overflow_buffer_ptr := overflow_buffer_ptr self;
     overflow_buffer_length := overflow_buffer_length self;
     overflow_buffer := overflow_buffer self;
     client_needs_restart := client_needs_restart self;
     mix_format := mix_format self; eos_sent := eos_sent self;
     device_strid := device_strid self;
     initial_timestamp_diff := initial;
     timeshifted_count := timeshifted_count self;
     drift_correction_count := count;
     drift_correction_threshold := drift_correction_threshold self |}.

Definition set_timeshifted_count (self : GstWasapiSrc) (v : Z) : GstWasapiSrc :=
  {| parent := parent self; client := client self;
     event_handle := event_handle self; stop_handle := stop_handle self;
     overflow_buffer_size := overflow_buffer_size self;
     overflow_buffer_ptr := overflow_buffer_ptr self;
     overflow_buffer_length := overflow_buffer_length self;
     overflow_buffer := overflow_buffer self;
     client_needs_restart := client_needs_restart self;
     mix_format := mix_format self; eos_sent := eos_sent self;
     device_strid := device_strid self;
     initial_timestamp_diff := initial_timestamp_diff self;
     timeshifted_count := v;
     drift_correction_count := drift_correction_count self;
     drift_correction_threshold := drift_correction_threshold self |}.

Definition DEFAULT_DRIFT_CORRECTION_THRESHOLD : Z := 50 * 100000.

(** [gst_wasapi_src_init]: the assignments to the fields modelled here,
    on the zero-filled instance [self]. *)
Definition gst_wasapi_src_init (self : GstWasapiSrc) : GstWasapiSrc :=
  {| parent := parent self; client := client self;
     event_handle := CreateEvent false false;
     stop_handle := CreateEvent false false;
     overflow_buffer_size := overflow_buffer_size self;
     overflow_buffer_ptr := overflow_buffer_ptr self;
     overflow_buffer_length := overflow_buffer_length self;
     overflow_buffer := overflow_buffer self;
     client_needs_restart := false;
     mix_format := mix_format self; eos_sent := false;
     device_strid := device_strid self;
     initial_timestamp_diff := 0;
     timeshifted_count := 0;
     drift_correction_count := 0;
     drift_correction_threshold := DEFAULT_DRIFT_CORRECTION_THRESHOLD |}.

(** The overflow-buffer statements of [gst_wasapi_src_prepare]:
    [spec->segsize * 4] bytes from [g_malloc], whose contents [fresh] are
    whatever the allocator returns. *)
Definition prepare_overflow_buffer (self : GstWasapiSrc) (segsize : Z) (fresh : list byte)
  : GstWasapiSrc :=
  set_overflow self (gsize (gint (segsize * 4))) 0 0 fresh.

(** [gst_wasapi_src_reset]; [stop_failed] and [reset_failed] tell whether
    [IAudioClient_Stop] and [IAudioClient_Reset] failed.  The object lock
    the function takes is added by [gst_wasapi_src_reset_locked] below. *)
Definition gst_wasapi_src_reset (self : GstWasapiSrc) (stop_failed reset_failed : bool)
  : GstWasapiSrc :=
  let self := set_events self (event_handle self) (SetEvent (stop_handle self)) in
  if negb (client self) then self
  else if stop_failed then self
  else if reset_failed then self
  else set_client_needs_restart self true.

(** ** Memory *)

Definition memcpy (dst : list byte) (off : Z) (src : list byte) (n : Z) : list byte :=
  firstn (Z.to_nat off) dst ++ firstn (Z.to_nat n) src
    ++ skipn (Z.to_nat (off + n)) dst.

Definition memset (dst : list byte) (off : Z) (c : byte) (n : Z) : list byte :=
  firstn (Z.to_nat off) dst ++ repeat c (Z.to_nat n)
    ++ skipn (Z.to_nat (off + n)) dst.

(** ** The capture drain loop: [gst_wasapi_src_read]

    What the outside world does while the function runs is a script.  One
    [wake] describes one [WaitForMultipleObjects]: whether the driver
    signals [event_handle] and whether another thread signals
    [stop_handle] before the wait returns, whether the wait fails, the
    value of [change.default_changed] read after it, whether
    [gst_element_post_message] returns [FALSE] should the call come to post
    its message, and the answers of the [GetBuffer] calls made during this
    wake.  When the answers run out the driver has nothing pending:
    [AUDCLNT_S_BUFFER_EMPTY]. *)

Record capture_packet : Type := {
  gb_hr : HRESULT;
  gb_from : list byte;
  gb_have_frames : Z;
  gb_flags : Z;
  gb_release_failed : bool
}.

Record wake : Type := {
  w_data_ready : bool;
  w_stop : bool;
  w_wait_failed : bool;
  w_default_changed : bool;
  w_post_failed : bool;
  w_packets : list capture_packet
}.

(** The locals of [gst_wasapi_src_read] that change along the way;
    [l_data_ptr] is [data_ptr - data]. *)
Record read_locals : Type := {
  l_self : GstWasapiSrc;
  l_data : list byte;
  l_data_ptr : Z;
  l_wanted : Z;
  l_length : Z
}.

Definition set_length (st : read_locals) (v : Z) : read_locals :=
  {| l_self := l_self st; l_data := l_data st; l_data_ptr := l_data_ptr st;
     l_wanted := l_wanted st; l_length := v |}.

Definition set_self (st : read_locals) (v : GstWasapiSrc) : read_locals :=
  {| l_self := v; l_data := l_data st; l_data_ptr := l_data_ptr st;
     l_wanted := l_wanted st; l_length := l_length st |}.

Definition set_data (st : read_locals) (v : list byte) : read_locals :=
  {| l_self := l_self st; l_data := v; l_data_ptr := l_data_ptr st;
     l_wanted := l_wanted st; l_length := l_length st |}.

Inductive read_exit : Type :=
| exit_beach
| exit_device_disappeared.

(** What a call leaves behind: the element, the destination buffer, how
    far [data_ptr] got, the returned length, the label it left through, the
    messages it handed to [gst_element_post_message], those of them that
    were accepted, and the unread part of the script. *)
Record read_result : Type := {
  r_self : GstWasapiSrc;
  r_data : list byte;
  r_data_ptr : Z;
  r_return : Z;
  r_exit : read_exit;
  r_post_attempts : list GstMessage;
  r_posted : list GstMessage;
  r_env : list wake
}.

(** The block at the head of the function that hands back what an earlier
    call spilled. *)
Definition restore_overflow (st : read_locals) : read_locals :=
  let self := l_self st in
  if overflow_buffer_length self >? 0 then
    let n := Z.min (overflow_buffer_length self) (l_wanted st) in
    let ptr := skipn (Z.to_nat (overflow_buffer_ptr self)) (overflow_buffer self) in
    {| l_self :=
         if n =? overflow_buffer_length self
         then set_overflow self (overflow_buffer_size self) 0 0 (overflow_buffer self)
         else set_overflow self (overflow_buffer_size self)
                (guint (overflow_buffer_ptr self + n))
                (guint (overflow_buffer_length self - n)) (overflow_buffer self);
       l_data := memcpy (l_data st) (l_data_ptr st) ptr n;
       l_data_ptr := l_data_ptr st + n;
       l_wanted := guint (l_wanted st - n);
       l_length := l_length st |}
  else st.

(** The body of the inner loop for one packet [GetBuffer] returned with
    [S_OK], up to the [ReleaseBuffer] call. *)
Definition capture_burst (st : read_locals) (pk : capture_packet) : read_locals :=
  let self := l_self st in
  let bpf := nBlockAlign (mix_format self) in
  let have_frames := gb_have_frames pk in
  let want_frames := l_wanted st / bpf in
  let n_frames := Z.min have_frames want_frames in
  let read_len := guint (n_frames * bpf) in
  {| l_self :=
       if have_frames >? want_frames then
         let save_frames := guint (have_frames - want_frames) in
         let save_length := gsize (guint (save_frames * bpf)) in
         if gsize (overflow_buffer_length self + save_length + overflow_buffer_ptr self)
              >? overflow_buffer_size self
         then self
         else set_overflow self (overflow_buffer_size self) (overflow_buffer_ptr self)
                (guint (overflow_buffer_length self + guint save_length))
                (memcpy (overflow_buffer self) (overflow_buffer_length self)
                        (skipn (Z.to_nat read_len) (gb_from pk)) save_length)
       else self;
     l_data :=
       if negb (Z.land (gb_flags pk) AUDCLNT_BUFFERFLAGS_SILENT =? 0)
       then memset (l_data st) (l_data_ptr st) x00 read_len
       else memcpy (l_data st) (l_data_ptr st) (gb_from pk) read_len;
     l_data_ptr := l_data_ptr st + read_len;
     l_wanted := guint (l_wanted st - read_len);
     l_length := l_length st |}.

Inductive drain_exit : Type :=
| drain_break
| drain_beach
| drain_device_disappeared.

(** The inner [while (TRUE)]: drain what the driver has pending. *)
Fixpoint drain (st : read_locals) (pkts : list capture_packet)
  : drain_exit * read_locals :=
  match pkts with
  | [] => (drain_break, st)
  | pk :: rest =>
    match gb_hr pk with
    | AUDCLNT_E_DEVICE_INVALIDATED => (drain_device_disappeared, st)
    | AUDCLNT_S_BUFFER_EMPTY => (drain_break, st)
    | E_FAIL => (drain_beach, set_length st 0)
    | S_OK =>
      let st' := capture_burst st pk in
      if gb_release_failed pk then (drain_beach, st') else drain st' rest
    end
  end.

Definition beach (st : read_locals) (env : list wake) : read_result :=
  {| r_self := l_self st; r_data := l_data st; r_data_ptr := l_data_ptr st;
     r_return := l_length st; r_exit := exit_beach;
     r_post_attempts := []; r_posted := [];
     r_env := env |}.

(** The label [device_disappeared].  While [eos_sent] is down the message
    is handed to [gst_element_post_message]; [post_failed] tells whether
    that call returns [FALSE], which the source only logs: [eos_sent] is
    raised either way. *)
Definition device_disappeared (st : read_locals) (post_failed : bool)
  (env : list wake) : read_result :=
  {| r_self := set_eos_sent (l_self st) true;
     r_data := l_data st; r_data_ptr := l_data_ptr st;
     r_return := l_length st; r_exit := exit_device_disappeared;
     r_post_attempts := if eos_sent (l_self st) then [] else [wasapi_restart];
     r_posted :=
       if eos_sent (l_self st) || post_failed then [] else [wasapi_restart];
     r_env := env |}.

(** The outer [while (wanted > 0)].  A wake that leaves both events
    unsignaled does not end the wait; the thread stays blocked until a
    later one does, and [None] is a wait that never returns. *)
Fixpoint capture_loop (st : read_locals) (env : list wake) : option read_result :=
  if l_wanted st >? 0 then
    match env with
    | [] => None
    | w :: env' =>
      let self := l_self st in
      let ev := if w_data_ready w then SetEvent (event_handle self)
                else event_handle self in
      let sp := if w_stop w then SetEvent (stop_handle self)
                else stop_handle self in
      match (if w_wait_failed w then Some (WAIT_FAILED, ev, sp)
             else WaitForMultipleObjects ev sp) with
      | None => capture_loop (set_self st (set_events self ev sp)) env'
      | Some (dwWaitResult, ev', sp') =>
        let st := set_self st (set_events self ev' sp') in
        if match device_strid self with None => true | Some _ => false end
           && w_default_changed w
        then Some (device_disappeared st (w_post_failed w) env')
        else if dwWaitResult =? WAIT_OBJECT_0 then
          match drain st (w_packets w) with
          | (drain_break, st') => capture_loop st' env'
          | (drain_beach, st') => Some (beach st' env')
          | (drain_device_disappeared, st') =>
            Some (device_disappeared st' (w_post_failed w) env')
          end
        else if dwWaitResult =? WAIT_OBJECT_0 + 1 then
          Some (beach (set_data st (memset (l_data st) (l_data_ptr st) x00 (l_wanted st))) env')
        else Some (beach (set_length st 0) env')
      end
    end
  else Some (beach st env).

(** [gst_wasapi_src_read (asrc, data, length, timestamp)]; [start_failed]
    tells whether [IAudioClient_Start] fails should the client need a
    restart.  The object lock the function takes around the restart block
    is added by [gst_wasapi_src_read_locked] below. *)
Definition gst_wasapi_src_read (self : GstWasapiSrc) (data : list byte) (length : Z)
  (start_failed : bool) (env : list wake) : option read_result :=
  let st := {| l_self := self; l_data := data; l_data_ptr := 0;
               l_wanted := length; l_length := length |} in
  if client_needs_restart self && start_failed
  then Some (beach (set_length st 0) env)
  else
    let st := if client_needs_restart self
              then set_self st (set_client_needs_restart self false) else st in
    capture_loop (restore_overflow st) env.

(** A session: read calls one after the other on the same element, the
    script going from each call to the next. *)
Record read_call : Type := {
  c_data : list byte;
  c_length : Z;
  c_start_failed : bool
}.

Fixpoint run_reads (self : GstWasapiSrc) (env : list wake) (calls : list read_call)
  : option (GstWasapiSrc * list wake * list read_result) :=
  match calls with
  | [] => Some (self, env, [])
  | c :: calls' =>
    match gst_wasapi_src_read self (c_data c) (c_length c) (c_start_failed c) env with
    | None => None
    | Some r =>
      match run_reads (r_self r) (r_env r) calls' with
      | None => None
      | Some (self', env', rs) => Some (self', env', r :: rs)
      end
    end
  end.

(** The bytes in the overflow buffer that have not been handed back yet,
    oldest first. *)
Definition overflow_contents (self : GstWasapiSrc) : list byte :=
  firstn (Z.to_nat (overflow_buffer_length self))
         (skipn (Z.to_nat (overflow_buffer_ptr self)) (overflow_buffer self)).

(** The bytes a call copied to its destination, up to [data_ptr], and the
    bytes it reports to its caller. *)
Definition placed (r : read_result) : list byte :=
  firstn (Z.to_nat (r_data_ptr r)) (r_data r).

Definition returned (r : read_result) : list byte :=
  firstn (Z.to_nat (r_return r)) (r_data r).

(** A call that left through [device_disappeared]. *)
Definition lost (r : read_result) : bool :=
  match r_exit r with
  | exit_device_disappeared => true
  | exit_beach => false
  end.

(** ** The object lock

    [GST_OBJECT_LOCK (self)] takes the element's mutex, which is not
    recursive: a thread that asks for it while it is held waits until the
    holder gives it back.  [gst_wasapi_src_read] takes it on entry and
    gives it back after the restart block, except when
    [IAudioClient_Start] fails: [length = 0; goto beach] leaves the
    function with the lock held.  [gst_wasapi_src_reset] takes it after
    the test of [client] and gives it back at the end, except when
    [IAudioClient_Stop] or [IAudioClient_Reset] fails: [HR_FAILED_RET]
    returns with the lock held.  The macros [HR_FAILED_AND] and
    [HR_FAILED_RET] are defined in [gstwasapiutil.h], which is not among
    the sources: on a failed [hr] they are taken to log and then to run
    their last argument, respectively to return, and nothing else.

    [gst_wasapi_src_read] and [gst_wasapi_src_reset] above describe the two
    functions from the point where the lock has been obtained.  The two
    definitions here put the lock around them.  [object_lock] tells whether
    the lock is held by a call that has returned, so that nobody is left
    to give it back; the result carries the state of the lock at the
    return.  [None]: the call never returns, also when it waits for the
    lock. *)
Definition gst_wasapi_src_read_locked (object_lock : bool) (self : GstWasapiSrc)
  (data : list byte) (length : Z) (start_failed : bool) (env : list wake)
  : option (read_result * bool) :=
  if object_lock then None
  else
    match gst_wasapi_src_read self data length start_failed env with
    | None => None
    | Some r => Some (r, client_needs_restart self && start_failed)
    end.

Definition gst_wasapi_src_reset_locked (object_lock : bool) (self : GstWasapiSrc)
  (stop_failed reset_failed : bool) : option (GstWasapiSrc * bool) :=
  if negb (client self)
  then Some (gst_wasapi_src_reset self stop_failed reset_failed, object_lock)
  else if object_lock then None
  else Some (gst_wasapi_src_reset self stop_failed reset_failed,
             stop_failed || reset_failed).

(** ** The buffer producer: [gst_audio_base_src_create]

    The answers the function gets from outside: the flow return of the
    base class's [alloc], the answers of the successive
    [gst_audio_ring_buffer_read] calls, each with the ring buffer's error
    state and the answer of [gst_base_src_wait_playing] should the read
    come back short, and the element's clock.  The bytes of the buffer are
    not modelled. *)

Inductive GstFlowReturn : Type :=
| GST_FLOW_OK
| GST_FLOW_FLUSHING
| GST_FLOW_EOS
| GST_FLOW_NOT_NEGOTIATED
| GST_FLOW_ERROR.

Definition is_flow_ok (f : GstFlowReturn) : bool :=
  match f with GST_FLOW_OK => true | _ => false end.

(** A clock: whether it is the source's own [src->clock], what
    [gst_clock_get_time] answers, and the [time_offset] that
    [gst_audio_clock_adjust] adds. *)
Record GstClock : Type := {
  is_src_clock : bool;
  clock_time : Z;
  time_offset : Z
}.

Definition gst_audio_clock_adjust (clock : GstClock) (time : Z) : Z :=
  guint64 (time + time_offset clock).

Record ring_read : Type := {
  rd_read : Z;
  rd_timestamp : Z;
  rd_state_error : bool;
  rd_wait_playing : GstFlowReturn
}.

Record create_env : Type := {
  e_alloc : GstFlowReturn;
  e_reads : list ring_read;
  e_clock : option GstClock
}.

Record GstBuffer : Type := {
  buf_timestamp : Z;
  buf_duration : Z;
  buf_offset : Z;
  buf_offset_end : Z;
  buf_discont : bool
}.

(** The labels [create] leaves through; [done] is the normal return. *)
Inductive create_exit : Type :=
| done
| wrong_state
| wrong_offset
| alloc_failed
| stopped
| got_error.

(** What a pull leaves behind: the element, the flow return, the label,
    the buffer handed out if any, the [(sample, samples)] requests made to
    the ring buffer, and the messages posted. *)
Record create_result : Type := {
  cr_self : GstWasapiSrc;
  cr_flow : GstFlowReturn;
  cr_exit : create_exit;
  cr_outbuf : option GstBuffer;
  cr_requests : list (Z * Z);
  cr_posted : list GstMessage
}.

Inductive loop_exit : Type :=
| loop_done (sample samples rb_timestamp : Z)
| loop_stopped
| loop_got_error.

(** The [do ... while (TRUE)] that reads from the ring buffer, with the
    requests it makes.  [None]: the script of answers ran out while the
    loop was still going. *)
Fixpoint read_loop (reads : list ring_read) (sample samples : Z) (first : bool)
  (rb_timestamp : Z) : option (loop_exit * list (Z * Z)) :=
  match reads with
  | [] => None
  | rd :: rest =>
    let read := rd_read rd in
    let latch := first && GST_CLOCK_TIME_IS_VALID (rd_timestamp rd) in
    let first := if latch then false else first in
    let rb_timestamp := if latch then rd_timestamp rd else rb_timestamp in
    if read =? samples then Some (loop_done sample samples rb_timestamp, [(sample, samples)])
    else if rd_state_error rd then Some (loop_got_error, [(sample, samples)])
    else if negb (is_flow_ok (rd_wait_playing rd)) then Some (loop_stopped, [(sample, samples)])
    else
      match read_loop rest (guint64 (sample + read)) (guint (samples - read))
                      first rb_timestamp with
      | None => None
      | Some (e, requests) => Some (e, (sample, samples) :: requests)
      end
  end.

(** The resync branch shared by the skew and the resample cases: move the
    ring buffer to the running time, restart reading at the write position
    and count the time shift.  [advance_always] is the skew case, which
    advances even by zero segments. *)
Definition resync (self : GstWasapiSrc) (advance_always : bool)
  (running_time_segment last_written_segment samples : Z) : GstWasapiSrc * Z :=
  let src := parent self in
  let rb := ringbuffer src in
  let sps := samples_per_seg rb in
  let segment_diff := gint (running_time_segment - last_written_segment) in
  let advance := advance_always || negb (segment_diff =? 0) in
  let rb := if advance then gst_audio_ring_buffer_advance rb segment_diff else rb in
  let new_read_segment :=
    if advance then gint (segdone rb - segbase rb) else running_time_segment in
  let new_sample := guint64 (guint64 new_read_segment * guint64 sps) in
  let timestamp := gst_util_uint64_scale_int new_sample GST_SECOND (spec_rate rb) in
  let src := set_next_sample (set_ringbuffer src rb) (guint64 (new_sample + samples)) in
  (set_timeshifted_count (set_parent self src) (guint64 (timeshifted_count self + 1)),
   timestamp).

(** [timestamp_diff] as the resample case computes it. *)
Definition timestamp_diff (timestamp base_time : Z) : Z :=
  ABS64 (GST_CLOCK_DIFF timestamp base_time).

(** [case GST_AUDIO_BASE_SRC_SLAVE_RESAMPLE]. *)
Definition slave_resample (self : GstWasapiSrc) (clock : GstClock)
  (first_sample : bool) (sample samples timestamp : Z) : GstWasapiSrc * Z :=
  let src := parent self in
  let rb := ringbuffer src in
  let segments_written := segdone rb in
  let last_written_segment := gint (segments_written - segbase rb - 1) in
  let sps := samples_per_seg rb in
  let current_time := clock_time clock in
  let running_time := guint64 (current_time - base_time src) in
  let running_time_sample :=
    gst_util_uint64_scale_int running_time (spec_rate rb) GST_SECOND in
  let running_time_segment := gint (running_time_sample / guint64 sps) in
  let last_read_segment := gint (sample / guint64 sps) in
  let segment_skew := gint (running_time_segment - last_written_segment) in
  let timestamp_diff := timestamp_diff timestamp (base_time src) in
  let initial :=
    if negb first_sample && (initial_timestamp_diff self =? 0)
    then timestamp_diff else initial_timestamp_diff self in
  let drift_ns :=
    if timestamp_diff >? 0 then ABS64 (gint64 (initial - timestamp_diff)) else 0 in
  let drift_correction := guint64 drift_ns >? drift_correction_threshold self in
  let self :=
    if drift_correction
    then set_drift self 0 (guint64 (drift_correction_count self + 1))
    else set_drift self initial (drift_correction_count self) in
  if (segment_skew >=? spec_segtotal rb) || (last_read_segment =? 0)
     || first_sample || drift_correction
  then resync self false running_time_segment last_written_segment samples
  else (self, timestamp).

(** [case GST_AUDIO_BASE_SRC_SLAVE_SKEW]. *)
Definition slave_skew (self : GstWasapiSrc) (clock : GstClock)
  (first_sample : bool) (sample samples timestamp : Z) : GstWasapiSrc * Z :=
  let src := parent self in
  let rb := ringbuffer src in
  let segments_written := segdone rb in
  let last_written_segment := gint (segments_written - segbase rb - 1) in
  let sps := samples_per_seg rb in
  let current_time := clock_time clock in
  let running_time := guint64 (current_time - base_time src) in
  let running_time_sample :=
    gst_util_uint64_scale_int running_time (spec_rate rb) GST_SECOND in
  let running_time_segment := gint (running_time_sample / guint64 sps) in
  let last_read_segment := gint (sample / guint64 sps) in
  let segment_skew := gint (running_time_segment - last_written_segment) in
  if (segment_skew >=? spec_segtotal rb) || (last_read_segment =? 0) || first_sample
  then resync self true running_time_segment last_written_segment samples
  else (self, timestamp).

(** [case GST_AUDIO_BASE_SRC_SLAVE_RE_TIMESTAMP]. *)
Definition slave_re_timestamp (self : GstWasapiSrc) (clock : GstClock)
  (total_samples : Z) : Z :=
  let src := parent self in
  let timestamp := clock_time clock in
  let timestamp :=
    if GST_CLOCK_DIFF timestamp (base_time src) <? 0
    then guint64 (timestamp - base_time src) else 0 in
  let latency :=
    gst_util_uint64_scale_int total_samples GST_SECOND (spec_rate (ringbuffer src)) in
  if timestamp >? latency then guint64 (timestamp - latency) else 0.

(** The [else] of the slaving test: the source runs on its own clock or
    the ring buffer supplied a timestamp. *)
Definition not_slaved (self : GstWasapiSrc) (clock : GstClock)
  (rb_timestamp timestamp : Z) : Z :=
  let timestamp :=
    if GST_CLOCK_TIME_IS_VALID rb_timestamp then rb_timestamp
    else gst_audio_clock_adjust clock timestamp in
  if GST_CLOCK_DIFF timestamp (base_time (parent self)) <? 0
  then guint64 (timestamp - base_time (parent self)) else 0.

(** From the end of the read loop to the return: discontinuity,
    [next_sample], timestamp and duration, clock slaving, and the fields of
    the outgoing buffer. *)
Definition create_finish (self : GstWasapiSrc) (env : create_env) (first_sample : bool)
  (total_samples sample samples rb_timestamp : Z) (requests : list (Z * Z))
  : create_result :=
  let src := parent self in
  let rate := spec_rate (ringbuffer src) in
  let discont :=
    negb (sample =? next_sample src) && negb (next_sample src =? G_MAXUINT64) in
  let dropped := guint64 (sample - next_sample src) in
  let src := set_next_sample src (guint64 (sample + samples)) in
  let timestamp := gst_util_uint64_scale_int sample GST_SECOND rate in
  let duration :=
    guint64 (gst_util_uint64_scale_int (next_sample src) GST_SECOND rate - timestamp) in
  let self := set_parent self src in
  let '(self, timestamp) :=
    match e_clock env with
    | None => (self, timestamp)
    | Some clock =>
      if negb (GST_CLOCK_TIME_IS_VALID rb_timestamp) && negb (is_src_clock clock) then
        match slave_method src with
        | GST_AUDIO_BASE_SRC_SLAVE_RESAMPLE =>
          slave_resample self clock first_sample sample samples timestamp
        | GST_AUDIO_BASE_SRC_SLAVE_SKEW =>
          slave_skew self clock first_sample sample samples timestamp
        | GST_AUDIO_BASE_SRC_SLAVE_RE_TIMESTAMP =>
          (self, slave_re_timestamp self clock total_samples)
        | GST_AUDIO_BASE_SRC_SLAVE_NONE => (self, timestamp)
        end
      else (self, not_slaved self clock rb_timestamp timestamp)
    end in
  {| cr_self := self; cr_flow := GST_FLOW_OK; cr_exit := done;
     cr_outbuf := Some {| buf_timestamp := timestamp; buf_duration := duration;
                          buf_offset := sample;
                          buf_offset_end := guint64 (sample + samples);
                          buf_discont := discont |};
     cr_requests := requests;
     cr_posted :=
       if discont then [warning_core_clock dropped] else [] |}.

Definition create_fails (self : GstWasapiSrc) (exit : create_exit) (flow : GstFlowReturn)
  (requests : list (Z * Z)) (posted : list GstMessage) : create_result :=
  {| cr_self := self; cr_flow := flow; cr_exit := exit; cr_outbuf := None;
     cr_requests := requests; cr_posted := posted |}.

(** The length a pull works with: the segment size when none is given,
    else the request rounded down to whole frames. *)
Definition create_length (src : GstAudioBaseSrc) (length : Z) : Z :=
  if ((length =? 0) && (blocksize src =? 0)) || (length =? G_MAXUINT)
  then guint (spec_segsize (ringbuffer src))
  else guint (length - length mod guint (spec_bpf (ringbuffer src))).

(** [gst_audio_base_src_create (bsrc, offset, length, outbuf)].  [bsrc] is
    the element itself, seen as [GstAudioBaseSrc] through [parent].  The
    divisions by [bpf] divide an unsigned value by a [gint], which is
    converted to the unsigned type; a zero [bpf] traps in C. *)
Definition gst_audio_base_src_create (self : GstWasapiSrc) (offset length : Z)
  (env : create_env) : option create_result :=
  let src := parent self in
  let first_sample := next_sample src =? G_MAXUINT64 in
  let ringbuffer := ringbuffer src in
  if negb (acquired ringbuffer)
  then Some (create_fails self wrong_state GST_FLOW_FLUSHING [] [])
  else
    let bpf := spec_bpf ringbuffer in
    let length := create_length src length in
    let wrong := negb (offset =? G_MAXUINT64)
                 && negb (next_sample src =? G_MAXUINT64)
                 && negb (offset / guint64 bpf =? next_sample src) in
    if wrong
    then Some (create_fails self wrong_offset GST_FLOW_ERROR []
                 [error_resource_seek offset])
    else
      let sample :=
        if negb (offset =? G_MAXUINT64) then offset / guint64 bpf
        else gst_audio_base_src_get_offset src in
      let samples := length / guint bpf in
      let total_samples := samples in
      if negb (is_flow_ok (e_alloc env))
      then Some (create_fails self alloc_failed (e_alloc env) [] [])
      else
        match read_loop (e_reads env) sample samples true GST_CLOCK_TIME_NONE with
        | None => None
        | Some (loop_stopped, requests) =>
          Some (create_fails self stopped GST_FLOW_FLUSHING requests [])
        | Some (loop_got_error, requests) =>
          Some (create_fails self got_error GST_FLOW_ERROR requests [])
        | Some (loop_done sample samples rb_timestamp, requests) =>
          Some (create_finish self env first_sample total_samples sample samples
                  rb_timestamp requests)
        end.

(** ** Well-formed states and scripts

    The overflow fields describe a window inside the allocated buffer, an
    empty window sits at the start, and a frame has at least one byte. *)
Definition overflow_ok (self : GstWasapiSrc) : Prop :=
  0 <= overflow_buffer_ptr self /\
  0 <= overflow_buffer_length self /\
  overflow_buffer_ptr self + overflow_buffer_length self <= overflow_buffer_size self /\
  overflow_buffer_size self <= G_MAXUINT /\
  Z.of_nat (length (overflow_buffer self)) = overflow_buffer_size self /\
  (overflow_buffer_length self = 0 -> overflow_buffer_ptr self = 0) /\
  0 < nBlockAlign (mix_format self).

(** A packet [GetBuffer] hands out holds [have_frames] whole frames, and
    its byte size fits a [guint]. *)
Definition packet_ok (bpf : Z) (pk : capture_packet) : Prop :=
  gb_hr pk = S_OK ->
  0 <= gb_have_frames pk /\
  gb_have_frames pk * bpf <= G_MAXUINT /\
  Z.of_nat (length (gb_from pk)) = gb_have_frames pk * bpf.

Definition wake_ok (bpf : Z) (w : wake) : Prop :=
  Forall (packet_ok bpf) (w_packets w).

(** A call passes a [guint] length and a destination of at least that
    many bytes. *)
Definition call_ok (c : read_call) : Prop :=
  0 <= c_length c <= G_MAXUINT /\ c_length c <= Z.of_nat (length (c_data c)).

Definition locals_ok (st : read_locals) : Prop :=
  overflow_ok (l_self st) /\
  0 <= l_data_ptr st /\
  0 <= l_wanted st <= G_MAXUINT /\
  l_data_ptr st + l_wanted st <= Z.of_nat (length (l_data st)).

(** [st'] is [st] further along: the bytes already placed are untouched. *)
Definition extends (st st' : read_locals) : Prop :=
  l_data_ptr st <= l_data_ptr st' /\
  length (l_data st') = length (l_data st) /\
  firstn (Z.to_nat (l_data_ptr st)) (l_data st') =
    firstn (Z.to_nat (l_data_ptr st)) (l_data st) /\
  nBlockAlign (mix_format (l_self st')) = nBlockAlign (mix_format (l_self st)) /\
  l_data_ptr st' + l_wanted st' = l_data_ptr st + l_wanted st.

(** The bytes of a packet that do not fit the request: what
    [capture_burst] saves, when there is room for them. *)
Definition spilled (st : read_locals) (pk : capture_packet) : list byte :=
  let bpf := nBlockAlign (mix_format (l_self st)) in
  let want_frames := l_wanted st / bpf in
  if gb_have_frames pk >? want_frames then
    let save_length := (gb_have_frames pk - want_frames) * bpf in
    if overflow_buffer_length (l_self st) + save_length + overflow_buffer_ptr (l_self st)
         >? overflow_buffer_size (l_self st)
    then []
    else skipn (Z.to_nat (want_frames * bpf)) (gb_from pk)
  else [].

(** Two byte sequences agree as far as both go: one is a prefix of the
    other. *)
Definition agree (a b : list byte) : Prop :=
  firstn (length b) a = firstn (length a) b.

(** What a call hands over of the queue [O], seen through the bytes [q] it
    put out: either [q] is a proper prefix of [O], the rest of [O] stays
    queued and the device script is untouched; or [q] starts with the whole
    of [O]. *)
Definition delivers (O : list byte) (env : list wake) (r : read_result)
  (q : list byte) : Prop :=
  ((length q < length O)%nat /\ q = firstn (length q) O /\
   overflow_contents (r_self r) = skipn (length q) O /\ r_env r = env)
  \/ ((length O <= length q)%nat /\ firstn (length O) q = O).

(** [timestamp_diff] as the specification words it: the distance between
    the running time [reference_clock_now - base_time] and the timestamp. *)
Definition spec_timestamp_diff (reference_clock_now base_time timestamp : Z) : Z :=
  Z.abs (reference_clock_now - base_time - timestamp).

(** The drift the resample case tests, over unbounded integers. *)
Definition drift (initial timestamp_diff : Z) : Z :=
  if timestamp_diff =? 0 then 0 else Z.abs (initial - timestamp_diff).

(** The pull reaches the resample case: it is slaved to a clock that is
    not its own, and the ring buffer supplies no timestamps of its own (the
    read function of this element never sets one). *)
Definition resample_slaved (self : GstWasapiSrc) (env : create_env) : Prop :=
  slave_method (parent self) = GST_AUDIO_BASE_SRC_SLAVE_RESAMPLE /\
  (exists clock, e_clock env = Some clock /\ is_src_clock clock = false) /\
  Forall (fun rd => rd_timestamp rd = GST_CLOCK_TIME_NONE) (e_reads env).

(** What a packet stands for: its bytes, or as many zero bytes when it is
    flagged silent. *)
Definition silent (pk : capture_packet) : bool :=
  negb (Z.land (gb_flags pk) AUDCLNT_BUFFERFLAGS_SILENT =? 0).

Definition render (pk : capture_packet) : list byte :=
  if silent pk then repeat x00 (length (gb_from pk)) else gb_from pk.

(** A packet fetched and released without error. *)
Definition packet_clean (pk : capture_packet) : Prop :=
  gb_hr pk = S_OK /\ gb_release_failed pk = false.

(** A wake in which the driver signals data, the wait works, the default
    device stays and every packet is fetched and released without error. *)
Definition clean_wake (w : wake) : Prop :=
  w_data_ready w = true /\ w_wait_failed w = false /\
  w_default_changed w = false /\ Forall packet_clean (w_packets w).

(** The packets of a run of wakes, their bytes as the driver holds them and
    as they are to be heard. *)
Definition packets_of (ws : list wake) : list capture_packet :=
  concat (map w_packets ws).

Definition raw_bytes (ws : list wake) : list byte :=
  concat (map gb_from (packets_of ws)).

Definition rendered_bytes (ws : list wake) : list byte :=
  concat (map render (packets_of ws)).

(** ** Prepare, unprepare and the clock

    The fields of [GstWasapiSrc] that only [gst_wasapi_src_prepare],
    [gst_wasapi_src_unprepare] and [gst_wasapi_src_get_time] use.  The
    pointers are [true] when they are not [NULL].  Two pieces of state
    outside the element that these functions act on go with them:
    [client_running], whether the audio client is streaming (between a
    successful [IAudioClient_Start] and an [IAudioClient_Stop]), and
    [com_balance], the calls of [CoInitialize] less the calls of
    [CoUninitialize] made on the thread that prepares and unprepares.
    ([gst_wasapi_src_init] and [gst_wasapi_src_finalize] make one such
    call each as well, on the thread that creates and destroys the
    element.) *)
Record wasapi_device : Type := {
  capture_client : bool;
  client_clock : bool;
  client_clock_freq : Z;
  thread_priority_handle : bool;
  sample_rate : Z;
  capture_too_many_frames_log_count : Z;
  client_running : bool;
  com_balance : Z
}.

Definition CoInitialize (dev : wasapi_device) : wasapi_device :=
  {| capture_client := capture_client dev; client_clock := client_clock dev;
     client_clock_freq := client_clock_freq dev;
     thread_priority_handle := thread_priority_handle dev;
     sample_rate := sample_rate dev;
     capture_too_many_frames_log_count := capture_too_many_frames_log_count dev;
     client_running := client_running dev;
     com_balance := com_balance dev + 1 |}.

(** What [gst_wasapi_src_prepare] is answered, call by call:
    [gst_wasapi_util_initialize_audioclient] (or its [audioclient3]
    variant) with the device period in frames, [IAudioClient_GetBufferSize]
    with the buffer size in frames, each [None] on failure; the bytes
    [g_malloc] returns; whether [GetStreamLatency] and [SetEventHandle]
    fail; whether [gst_wasapi_util_get_clock] succeeds;
    [IAudioClock_GetFrequency] with the frequency; whether
    [gst_wasapi_util_get_capture_client] succeeds; whether
    [IAudioClient_Start] fails; and whether
    [gst_wasapi_util_set_thread_characteristics] returns a handle.  The
    functions of [gstwasapiutil.c] are not among the sources: they are
    taken to touch nothing of the element but the out-parameters the
    source passes them. *)
Record prepare_env : Type := {
  p_initialize : option Z;
  p_buffer_size : option Z;
  p_fresh : list byte;
  p_latency_failed : bool;
  p_set_event_failed : bool;
  p_clock : bool;
  p_frequency : option Z;
  p_capture_client : bool;
  p_start_failed : bool;
  p_thread_handle : bool
}.

Definition set_spec_seg (rb : GstAudioRingBuffer) (segsize segtotal : Z)
  : GstAudioRingBuffer :=
  {| acquired := acquired rb; spec_segsize := segsize;
     spec_segtotal := segtotal; spec_bpf := spec_bpf rb;
     spec_rate := spec_rate rb; samples_per_seg := samples_per_seg rb;
     segdone := segdone rb; segbase := segbase rb |}.

(** [gst_wasapi_src_unprepare].  The thread priority is reverted, the
    audio client is stopped when there is one (the result of
    [IAudioClient_Stop] is not looked at), every pointer found set is
    released and set to [NULL], and [CoUninitialize] is called, on every
    call.  [g_malloc] returns [NULL] for a size of 0, so the overflow
    buffer is [NULL] exactly when it has no bytes. *)
Definition gst_wasapi_src_unprepare (self : GstWasapiSrc) (dev : wasapi_device)
  : GstWasapiSrc * wasapi_device :=
  let dev :=
    {| capture_client := false; client_clock := false; client_clock_freq := 0;
       thread_priority_handle := false; sample_rate := sample_rate dev;
       capture_too_many_frames_log_count := 0;
       client_running := if client self then false else client_running dev;
       com_balance := com_balance dev - 1 |} in
  let self :=
    match overflow_buffer self with
    | [] => self
    | _ :: _ => set_overflow self 0 0 0 []
    end in
  (self, dev).

(** The segment geometry [gst_wasapi_src_prepare] writes to the ring
    buffer's [spec]: [devicep_frames], [buffer_frames] and [bpf] are
    [guint]s, [segsize] and [segtotal] are [gint]s, and the division and
    the [MAX] are unsigned. *)
Definition prepare_segsize (devicep_frames bpf : Z) : Z :=
  gint (guint (devicep_frames * bpf)).

Definition prepare_segtotal (buffer_frames bpf segsize : Z) : Z :=
  gint (guint (Z.max (guint (buffer_frames * bpf) / guint segsize) 2 + 1)).

(** [gst_wasapi_src_prepare (asrc, spec)], where [spec] is the [spec] of
    the element's ring buffer.  It starts with [CoInitialize]; every
    failure goes through [beach], which calls [gst_wasapi_src_unprepare]. *)
Definition gst_wasapi_src_prepare (self : GstWasapiSrc) (dev : wasapi_device)
  (env : prepare_env) : GstWasapiSrc * wasapi_device * bool :=
  let dev := CoInitialize dev in
  match p_initialize env with
  | None => (gst_wasapi_src_unprepare self dev, false)
  | Some devicep_frames =>
    let rb := ringbuffer (parent self) in
    let bpf := guint (spec_bpf rb) in
    let rate := guint (spec_rate rb) in
    match p_buffer_size env with
    | None => (gst_wasapi_src_unprepare self dev, false)
    | Some buffer_frames =>
      let dev :=
        {| capture_client := capture_client dev; client_clock := client_clock dev;
           client_clock_freq := client_clock_freq dev;
           thread_priority_handle := thread_priority_handle dev;
           sample_rate := gint rate;
           capture_too_many_frames_log_count :=
             capture_too_many_frames_log_count dev;
           client_running := client_running dev; com_balance := com_balance dev |} in
      let segsize := prepare_segsize (guint devicep_frames) bpf in
      let segtotal := prepare_segtotal (guint buffer_frames) bpf segsize in
      let self :=
        set_parent self
          (set_ringbuffer (parent self) (set_spec_seg rb segsize segtotal)) in
      let self := prepare_overflow_buffer self segsize (p_fresh env) in
      if p_latency_failed env then (gst_wasapi_src_unprepare self dev, false)
      else if p_set_event_failed env then (gst_wasapi_src_unprepare self dev, false)
      else if negb (p_clock env) then (gst_wasapi_src_unprepare self dev, false)
      else
        let dev :=
          {| capture_client := capture_client dev; client_clock := true;
             client_clock_freq := client_clock_freq dev;
             thread_priority_handle := thread_priority_handle dev;
             sample_rate := sample_rate dev;
             capture_too_many_frames_log_count :=
               capture_too_many_frames_log_count dev;
             client_running := client_running dev; com_balance := com_balance dev |} in
        match p_frequency env with
        | None => (gst_wasapi_src_unprepare self dev, false)
        | Some freq =>
          let dev :=
            {| capture_client := capture_client dev; client_clock := true;
               client_clock_freq := guint64 freq;
               thread_priority_handle := thread_priority_handle dev;
               sample_rate := sample_rate dev;
               capture_too_many_frames_log_count :=
                 capture_too_many_frames_log_count dev;
               client_running := client_running dev; com_balance := com_balance dev |} in
          if negb (p_capture_client env)
          then (gst_wasapi_src_unprepare self dev, false)
          else
            let dev :=
              {| capture_client := true; client_clock := true;
                 client_clock_freq := client_clock_freq dev;
                 thread_priority_handle := thread_priority_handle dev;
                 sample_rate := sample_rate dev;
                 capture_too_many_frames_log_count :=
                   capture_too_many_frames_log_count dev;
                 client_running := client_running dev; com_balance := com_balance dev |} in
            if p_start_failed env then (gst_wasapi_src_unprepare self dev, false)
            else
              let dev :=
                {| capture_client := true; client_clock := true;
                   client_clock_freq := client_clock_freq dev;
                   thread_priority_handle := p_thread_handle env;
                   sample_rate := sample_rate dev;
                   capture_too_many_frames_log_count :=
                     capture_too_many_frames_log_count dev;
                   client_running := true; com_balance := com_balance dev |} in
              (self, dev, true)
        end
    end
  end.

(** [gst_wasapi_src_get_time]; [position] is the answer of
    [IAudioClock_GetPosition], [None] when it fails.  The frequency is
    passed to [gst_util_uint64_scale_int] as its [gint] denominator. *)
Definition gst_wasapi_src_get_time (dev : wasapi_device) (position : option Z) : Z :=
  if negb (client_clock dev) then GST_CLOCK_TIME_NONE
  else
    match position with
    | None => GST_CLOCK_TIME_NONE
    | Some devpos =>
      gst_util_uint64_scale_int (guint64 devpos) GST_SECOND
        (gint (client_clock_freq dev))
    end.

(** ** A small session

    Concrete inputs for the examples: frames of 4 bytes at 48 kHz, segments
    of 2 frames, a ring buffer of 3 segments with 5 segments written, an
    element that has been initialised and prepared (an overflow buffer of
    [4 * 8] bytes), and whose previous pull ended at sample 2. *)

Definition ex_ringbuffer : GstAudioRingBuffer :=
  {| acquired := true; spec_segsize := 8; spec_segtotal := 3; spec_bpf := 4;
     spec_rate := 48000; samples_per_seg := 2; segdone := 5; segbase := 0 |}.

Definition ex_src : GstAudioBaseSrc :=
  {| next_sample := 2; blocksize := 0; ringbuffer := ex_ringbuffer;
     slave_method := GST_AUDIO_BASE_SRC_SLAVE_RESAMPLE;
     base_time := 1000000000 |}.

Definition ex_instance : GstWasapiSrc :=
  {| parent := ex_src; client := true;
     event_handle := {| bManualReset := false; signaled := false |};
     stop_handle := {| bManualReset := false; signaled := false |};
     overflow_buffer_size := 0; overflow_buffer_ptr := 0;
     overflow_buffer_length := 0; overflow_buffer := [];
     client_needs_restart := false; mix_format := {| nBlockAlign := 4 |};
     eos_sent := false; device_strid := None;
     initial_timestamp_diff := 0; timeshifted_count := 0;
     drift_correction_count := 0; drift_correction_threshold := 0 |}.

Definition ex_self : GstWasapiSrc :=
  prepare_overflow_buffer (gst_wasapi_src_init ex_instance) 8 (repeat xff 32).

(** A packet of 4 frames holding the bytes 1 to 16, and the same packet
    flagged silent. *)
Definition ex_bytes : list byte :=
  [x01; x02; x03; x04; x05; x06; x07; x08; x09; x0a; x0b; x0c; x0d; x0e; x0f; x10].

Definition ex_packet : capture_packet :=
  {| gb_hr := S_OK; gb_from := ex_bytes; gb_have_frames := 4; gb_flags := 0;
     gb_release_failed := false |}.

Definition ex_silent_packet : capture_packet :=
  {| gb_hr := S_OK; gb_from := ex_bytes; gb_have_frames := 4;
     gb_flags := AUDCLNT_BUFFERFLAGS_SILENT; gb_release_failed := false |}.

(** The driver signals data and has [pkts] pending; nothing else happens. *)
Definition ex_wake (pkts : list capture_packet) : wake :=
  {| w_data_ready := true; w_stop := false; w_wait_failed := false;
     w_default_changed := false; w_post_failed := false; w_packets := pkts |}.

(** Nothing happens outside. *)
Definition ex_quiet : wake :=
  {| w_data_ready := false; w_stop := false; w_wait_failed := false;
     w_default_changed := false; w_post_failed := false; w_packets := [] |}.

(** The default device changes while the call waits. *)
Definition ex_device_change : wake :=
  {| w_data_ready := true; w_stop := false; w_wait_failed := false;
     w_default_changed := true; w_post_failed := false; w_packets := [] |}.

(** A read of [n] bytes into a destination of [n] bytes. *)
Definition ex_call (n : nat) : read_call :=
  {| c_data := repeat xee n; c_length := Z.of_nat n; c_start_failed := false |}.

(** The ring buffer supplies the 2 samples asked for; the pipeline clock,
    not the source's own, reads 1.07 s. *)
Definition ex_read : ring_read :=
  {| rd_read := 2; rd_timestamp := GST_CLOCK_TIME_NONE; rd_state_error := false;
     rd_wait_playing := GST_FLOW_OK |}.

Definition ex_env : create_env :=
  {| e_alloc := GST_FLOW_OK; e_reads := [ex_read];
     e_clock := Some {| is_src_clock := false; clock_time := 1070000000;
                        time_offset := 0 |} |}.

(** The element on the first pull of a session. *)
Definition ex_first : GstWasapiSrc :=
  set_parent ex_self (set_next_sample ex_src G_MAXUINT64).

(** The element with [initial_timestamp_diff] latched at 1 ms and a base
    time that puts [timestamp_diff] at [d] when the pull resolves to sample
    10, whose timestamp is 208333 ns. *)
Definition ex_drifting (d : Z) : GstWasapiSrc :=
  set_drift
    (set_parent ex_self
       {| next_sample := 2; blocksize := 0; ringbuffer := ex_ringbuffer;
          slave_method := GST_AUDIO_BASE_SRC_SLAVE_RESAMPLE;
          base_time := 208333 + d |})
    1000000 0.

(** ** Statements about one call *)

(** What a call does to the one-shot flag: it is raised by a call that
    meets device loss and never lowered; the message goes out only when the
    flag was still down. *)
Definition loss_report (st : read_locals) (r : read_result) : Prop :=
  eos_sent (r_self r) = eos_sent (l_self st) || lost r /\
  r_post_attempts r
  = (if lost r && negb (eos_sent (l_self st)) then [wasapi_restart] else []) /\
  (r_posted r = r_post_attempts r \/ r_posted r = []) /\
  (lost r = true -> r_return r = l_length st).

(** The relation [extends] between the locals at some point and what the
    call finally hands back. *)
Definition result_extends (st : read_locals) (r : read_result) : Prop :=
  overflow_ok (r_self r) /\
  l_data_ptr st <= r_data_ptr r <= l_data_ptr st + l_wanted st /\
  length (r_data r) = length (l_data st) /\
  firstn (Z.to_nat (l_data_ptr st)) (r_data r) =
    firstn (Z.to_nat (l_data_ptr st)) (l_data st) /\
  nBlockAlign (mix_format (r_self r)) = nBlockAlign (mix_format (l_self st)).

(** ** Statements about a call and the element around it *)

(** The fields of the element that a read call has no business with: the
    base source with its ring buffer, the client, the capacity of the
    overflow buffer, the format, the device and the drift bookkeeping. *)
Definition same_config (a b : GstWasapiSrc) : Prop :=
  parent b = parent a /\ client b = client a /\
  overflow_buffer_size b = overflow_buffer_size a /\
  mix_format b = mix_format a /\ device_strid b = device_strid a /\
  initial_timestamp_diff b = initial_timestamp_diff a /\
  timeshifted_count b = timeshifted_count a /\
  drift_correction_count b = drift_correction_count a /\
  drift_correction_threshold b = drift_correction_threshold a.

(** The locals a call starts from, once the restart at its head is done. *)
Definition read_entry (self : GstWasapiSrc) (data : list byte) (length : Z)
  : read_locals :=
  {| l_self := if client_needs_restart self
               then set_client_needs_restart self false else self;
     l_data := data; l_data_ptr := 0; l_wanted := length; l_length := length |}.

(** A wake on which a call gives up: the wait fails, or the wait reports
    data and the first [GetBuffer] answers with an error that is neither
    "empty" nor "device invalidated". *)
Definition failing_wake (self : GstWasapiSrc) (w : wake) : Prop :=
  w_wait_failed w = true \/
  (w_wait_failed w = false /\
   signaled (event_handle self) || w_data_ready w = true /\
   exists pk rest, w_packets w = pk :: rest /\ gb_hr pk = E_FAIL).

(** A wake during which [GetBuffer] never answers "device invalidated". *)
Definition never_invalidated (w : wake) : Prop :=
  Forall (fun pk => gb_hr pk <> AUDCLNT_E_DEVICE_INVALIDATED) (w_packets w).

(** The example element opened on a named device rather than on the
    default one. *)
Definition ex_named : GstWasapiSrc :=
  {| parent := ex_src; client := true;
     event_handle := CreateEvent false false;
     stop_handle := CreateEvent false false;
     overflow_buffer_size := 32; overflow_buffer_ptr := 0;
     overflow_buffer_length := 0; overflow_buffer := repeat xff 32;
     client_needs_restart := false; mix_format := {| nBlockAlign := 4 |};
     eos_sent := false; device_strid := Some [123; 0];
     initial_timestamp_diff := 0; timeshifted_count := 0;
     drift_correction_count := 0;
     drift_correction_threshold := DEFAULT_DRIFT_CORRECTION_THRESHOLD |}.

(** ** Statements about a pull *)

(** What the ring buffer promises for a run of reads that starts by asking
    for [samples] samples: each read returns no more than is still asked
    for. *)
Fixpoint ring_reads_ok (reads : list ring_read) (samples : Z) : Prop :=
  match reads with
  | [] => True
  | rd :: rest =>
    0 <= rd_read rd <= samples /\ ring_reads_ok rest (samples - rd_read rd)
  end.

(** The sample a pull starts reading at and the number of samples it asks
    for, as [gst_audio_base_src_create] works them out before its loop. *)
Definition create_start (src : GstAudioBaseSrc) (offset : Z) : Z :=
  if negb (offset =? G_MAXUINT64)
  then offset / guint64 (spec_bpf (ringbuffer src))
  else gst_audio_base_src_get_offset src.

Definition create_samples (src : GstAudioBaseSrc) (length : Z) : Z :=
  create_length src length / guint (spec_bpf (ringbuffer src)).

(** The pull may move the read position on its own account: the element
    is slaved to a clock that is not its own, in the resample or the skew
    mode. *)
Definition may_resync (self : GstWasapiSrc) (env : create_env) : bool :=
  match e_clock env with
  | None => false
  | Some clock =>
    negb (is_src_clock clock) &&
    match slave_method (parent self) with
    | GST_AUDIO_BASE_SRC_SLAVE_RESAMPLE => true
    | GST_AUDIO_BASE_SRC_SLAVE_SKEW => true
    | _ => false
    end
  end.

(** [gst_util_uint64_scale_int (x, GST_SECOND, rate)] over unbounded
    integers: the time of sample [x]. *)
Definition sample_time (x rate : Z) : Z := x * GST_SECOND / rate.

(** A pull without a clock whose first read is interrupted after one of
    the two samples asked for; the second read returns the other one. *)
Definition ex_split_env : create_env :=
  {| e_alloc := GST_FLOW_OK;
     e_reads := [ {| rd_read := 1; rd_timestamp := GST_CLOCK_TIME_NONE;
                     rd_state_error := false; rd_wait_playing := GST_FLOW_OK |};
                  {| rd_read := 1; rd_timestamp := GST_CLOCK_TIME_NONE;
                     rd_state_error := false; rd_wait_playing := GST_FLOW_OK |} ];
     e_clock := None |}.

(** A pull without a clock whose read returns the 2 samples asked for. *)
Definition ex_plain_env : create_env :=
  {| e_alloc := GST_FLOW_OK; e_reads := [ex_read]; e_clock := None |}.

(** The pull is slaved to [clock]: the element's clock is [clock], not the
    source's own, and the ring buffer supplies no timestamps (the read
    function of this element never sets one). *)
Definition slaved_to (env : create_env) (clock : GstClock) : Prop :=
  e_clock env = Some clock /\ is_src_clock clock = false /\
  Forall (fun rd => rd_timestamp rd = GST_CLOCK_TIME_NONE) (e_reads env).

(** The example element in the re-timestamp and in the skew mode. *)
Definition ex_re_timestamp : GstWasapiSrc :=
  set_parent ex_self
    {| next_sample := 2; blocksize := 0; ringbuffer := ex_ringbuffer;
       slave_method := GST_AUDIO_BASE_SRC_SLAVE_RE_TIMESTAMP;
       base_time := 1000000000 |}.

Definition ex_skew : GstWasapiSrc :=
  set_parent ex_self
    {| next_sample := 2; blocksize := 0; ringbuffer := ex_ringbuffer;
       slave_method := GST_AUDIO_BASE_SRC_SLAVE_SKEW;
       base_time := 1000000000 |}.

(** The segment the pipeline clock's running time falls in, as the
    resample and the skew case compute it. *)
Definition running_time_segment (src : GstAudioBaseSrc) (clock : GstClock) : Z :=
  let rb := ringbuffer src in
  let running_time := guint64 (clock_time clock - base_time src) in
  let running_time_sample :=
    gst_util_uint64_scale_int running_time (spec_rate rb) GST_SECOND in
  gint (running_time_sample / guint64 (samples_per_seg rb)).

(** The element after a resync to running-time segment [rts], over
    unbounded integers: the producer's counter stands one segment past
    [rts], reading restarts there, and the time shift is counted. *)
Definition resynced (self : GstWasapiSrc) (rts samples : Z) : GstWasapiSrc :=
  let src := parent self in
  let rb := ringbuffer src in
  set_timeshifted_count
    (set_parent self
       (set_next_sample
          (set_ringbuffer src (set_segdone rb (segbase rb + rts + 1)))
          ((rts + 1) * samples_per_seg rb + samples)))
    (guint64 (timeshifted_count self + 1)).

(** A wake during which nobody signals either event and the wait does
    not fail. *)
Definition idle_wake (w : wake) : Prop :=
  w_data_ready w = false /\ w_stop w = false /\ w_wait_failed w = false.

(** An element that has never been prepared, and the answers of a device
    with a period of 2 frames, a buffer of 6 frames and a clock of 10 MHz:
    once with every call succeeding, once with [IAudioClient_Start]
    failing at the very end. *)
Definition ex_device : wasapi_device :=
  {| capture_client := false; client_clock := false; client_clock_freq := 0;
     thread_priority_handle := false; sample_rate := 0;
     capture_too_many_frames_log_count := 0;
     client_running := false; com_balance := 0 |}.

Definition ex_prepare_env : prepare_env :=
  {| p_initialize := Some 2; p_buffer_size := Some 6; p_fresh := repeat xff 32;
     p_latency_failed := false; p_set_event_failed := false; p_clock := true;
     p_frequency := Some 10000000; p_capture_client := true;
     p_start_failed := false; p_thread_handle := true |}.

Definition ex_prepare_fails : prepare_env :=
  {| p_initialize := Some 2; p_buffer_size := Some 6; p_fresh := repeat xff 32;
     p_latency_failed := false; p_set_event_failed := false; p_clock := true;
     p_frequency := Some 10000000; p_capture_client := true;
     p_start_failed := true; p_thread_handle := true |}.

(** ** Statements about the resample case *)

(** A pipeline clock that reads 250 microseconds past the base time of
    [ex_drifting 5500000]: the running time then falls in segment 6, two
    segments past the last written one, which is within the ring. *)
Definition ex_near_env : create_env :=
  {| e_alloc := GST_FLOW_OK; e_reads := [ex_read];
     e_clock := Some {| is_src_clock := false; clock_time := 5958333;
                        time_offset := 0 |} |}.

(** An element with segments of 480 samples (10 ms at 48 kHz) about to
    make the second pull of its session, and a pull that finds the pipeline
    clock at [now] and gets a whole segment from the ring buffer. *)
Definition ex_steady : GstWasapiSrc :=
  set_parent ex_self
    {| next_sample := 480; blocksize := 0;
       ringbuffer := {| acquired := true; spec_segsize := 1920; spec_segtotal := 3;
                        spec_bpf := 4; spec_rate := 48000; samples_per_seg := 480;
                        segdone := 2; segbase := 0 |};
       slave_method := GST_AUDIO_BASE_SRC_SLAVE_RESAMPLE;
       base_time := 1000000000 |}.

Definition ex_steady_env (now : Z) : create_env :=
  {| e_alloc := GST_FLOW_OK;
     e_reads := [{| rd_read := 480; rd_timestamp := GST_CLOCK_TIME_NONE;
                    rd_state_error := false; rd_wait_playing := GST_FLOW_OK |}];
     e_clock := Some {| is_src_clock := false; clock_time := now;
                        time_offset := 0 |} |}.

(** The capture thread completes one more segment between two pulls. *)
Definition segment_written (self : GstWasapiSrc) : GstWasapiSrc :=
  set_parent self
    (set_ringbuffer (parent self)
       (gst_audio_ring_buffer_advance (ringbuffer (parent self)) 1)).

(** The element and the device as a failing prepare hands them to
    unprepare: COM has been initialised once more, the client is not
    streaming unless it was, and the fields unprepare leaves alone are the
    caller's. *)
Definition handed_to_unprepare (self : GstWasapiSrc) (dev : wasapi_device)
  (self0 : GstWasapiSrc) (dev0 : wasapi_device) : Prop :=
  event_handle self0 = event_handle self /\
  stop_handle self0 = stop_handle self /\
  eos_sent self0 = eos_sent self /\
  client_needs_restart self0 = client_needs_restart self /\
  client self0 = client self /\
  client_running dev0 = client_running dev /\
  com_balance dev0 = com_balance dev + 1.

(** The wait of a call fails ([WAIT_FAILED]) with nothing else going on. *)
Definition ex_failed_wait : wake :=
  {| w_data_ready := false; w_stop := false; w_wait_failed := true;
     w_default_changed := false; w_post_failed := false; w_packets := [] |}.

(** A packet of one frame holding the bytes 1 to 4, and a wake in which
    another thread raises the stop signal while the driver stays quiet. *)
Definition ex_frame_packet : capture_packet :=
  {| gb_hr := S_OK; gb_from := [x01; x02; x03; x04]; gb_have_frames := 1;
     gb_flags := 0; gb_release_failed := false |}.

Definition ex_stop_wake : wake :=
  {| w_data_ready := false; w_stop := true; w_wait_failed := false;
     w_default_changed := false; w_post_failed := false; w_packets := [] |}.

(** ** Statements about device loss *)

(** A wake in which the device shows as lost to an element opened on
    [device]: the default device changes under an element that follows the
    default device, or [GetBuffer] answers "device invalidated". *)
Definition loss_event (device : option (list Z)) (w : wake) : Prop :=
  (device = None /\ w_default_changed w = true) \/
  Exists (fun pk => gb_hr pk = AUDCLNT_E_DEVICE_INVALIDATED) (w_packets w).

(** A wake at which a call that is still waiting for bytes meets device
    loss.  Either the element follows the default device, something ends
    the wait (the driver's signal, the stop signal or a failure) and the
    default device is found changed; or the wait reports data, no change of
    the default device applies, and after packets fetched and released
    without error [GetBuffer] answers "device invalidated". *)
Definition meets_device_loss (self : GstWasapiSrc) (w : wake) : Prop :=
  (device_strid self = None /\ w_default_changed w = true /\
   (w_wait_failed w = true \/ w_data_ready w = true \/ w_stop w = true)) \/
  ((device_strid self = None -> w_default_changed w = false) /\
   w_wait_failed w = false /\ w_data_ready w = true /\
   exists pks pk more,
     w_packets w = pks ++ pk :: more /\ Forall packet_clean pks /\
     gb_hr pk = AUDCLNT_E_DEVICE_INVALIDATED).

(** The driver signals data, hands out one frame and then reports the
    device as invalidated; and a change of the default device at a moment
    when the bus refuses messages. *)
Definition ex_invalidated : wake :=
  {| w_data_ready := true; w_stop := false; w_wait_failed := false;
     w_default_changed := false; w_post_failed := false;
     w_packets := [ex_frame_packet;
                   {| gb_hr := AUDCLNT_E_DEVICE_INVALIDATED; gb_from := [];
                      gb_have_frames := 0; gb_flags := 0;
                      gb_release_failed := false |}] |}.

Definition ex_device_change_refused : wake :=
  {| w_data_ready := true; w_stop := false; w_wait_failed := false;
     w_default_changed := true; w_post_failed := true; w_packets := [] |}.

(* ================================================================== *)
(** * Theorems *)
(* ================================================================== *)

(** ** Machine integers *)

Lemma guint_small x : 0 <= x <= G_MAXUINT -> guint x = x.
Proof. unfold guint, G_MAXUINT. intros. apply Z.mod_small. lia. Qed.

Lemma guint64_small x : 0 <= x <= G_MAXUINT64 -> guint64 x = x.
Proof. unfold guint64, G_MAXUINT64. intros. apply Z.mod_small. lia. Qed.

Lemma gint_small x : - 2 ^ 31 <= x <= G_MAXINT -> gint x = x.
Proof.
  unfold gint, G_MAXINT. intros. rewrite Z.mod_small; lia.
Qed.

Lemma gint64_small x : - 2 ^ 63 <= x <= G_MAXINT64 -> gint64 x = x.
Proof.
  unfold gint64, G_MAXINT64. intros. rewrite Z.mod_small; lia.
Qed.

Lemma guint_range x : 0 <= guint x <= G_MAXUINT.
Proof.
  unfold guint, G_MAXUINT.
  pose proof (Z.mod_pos_bound x (2 ^ 32) ltac:(lia)). lia.
Qed.

Lemma guint64_range x : 0 <= guint64 x <= G_MAXUINT64.
Proof.
  unfold guint64, G_MAXUINT64.
  pose proof (Z.mod_pos_bound x (2 ^ 64) ltac:(lia)). lia.
Qed.

(** ** The offset calculator *)

Section GetOffset.

Variable src : GstAudioBaseSrc.

Let sps := samples_per_seg (ringbuffer src).
Let cws := current_write_segment src.

Hypothesis sps_range : 0 < sps <= G_MAXINT.
Hypothesis cws_range : 0 <= cws <= G_MAXINT.

Lemma write_position_exact : guint64 (guint64 (gint cws) * guint64 sps) = cws * sps.
Proof.
  assert (Hp : 0 <= cws * sps <= G_MAXUINT64)
    by (unfold G_MAXINT, G_MAXUINT64 in *; nia).
  rewrite gint_small by (unfold G_MAXINT in *; lia).
  rewrite (guint64_small cws) by (unfold G_MAXINT, G_MAXUINT64 in *; lia).
  rewrite (guint64_small sps) by (unfold G_MAXINT, G_MAXUINT64 in *; lia).
  now apply guint64_small.
Qed.

Lemma get_offset_first_sample :
  next_sample src = G_MAXUINT64 ->
  gst_audio_base_src_get_offset src = cws * sps.
Proof.
  intros Hs. unfold gst_audio_base_src_get_offset.
  rewrite Hs, Z.eqb_refl. simpl negb. cbv iota.
  apply write_position_exact.
Qed.

Lemma get_offset_sequential :
  0 <= next_sample src < G_MAXUINT64 ->
  next_sample src / sps <= G_MAXINT ->
  gst_audio_base_src_get_offset src =
  if cws - next_sample src / sps >=? spec_segtotal (ringbuffer src)
  then cws * sps else next_sample src.
Proof.
  intros Hs Hq. unfold gst_audio_base_src_get_offset.
  replace (next_sample src =? G_MAXUINT64) with false
    by (symmetry; apply Z.eqb_neq; lia).
  simpl negb. cbv iota. fold sps. fold (current_write_segment src). fold cws.
  assert (Hq0 : 0 <= next_sample src / sps) by (apply Z.div_pos; lia).
  rewrite (guint64_small sps) at 1 by (unfold G_MAXINT, G_MAXUINT64 in *; lia).
  rewrite (gint_small (next_sample src / sps)) by (unfold G_MAXINT in *; lia).
  rewrite (gint_small cws) at 1 by (unfold G_MAXINT in *; lia).
  rewrite (gint_small (cws - _)) by (unfold G_MAXINT in *; lia).
  destruct (_ >=? _); [apply write_position_exact | reflexivity].
Qed.

End GetOffset.

(** C4 (amended).  For a positive segment length, a write segment that is
    a non-negative [gint], and a [next_sample] whose segment index
    [next_sample / sps] fits the [gint] it is stored in, the offset
    calculator returns what the rule says: the write position
    [current_write_segment * sps] for the sentinel and for a consumer that
    is [total_segments] or more behind, [next_sample] itself otherwise. *)
Theorem get_offset_in_range src :
  let sps := samples_per_seg (ringbuffer src) in
  let cws := current_write_segment src in
  0 < sps <= G_MAXINT ->
  0 <= cws <= G_MAXINT ->
  0 <= next_sample src <= G_MAXUINT64 ->
  (next_sample src <> G_MAXUINT64 -> next_sample src / sps <= G_MAXINT) ->
  gst_audio_base_src_get_offset src =
  spec_offset (next_sample src) cws sps (spec_segtotal (ringbuffer src)).
Proof.
  intros sps cws Hsps Hcws Hs Hq. unfold spec_offset.
  destruct (Z.eqb_spec (next_sample src) G_MAXUINT64) as [Hfirst|Hseq].
  - now apply get_offset_first_sample.
  - apply get_offset_sequential; auto. lia.
Qed.

(** C4, witness: a consumer at segment 1 with 5 segments written out of 3
    is moved to the write position, sample 10. *)
Lemma get_offset_in_range_witness :
  gst_audio_base_src_get_offset ex_src = spec_offset 2 5 2 3.
Proof.
  apply (get_offset_in_range ex_src); vm_compute; repeat split;
    intros; discriminate.
Defined.

(** C4, counterexample.  The segment index is stored in a [gint]: at
    [next_sample = 2^33] with 2 samples per segment the index [2^32]
    becomes 0, the consumer looks lapped and is moved to sample 10, where
    the rule keeps [next_sample]. *)
Lemma get_offset_truncates_read_segment :
  let src := set_next_sample ex_src (2 ^ 33) in
  gst_audio_base_src_get_offset src = 10 /\
  spec_offset (next_sample src) (current_write_segment src)
    (samples_per_seg (ringbuffer src)) (spec_segtotal (ringbuffer src)) = 2 ^ 33.
Proof. vm_compute. split; reflexivity. Qed.

(** C6 (amended).  For every [next_sample], the sample the offset
    calculator resolves to is never [total_segments] or more segments
    behind the write segment.  It can be any number of segments ahead of
    it: a [next_sample] at or ahead of the write segment whose segment
    index fits the [gint] it is stored in is returned unchanged.  (An index
    that does not fit wraps around, and the sample may then be replaced by
    the write position.) *)
Theorem read_segment_never_lapped src :
  let sps := samples_per_seg (ringbuffer src) in
  let cws := current_write_segment src in
  0 < sps <= G_MAXINT ->
  0 <= cws <= G_MAXINT ->
  0 <= next_sample src <= G_MAXUINT64 ->
  0 < spec_segtotal (ringbuffer src) ->
  cws - resolved_read_segment src < spec_segtotal (ringbuffer src) /\
  (next_sample src <> G_MAXUINT64 ->
   cws <= next_sample src / sps <= G_MAXINT ->
   gst_audio_base_src_get_offset src = next_sample src /\
   resolved_read_segment src - cws = next_sample src / sps - cws).
Proof.
  intros sps cws Hsps Hcws Hs Htot. split.
  { unfold resolved_read_segment. fold sps.
  destruct (Z.eqb_spec (next_sample src) G_MAXUINT64) as [Hfirst|Hseq].
  - rewrite get_offset_first_sample by assumption.
    fold cws. fold sps. rewrite Z.div_mul by lia. lia.
  - destruct (Z_le_gt_dec (next_sample src / sps) G_MAXINT) as [Hfit|Hbig].
    + rewrite get_offset_sequential by (auto; lia).
      fold cws. fold sps.
      destruct (Z.geb_spec (cws - next_sample src / sps)
                           (spec_segtotal (ringbuffer src))).
      * rewrite Z.div_mul by lia. lia.
      * lia.
    + (* the segment index does not fit a gint: the consumer is ahead *)
      subst sps cws. unfold gst_audio_base_src_get_offset.
      replace (next_sample src =? G_MAXUINT64) with false
        by (symmetry; now apply Z.eqb_neq).
      simpl negb. cbv iota. fold (current_write_segment src).
      destruct (_ >=? _).
      * rewrite write_position_exact by assumption.
        rewrite Z.div_mul by lia. lia.
      * unfold G_MAXINT in *. lia. }
  intros Hseq Hahead. subst sps cws.
  assert (E : gst_audio_base_src_get_offset src = next_sample src).
  { rewrite get_offset_sequential by (auto; lia).
    destruct (_ >=? _) eqn:G; [|reflexivity].
    apply Z.geb_le in G. lia. }
  split; [exact E|]. unfold resolved_read_segment. rewrite E. reflexivity.
Qed.

(** C6, witness: with the writer at segment 5 of a ring of 3, the consumer
    at sample 12 (segment 6) is one segment ahead and stays where it is. *)
Lemma read_segment_never_lapped_witness :
  let src := set_next_sample ex_src 12 in
  current_write_segment src - resolved_read_segment src < 3 /\
  gst_audio_base_src_get_offset src = 12 /\
  resolved_read_segment src - current_write_segment src = 1.
Proof.
  intros src.
  pose proof (read_segment_never_lapped src) as W. cbv zeta in W.
  destruct W as [W1 W2].
  - vm_compute. repeat split; intros; discriminate.
  - vm_compute. repeat split; intros; discriminate.
  - vm_compute. repeat split; intros; discriminate.
  - vm_compute. reflexivity.
  - split; [exact W1|].
    destruct W2 as [W2 W3].
    + vm_compute. intros; discriminate.
    + vm_compute. repeat split; intros; discriminate.
    + split; [exact W2 | exact W3].
Defined.

(** C6, counterexample.  A [next_sample] ahead of the write position is
    returned as it is: at sample 200, segment 100, with the writer at
    segment 5 of a ring of 3, the resolved read segment is 95 segments away
    from the write segment. *)
Lemma read_segment_can_run_ahead :
  let src := set_next_sample ex_src 200 in
  resolved_read_segment src = 100 /\
  ~ Z.abs (current_write_segment src - resolved_read_segment src)
      <= spec_segtotal (ringbuffer src).
Proof. vm_compute. split; [reflexivity | intros H; now apply H]. Qed.

(** ** Memory *)

Section Memory.

Variables (dst src : list byte) (off n : Z) (c : byte).
Hypothesis off_pos : 0 <= off.
Hypothesis n_pos : 0 <= n.
Hypothesis fits : off + n <= Z.of_nat (length dst).

Lemma memset_length : length (memset dst off c n) = length dst.
Proof.
  unfold memset.
  rewrite !length_app, length_firstn, repeat_length, length_skipn. lia.
Qed.

Lemma memcpy_length :
  n <= Z.of_nat (length src) -> length (memcpy dst off src n) = length dst.
Proof.
  intros Hs. unfold memcpy.
  rewrite !length_app, !length_firstn, length_skipn. lia.
Qed.

Lemma memset_below k :
  (k <= Z.to_nat off)%nat ->
  firstn k (memset dst off c n) = firstn k dst.
Proof.
  intros Hk. unfold memset.
  rewrite firstn_app, firstn_firstn, length_firstn.
  replace (k - Nat.min (Z.to_nat off) (length dst))%nat with 0%nat by lia.
  rewrite Nat.min_l by exact Hk. simpl. apply app_nil_r.
Qed.

Lemma memcpy_below k :
  (k <= Z.to_nat off)%nat ->
  firstn k (memcpy dst off src n) = firstn k dst.
Proof.
  intros Hk. unfold memcpy.
  rewrite firstn_app, firstn_firstn, length_firstn.
  replace (k - Nat.min (Z.to_nat off) (length dst))%nat with 0%nat by lia.
  rewrite Nat.min_l by exact Hk. simpl. apply app_nil_r.
Qed.

Lemma memcpy_written :
  n <= Z.of_nat (length src) ->
  firstn (Z.to_nat (off + n)) (memcpy dst off src n) =
  firstn (Z.to_nat off) dst ++ firstn (Z.to_nat n) src.
Proof.
  intros Hs. unfold memcpy. rewrite app_assoc.
  rewrite firstn_app.
  rewrite length_app, !length_firstn.
  replace (Z.to_nat (off + n) - _)%nat with 0%nat by lia.
  simpl. rewrite app_nil_r. apply firstn_all2.
  rewrite length_app, !length_firstn. lia.
Qed.

Lemma memset_written :
  firstn (Z.to_nat (off + n)) (memset dst off c n) =
  firstn (Z.to_nat off) dst ++ repeat c (Z.to_nat n).
Proof.
  unfold memset. rewrite app_assoc.
  rewrite firstn_app.
  rewrite length_app, length_firstn, repeat_length.
  replace (Z.to_nat (off + n) - _)%nat with 0%nat by lia.
  simpl. rewrite app_nil_r. apply firstn_all2.
  rewrite length_app, length_firstn, repeat_length. lia.
Qed.

End Memory.

Lemma skipn_firstn_swap {A} (l : list A) (a b : nat) :
  skipn a (firstn (a + b) l) = firstn b (skipn a l).
Proof.
  revert l; induction a as [|a IH]; intros l; [reflexivity|].
  destruct l as [|x l]; simpl; [now rewrite firstn_nil | apply IH].
Qed.

(** ** The overflow buffer inside one call *)

Lemma extends_refl st : extends st st.
Proof. unfold extends; auto with zarith. Qed.

Lemma extends_trans a b c : extends a b -> extends b c -> extends a c.
Proof.
  unfold extends. intros (P1 & L1 & F1 & B1 & S1) (P2 & L2 & F2 & B2 & S2).
  repeat split; try congruence; try lia.
  rewrite <- F1.
  replace (Z.to_nat (l_data_ptr a))
    with (Nat.min (Z.to_nat (l_data_ptr a)) (Z.to_nat (l_data_ptr b))) by lia.
  rewrite <- !firstn_firstn. now rewrite F2.
Qed.

Lemma capture_burst_ok st pk :
  locals_ok st ->
  overflow_buffer_ptr (l_self st) = 0 ->
  gb_hr pk = S_OK ->
  packet_ok (nBlockAlign (mix_format (l_self st))) pk ->
  let st' := capture_burst st pk in
  locals_ok st' /\ overflow_buffer_ptr (l_self st') = 0 /\ extends st st' /\
  overflow_contents (l_self st') = overflow_contents (l_self st) ++ spilled st pk.
Proof.
  intros (Hov & Hp & Hw & Hd) Hptr Hhr Hpk.
  destruct (Hpk Hhr) as (Hhave & Hbytes & Hfrom). clear Hpk.
  destruct Hov as (_ & Hlen & Hfit & Hsize & Hbuf & Hidle & Hbpf).
  unfold spilled, capture_burst, locals_ok, extends, overflow_ok, overflow_contents.
  cbv zeta.
  set (bpf := nBlockAlign (mix_format (l_self st))) in *.
  set (have := gb_have_frames pk) in *.
  set (want := l_wanted st / bpf).
  assert (Hwant : 0 <= want) by (apply Z.div_pos; lia).
  assert (Hwm : want * bpf <= l_wanted st)
    by (unfold want; rewrite Z.mul_comm; apply Z.mul_div_le; lia).
  assert (Hn : 0 <= Z.min have want * bpf <= want * bpf) by nia.
  rewrite (guint_small (Z.min have want * bpf)) by (unfold G_MAXUINT in *; lia).
  set (read_len := Z.min have want * bpf) in *.
  rewrite (guint_small (l_wanted st - read_len)) by (unfold G_MAXUINT in *; lia).
  rewrite Hptr in *.
  set (d := if negb (Z.land (gb_flags pk) AUDCLNT_BUFFERFLAGS_SILENT =? 0)
            then memset (l_data st) (l_data_ptr st) x00 read_len
            else memcpy (l_data st) (l_data_ptr st) (gb_from pk) read_len).
  assert (Hdata :
    length d = length (l_data st) /\
    firstn (Z.to_nat (l_data_ptr st)) d = firstn (Z.to_nat (l_data_ptr st)) (l_data st)).
  { unfold d. destruct (negb _).
    - split; [apply memset_length | apply memset_below]; lia.
    - split; [apply memcpy_length | apply memcpy_below]; nia. }
  clearbody d. destruct Hdata as [Hdl Hdf].
  simpl.
  destruct (have >? want) eqn:Hgt.
  - apply Z.gtb_lt in Hgt.
    rewrite (guint_small (have - want)) by (unfold G_MAXUINT in *; nia).
    assert (Hsl : 0 <= (have - want) * bpf <= G_MAXUINT) by nia.
    rewrite (guint_small ((have - want) * bpf)) by exact Hsl.
    unfold gsize.
    rewrite (Z.mod_small ((have - want) * bpf)) by (unfold G_MAXUINT in *; lia).
    rewrite Z.mod_small by (unfold G_MAXUINT in *; lia).
    replace read_len with (want * bpf) in * by (unfold read_len; f_equal; lia).
    rewrite Z.add_0_r.
    destruct (_ >? overflow_buffer_size (l_self st)) eqn:Hroom.
    + simpl. rewrite Hptr, app_nil_r, Hdl. repeat split; auto; lia.
    + rewrite Z.gtb_ltb in Hroom. apply Z.ltb_ge in Hroom.
      rewrite (guint_small ((have - want) * bpf)) by exact Hsl.
      rewrite guint_small by (unfold G_MAXUINT in *; lia).
      simpl. rewrite Hdl. rewrite ?Hptr. simpl skipn.
      assert (Hsrc : (have - want) * bpf
                     <= Z.of_nat (length (skipn (Z.to_nat (want * bpf)) (gb_from pk))))
        by (rewrite length_skipn; nia).
      assert (Hml : length (memcpy (overflow_buffer (l_self st))
                      (overflow_buffer_length (l_self st))
                      (skipn (Z.to_nat (want * bpf)) (gb_from pk))
                      ((have - want) * bpf))
                    = length (overflow_buffer (l_self st)))
        by (apply memcpy_length; lia).
      repeat split; auto; try lia.
      rewrite memcpy_written by lia.
      simpl skipn. f_equal.
      apply firstn_all2. rewrite length_skipn. nia.
  - simpl. rewrite Hptr, app_nil_r, Hdl.
    repeat split; auto; lia.
Qed.

Lemma drain_ok pkts : forall st e st',
  locals_ok st ->
  overflow_buffer_ptr (l_self st) = 0 ->
  Forall (packet_ok (nBlockAlign (mix_format (l_self st)))) pkts ->
  drain st pkts = (e, st') ->
  locals_ok st' /\ overflow_buffer_ptr (l_self st') = 0 /\ extends st st'.
Proof.
  induction pkts as [|pk rest IH]; intros st e st' Hok Hptr Hpk H; simpl in H.
  - inversion H; subst. auto using extends_refl.
  - inversion Hpk as [|? ? Hpk1 Hpk2]; subst.
    destruct (gb_hr pk) eqn:Hhr;
      try (inversion H; subst; now auto using extends_refl).
    destruct (capture_burst_ok st pk Hok Hptr Hhr Hpk1) as (Hok' & Hptr' & Hext & _).
    destruct (gb_release_failed pk).
    + inversion H; subst. auto.
    + assert (Hpk2' : Forall (packet_ok (nBlockAlign (mix_format
                                 (l_self (capture_burst st pk))))) rest).
      { destruct Hext as (_ & _ & _ & -> & _). exact Hpk2. }
      destruct (IH _ _ _ Hok' Hptr' Hpk2' H) as (A & B & C).
      eauto using extends_trans.
Qed.

Lemma result_extends_step st st' r :
  locals_ok st' -> extends st st' -> result_extends st' r -> result_extends st r.
Proof.
  unfold extends, result_extends.
  intros (_ & _ & Hw & _) (P1 & L1 & F1 & B1 & S1) (O2 & P2 & L2 & F2 & B2).
  split; [exact O2|].
  repeat split; try congruence; try lia.
  rewrite <- F1.
  replace (Z.to_nat (l_data_ptr st))
    with (Nat.min (Z.to_nat (l_data_ptr st)) (Z.to_nat (l_data_ptr st'))) by lia.
  rewrite <- !firstn_firstn. now rewrite F2.
Qed.

Lemma beach_extends st env :
  locals_ok st -> result_extends st (beach st env).
Proof.
  unfold locals_ok, result_extends; simpl. intuition lia.
Qed.

Lemma beach_failed_extends st v env :
  locals_ok st -> result_extends st (beach (set_length st v) env).
Proof.
  unfold locals_ok, result_extends; simpl. intuition lia.
Qed.

Lemma device_disappeared_extends st post_failed env :
  locals_ok st -> result_extends st (device_disappeared st post_failed env).
Proof.
  unfold locals_ok, result_extends, overflow_ok; simpl. intuition lia.
Qed.

Lemma capture_loop_idle st env :
  l_wanted st <= 0 -> capture_loop st env = Some (beach st env).
Proof.
  intros Hw. destruct env; simpl;
    (replace (l_wanted st >? 0) with false
       by (symmetry; rewrite Z.gtb_ltb; apply Z.ltb_ge; exact Hw));
    reflexivity.
Qed.

Lemma capture_loop_ok env : forall st r,
  locals_ok st ->
  (0 < l_wanted st -> overflow_buffer_ptr (l_self st) = 0) ->
  Forall (wake_ok (nBlockAlign (mix_format (l_self st)))) env ->
  capture_loop st env = Some r ->
  result_extends st r /\ exists pre, env = pre ++ r_env r.
Proof.
  induction env as [|w env IH]; intros st r Hok Hptr Henv H; simpl in H.
  - destruct (l_wanted st >? 0); [discriminate|].
    inversion H; subst. split; [now apply beach_extends | now exists []].
  - destruct (l_wanted st >? 0) eqn:Hw;
      [|inversion H; subst; split; [now apply beach_extends | now exists []]].
    rewrite Z.gtb_ltb in Hw. apply Z.ltb_lt in Hw. specialize (Hptr Hw).
    inversion Henv as [|? ? Hw1 Henv']; subst.
    assert (Hev : forall ev sp,
               locals_ok (set_self st (set_events (l_self st) ev sp)) /\
               extends st (set_self st (set_events (l_self st) ev sp))).
    { intros ev sp. unfold locals_ok, extends, overflow_ok in *; simpl.
      intuition lia. }
    assert (Hmore : forall r',
               (exists pre', env = pre' ++ r_env r') ->
               exists pre', w :: env = pre' ++ r_env r').
    { intros r' [pre' ->]. now exists (w :: pre'). }
    destruct (if w_wait_failed w then _ else _) as [[[res ev'] sp']|].
    + destruct (Hev ev' sp') as [Hok1 Hext1].
      destruct (_ && _).
      { inversion H; subst. split; [|now exists [w]].
        apply (result_extends_step _ _ _ Hok1 Hext1).
        now apply device_disappeared_extends. }
      destruct (res =? _).
      { destruct (drain _ (w_packets w)) as [e st'] eqn:Hd.
        apply drain_ok in Hd; auto.
        destruct Hd as (Hok2 & Hptr2 & Hext2).
        assert (Hext : extends st st') by eauto using extends_trans.
        destruct e.
        - apply IH in H; auto.
          + destruct H as [H1 H2]. split; [|now apply Hmore].
            exact (result_extends_step _ _ _ Hok2 Hext H1).
          + destruct Hext as (_ & _ & _ & -> & _). exact Henv'.
        - inversion H; subst. split; [|now exists [w]].
          apply (result_extends_step _ _ _ Hok2 Hext).
          now apply beach_extends.
        - inversion H; subst. split; [|now exists [w]].
          apply (result_extends_step _ _ _ Hok2 Hext).
          now apply device_disappeared_extends. }
      destruct (res =? _); inversion H; subst; (split; [|now exists [w]]).
      * destruct Hok as (Hov & Hp & Hwr & Hd).
        unfold result_extends; simpl.
        rewrite memset_length, memset_below by lia.
        unfold overflow_ok in *; simpl. intuition lia.
      * apply (result_extends_step _ _ _ Hok1 Hext1).
        now apply beach_failed_extends.
    + destruct (Hev (if w_data_ready w then SetEvent (event_handle (l_self st))
                     else event_handle (l_self st))
                    (if w_stop w then SetEvent (stop_handle (l_self st))
                     else stop_handle (l_self st))) as [Hok1 Hext1].
      apply IH in H; auto.
      destruct H as [H1 H2]. split; [|now apply Hmore].
      exact (result_extends_step _ _ _ Hok1 Hext1 H1).
Qed.

(** ** The overflow buffer is a queue *)

Lemma overflow_contents_length self :
  overflow_ok self ->
  length (overflow_contents self) = Z.to_nat (overflow_buffer_length self).
Proof.
  intros (Hp & Hl & Hfit & _ & Hbuf & _).
  unfold overflow_contents. rewrite length_firstn, length_skipn. lia.
Qed.

Lemma restore_overflow_ok self data len :
  overflow_ok self ->
  0 <= len <= G_MAXUINT ->
  len <= Z.of_nat (length data) ->
  let st' := restore_overflow {| l_self := self; l_data := data; l_data_ptr := 0;
                                 l_wanted := len; l_length := len |} in
  let n := Z.min (overflow_buffer_length self) len in
  locals_ok st' /\
  (0 < l_wanted st' -> overflow_buffer_ptr (l_self st') = 0) /\
  l_data_ptr st' = n /\
  l_wanted st' = len - n /\
  l_length st' = len /\
  length (l_data st') = length data /\
  firstn (Z.to_nat n) (l_data st') = firstn (Z.to_nat n) (overflow_contents self) /\
  overflow_contents (l_self st') = skipn (Z.to_nat n) (overflow_contents self) /\
  nBlockAlign (mix_format (l_self st')) = nBlockAlign (mix_format self).
Proof.
  intros Hok Hlen Hdata.
  pose proof (overflow_contents_length self Hok) as HO.
  destruct Hok as (Hp & Hl & Hfit & Hsize & Hbuf & Hidle & Hbpf).
  unfold restore_overflow. cbv zeta. simpl l_self. simpl l_wanted.
  simpl l_data. simpl l_data_ptr. simpl l_length.
  destruct (overflow_buffer_length self >? 0) eqn:Hpos.
  - rewrite Z.gtb_ltb in Hpos. apply Z.ltb_lt in Hpos.
    set (n := Z.min (overflow_buffer_length self) len).
    assert (Hn : 0 <= n <= len /\ n <= overflow_buffer_length self)
      by (unfold n; lia).
    set (src := skipn (Z.to_nat (overflow_buffer_ptr self)) (overflow_buffer self)).
    assert (Hsrc : n <= Z.of_nat (length src))
      by (unfold src; rewrite length_skipn; lia).
    rewrite (guint_small (len - n)) by lia.
    unfold locals_ok. simpl.
    rewrite memcpy_length by lia.
    assert (Hhead : firstn (Z.to_nat n) (memcpy data 0 src n) =
                    firstn (Z.to_nat n) (overflow_contents self)).
    { change (Z.to_nat n) with (Z.to_nat (0 + n)) at 1.
      rewrite memcpy_written by lia. simpl.
      unfold overflow_contents. fold src. rewrite firstn_firstn.
      f_equal. lia. }
    destruct (n =? overflow_buffer_length self) eqn:Hall.
    + apply Z.eqb_eq in Hall.
      unfold overflow_ok, overflow_contents at 1; simpl.
      rewrite (skipn_all2 (n := Z.to_nat n) (overflow_contents self)) by lia.
      repeat split; auto; lia.
    + apply Z.eqb_neq in Hall.
      assert (Hnl : n = len) by lia.
      rewrite !guint_small by (unfold G_MAXUINT in *; lia).
      unfold overflow_ok, overflow_contents; simpl.
      repeat split; auto; try lia.
      fold src.
      replace (Z.to_nat (overflow_buffer_length self))
        with (Z.to_nat n + Z.to_nat (overflow_buffer_length self - n))%nat by lia.
      rewrite skipn_firstn_swap. unfold src. rewrite skipn_skipn.
      do 2 f_equal. lia.
  - rewrite Z.gtb_ltb in Hpos. apply Z.ltb_ge in Hpos.
    assert (H0 : overflow_buffer_length self = 0) by lia.
    replace (Z.min (overflow_buffer_length self) len) with 0 by lia.
    unfold locals_ok, overflow_ok; simpl.
    repeat split; auto; lia.
Qed.

Lemma delivers_short O env r (data : list byte) k :
  (k <= length data)%nat ->
  firstn k data = firstn k O ->
  overflow_contents (r_self r) = skipn k O ->
  r_env r = env ->
  delivers O env r (firstn k data).
Proof.
  intros Hk Hhead Hrest Henv. unfold delivers.
  rewrite length_firstn, Nat.min_l by exact Hk.
  destruct (Nat.lt_ge_cases k (length O)) as [Hlt|Hge].
  - left. auto.
  - right. split; [exact Hge|].
    rewrite Hhead, firstn_firstn, Nat.min_l by exact Hge.
    apply firstn_all.
Qed.

Lemma delivers_full O env r (data : list byte) k :
  (length O <= k <= length data)%nat ->
  firstn (length O) data = O ->
  delivers O env r (firstn k data).
Proof.
  intros Hk Hhead. right.
  rewrite length_firstn, firstn_firstn, !Nat.min_l by lia.
  split; [lia | exact Hhead].
Qed.

Lemma read_delivers self data len start_failed env r :
  overflow_ok self ->
  0 <= len <= G_MAXUINT ->
  len <= Z.of_nat (length data) ->
  Forall (wake_ok (nBlockAlign (mix_format self))) env ->
  gst_wasapi_src_read self data len start_failed env = Some r ->
  overflow_ok (r_self r) /\
  nBlockAlign (mix_format (r_self r)) = nBlockAlign (mix_format self) /\
  (exists pre, env = pre ++ r_env r) /\
  delivers (overflow_contents self) env r (placed r) /\
  (r_return r = len -> delivers (overflow_contents self) env r (returned r)).
Proof.
  intros Hok Hlen Hdata Henv H. unfold gst_wasapi_src_read in H.
  destruct (client_needs_restart self && start_failed).
  - inversion H; subst. unfold placed, returned.
    cbn [beach set_length r_self r_data r_data_ptr r_return r_env
         l_self l_data l_data_ptr l_length].
    split; [exact Hok|]. split; [reflexivity|]. split; [now exists []|].
    split; [|intros _];
      apply delivers_short; try reflexivity; simpl; lia.
  - set (self1 := if client_needs_restart self
                  then set_client_needs_restart self false else self) in *.
    assert (Hok1 : overflow_ok self1) by (unfold self1; destruct (client_needs_restart self); exact Hok).
    assert (HO : overflow_contents self1 = overflow_contents self)
      by (unfold self1; destruct (client_needs_restart self); reflexivity).
    assert (Hb : nBlockAlign (mix_format self1) = nBlockAlign (mix_format self))
      by (unfold self1; destruct (client_needs_restart self); reflexivity).
    pose proof (overflow_contents_length self1 Hok1) as HOl.
    assert (Hol : 0 <= overflow_buffer_length self1) by apply Hok1.
    replace (if client_needs_restart self then _ else _)
      with {| l_self := self1; l_data := data; l_data_ptr := 0;
              l_wanted := len; l_length := len |} in H
      by (unfold self1; destruct (client_needs_restart self); reflexivity).
    destruct (restore_overflow_ok self1 data len Hok1 Hlen Hdata)
      as (Hst & Hptr & Hdp & Hw & Hl & Hdl & Hhead & Hrest & Hbpf).
    rewrite HO in *.
    set (st' := restore_overflow _) in *.
    set (n := Z.min (overflow_buffer_length self1) len) in *.
    destruct (Z_le_gt_dec (l_wanted st') 0) as [Hidle|Hbusy].
    + rewrite capture_loop_idle in H by exact Hidle.
      inversion H; subst r. unfold placed, returned; simpl. 
      rewrite Hdp, Hl.
      assert (Hn : n = len) by lia.
      repeat split; try apply Hst; try congruence; [now exists [] | |];
        intros; rewrite <- ?Hn; apply delivers_short; auto; lia.
    + apply capture_loop_ok in H; [|exact Hst|lia|now rewrite Hbpf, Hb].
      destruct H as [(Hrok & Hrp & Hrl & Hrf & Hrb) Hpre].
      assert (Hn : n = overflow_buffer_length self1) by lia.
      assert (Hfull : firstn (length (overflow_contents self)) (r_data r)
                      = overflow_contents self).
      { rewrite Hdp in Hrf. rewrite HOl at 1. rewrite <- Hn, Hrf, Hhead.
        apply firstn_all2. lia. }
      split; [exact Hrok|]. split; [congruence|]. split; [exact Hpre|]. split.
      * unfold placed. apply delivers_full; auto. lia.
      * intros Hret. unfold returned. rewrite Hret.
        apply delivers_full; auto. lia.
Qed.

Lemma run_reads_cons self env c calls self' env' rs :
  run_reads self env (c :: calls) = Some (self', env', rs) ->
  exists r rs',
    gst_wasapi_src_read self (c_data c) (c_length c) (c_start_failed c) env = Some r /\
    run_reads (r_self r) (r_env r) calls = Some (self', env', rs') /\
    rs = r :: rs'.
Proof.
  simpl. destruct (gst_wasapi_src_read _ _ _ _ _) as [r|]; [|discriminate].
  destruct (run_reads _ _ _) as [[[s e] rs']|] eqn:Hrest; [|discriminate].
  intros H; inversion H; subst. exists r, rs'. auto.
Qed.

Lemma firstn_add (l : list byte) (a b : nat) :
  firstn (a + b) l = firstn a l ++ firstn b (skipn a l).
Proof.
  revert l; induction a as [|a IH]; intros l; [reflexivity|].
  destruct l as [|x l]; simpl; [now rewrite firstn_nil | now rewrite IH].
Qed.

Lemma agree_nil O : agree [] O.
Proof. unfold agree. now rewrite firstn_nil. Qed.

Lemma agree_short O q rest :
  (length q < length O)%nat ->
  q = firstn (length q) O ->
  agree rest (skipn (length q) O) ->
  agree (q ++ rest) O.
Proof.
  unfold agree. intros Hlt Hq Hrest.
  rewrite length_skipn in Hrest.
  rewrite length_app, firstn_add, <- Hq, <- Hrest.
  rewrite firstn_app. f_equal.
  apply firstn_all2. lia.
Qed.

Lemma agree_full O q rest :
  (length O <= length q)%nat ->
  firstn (length O) q = O ->
  agree (q ++ rest) O.
Proof.
  unfold agree. intros Hle Hq.
  rewrite firstn_app, Hq.
  replace (length O - length q)%nat with 0%nat by lia.
  simpl. rewrite app_nil_r, length_app.
  symmetry. apply firstn_all2. lia.
Qed.

Lemma run_reads_length calls : forall self env self' env' rs,
  run_reads self env calls = Some (self', env', rs) ->
  length rs = length calls.
Proof.
  induction calls as [|c calls IH]; intros self env self' env' rs H.
  - simpl in H. now inversion H.
  - apply run_reads_cons in H. destruct H as (r & rs' & _ & Hrest & ->).
    simpl. f_equal. eauto.
Qed.

Section Queue.

(** [view] is a way of reading off what a call put out, right for the
    calls that are [good]. *)
Variable view : read_result -> list byte.
Variable good : read_call -> read_result -> Prop.

Hypothesis view_delivers : forall self env c r,
  overflow_ok self -> call_ok c ->
  Forall (wake_ok (nBlockAlign (mix_format self))) env ->
  gst_wasapi_src_read self (c_data c) (c_length c) (c_start_failed c) env = Some r ->
  good c r ->
  delivers (overflow_contents self) env r (view r).

Lemma queue_first calls : forall self env self' env' rs,
  overflow_ok self ->
  Forall call_ok calls ->
  Forall (wake_ok (nBlockAlign (mix_format self))) env ->
  run_reads self env calls = Some (self', env', rs) ->
  Forall2 good calls rs ->
  agree (concat (map view rs)) (overflow_contents self) /\
  ((length (concat (map view rs)) < length (overflow_contents self))%nat ->
   overflow_contents self' =
     skipn (length (concat (map view rs))) (overflow_contents self) /\
   env' = env).
Proof.
  induction calls as [|c calls IH]; intros self env self' env' rs Hok Hcs Henv H Hg.
  - simpl in H. inversion H; subst. simpl. split; [apply agree_nil | auto].
  - apply run_reads_cons in H. destruct H as (r & rs' & Hr & Hrest & ->).
    inversion Hcs as [|? ? Hc Hcs']; subst.
    inversion Hg as [|? ? ? ? Hg1 Hg']; subst.
    pose proof (view_delivers _ _ _ _ Hok Hc Henv Hr Hg1) as Hd.
    destruct Hc as [Hc1 Hc2].
    destruct (read_delivers _ _ _ _ _ _ Hok Hc1 Hc2 Henv Hr)
      as (Hok' & Hb & [pre Hpre] & _).
    assert (Henv' : Forall (wake_ok (nBlockAlign (mix_format (r_self r)))) (r_env r)).
    { rewrite Hb. rewrite Hpre in Henv. now apply Forall_app in Henv. }
    destruct (IH _ _ _ _ _ Hok' Hcs' Henv' Hrest Hg') as [IH1 IH2].
    simpl. destruct Hd as [(Hlt & Hq & Ho & He)|(Hle & Hq)].
    + rewrite Ho in IH1, IH2. split; [now apply agree_short|].
      rewrite length_app. intros Hl.
      rewrite length_skipn in IH2.
      destruct IH2 as [I1 I2]; [lia|].
      rewrite I1, I2, He, skipn_skipn. split; [f_equal; lia | reflexivity].
    + split; [now apply agree_full|].
      rewrite length_app. lia.
Qed.

End Queue.

(** ** What one wake's packets become *)

Lemma firstn_repeat_le (c : byte) (n m : nat) :
  (n <= m)%nat -> firstn n (repeat c m) = repeat c n.
Proof.
  revert m; induction n as [|n IH]; intros m Hle; [reflexivity|].
  destruct m as [|m]; [lia|]. simpl. f_equal. apply IH. lia.
Qed.

Lemma firstn_min_length (l : list byte) (n : nat) :
  firstn n l = firstn (Nat.min n (length l)) l.
Proof.
  destruct (Nat.le_ge_cases n (length l)).
  - now rewrite Nat.min_l.
  - rewrite Nat.min_r by assumption. now rewrite firstn_all, firstn_all2.
Qed.

Lemma render_length pk : length (render pk) = length (gb_from pk).
Proof. unfold render. destruct (silent pk); [apply repeat_length | reflexivity]. Qed.

(** One packet, when the bytes still wanted are whole frames: the packet's
    bytes, zeroed if it is silent, go to the destination as far as they are
    wanted; the rest of the packet's own bytes, zeroed or not, goes to the
    overflow buffer when it fits. *)
Lemma capture_burst_copies st pk :
  locals_ok st ->
  overflow_buffer_ptr (l_self st) = 0 ->
  gb_hr pk = S_OK ->
  packet_ok (nBlockAlign (mix_format (l_self st))) pk ->
  l_wanted st mod nBlockAlign (mix_format (l_self st)) = 0 ->
  let b := Z.of_nat (length (gb_from pk)) in
  let m := Z.min b (l_wanted st) in
  overflow_buffer_length (l_self st) + (b - m) <= overflow_buffer_size (l_self st) ->
  let st' := capture_burst st pk in
  l_data_ptr st' = l_data_ptr st + m /\
  l_wanted st' = l_wanted st - m /\
  l_length st' = l_length st /\
  firstn (Z.to_nat (l_data_ptr st')) (l_data st') =
    firstn (Z.to_nat (l_data_ptr st)) (l_data st) ++ firstn (Z.to_nat m) (render pk) /\
  overflow_contents (l_self st') =
    overflow_contents (l_self st) ++ skipn (Z.to_nat (l_wanted st)) (gb_from pk) /\
  l_wanted st' mod nBlockAlign (mix_format (l_self st)) = 0.
Proof.
  intros Hok Hptr Hhr Hpk Hmod b m Hroom st'.
  destruct (capture_burst_ok st pk Hok Hptr Hhr Hpk) as (_ & _ & _ & Hspill).
  fold st' in Hspill.
  destruct (Hpk Hhr) as (Hhave & Hbytes & Hfrom).
  destruct Hok as (Hov & Hp & Hw & Hd).
  destruct Hov as (_ & Hlen & Hfit & Hsize & Hbuf & Hidle & Hbpf).
  set (bpf := nBlockAlign (mix_format (l_self st))) in *.
  set (want := l_wanted st / bpf).
  assert (Hwanted : l_wanted st = want * bpf).
  { unfold want. rewrite Z.mul_comm. apply Z.div_exact; [lia | exact Hmod]. }
  assert (Hwant : 0 <= want) by (apply Z.div_pos; lia).
  assert (Hm : Z.min (gb_have_frames pk) want * bpf = m).
  { unfold m, b. rewrite Hfrom, Hwanted. 
    destruct (Z.min_spec (gb_have_frames pk) want) as [[? ->]|[? ->]];
    destruct (Z.min_spec (gb_have_frames pk * bpf) (want * bpf)) as [[? ->]|[? ->]];
    nia. }
  assert (Hm0 : 0 <= m <= l_wanted st /\ m <= b) by (unfold m, b; lia).
  assert (Hlen' : l_data_ptr st' = l_data_ptr st + m /\
                  l_wanted st' = l_wanted st - m /\ l_length st' = l_length st).
  { unfold st', capture_burst. cbv zeta. simpl. fold bpf. fold want.
    rewrite Hm. rewrite !guint_small by (unfold G_MAXUINT in *; lia). auto. }
  destruct Hlen' as (L1 & L2 & L3).
  repeat split; auto.
  - rewrite L1. unfold st', capture_burst. cbv zeta. simpl l_data.
    fold bpf. fold want. rewrite Hm.
    rewrite (guint_small m) by (unfold G_MAXUINT in *; lia).
    fold (silent pk). unfold render. destruct (silent pk).
    + rewrite memset_written by lia. f_equal.
      symmetry. apply firstn_repeat_le. lia.
    + rewrite memcpy_written by lia. reflexivity.
  - rewrite Hspill. f_equal. unfold spilled. fold bpf. fold want.
    destruct (gb_have_frames pk >? want) eqn:Hgt.
    + apply Z.gtb_lt in Hgt.
      replace (_ >? overflow_buffer_size (l_self st)) with false.
      * now rewrite Hwanted.
      * symmetry. rewrite Z.gtb_ltb. apply Z.ltb_ge.
        rewrite Hptr. unfold m, b in Hroom. rewrite Hfrom, Hwanted in Hroom. nia.
    + rewrite Z.gtb_ltb in Hgt. apply Z.ltb_ge in Hgt.
      symmetry. apply skipn_all2. nia.
  - rewrite L2, <- Hm, Hwanted, <- Z.mul_sub_distr_r. apply Z_mod_mult.
Qed.

Lemma capture_burst_size st pk :
  overflow_buffer_size (l_self (capture_burst st pk))
  = overflow_buffer_size (l_self st).
Proof.
  unfold capture_burst; simpl.
  destruct (_ >? _); [destruct (_ >? _)|]; reflexivity.
Qed.

Lemma drain_size pkts : forall st e st',
  drain st pkts = (e, st') ->
  overflow_buffer_size (l_self st') = overflow_buffer_size (l_self st).
Proof.
  induction pkts as [|pk rest IH]; intros st e st' H; simpl in H.
  - now inversion H.
  - destruct (gb_hr pk); try (now inversion H).
    destruct (gb_release_failed pk).
    + inversion H; subst. apply capture_burst_size.
    + rewrite (IH _ _ _ H). apply capture_burst_size.
Qed.

(** All the packets of one wake. *)
Lemma drain_copies pkts : forall st,
  locals_ok st ->
  overflow_buffer_ptr (l_self st) = 0 ->
  Forall (packet_ok (nBlockAlign (mix_format (l_self st)))) pkts ->
  Forall packet_clean pkts ->
  l_wanted st mod nBlockAlign (mix_format (l_self st)) = 0 ->
  let raw := concat (map gb_from pkts) in
  let m := Z.min (Z.of_nat (length raw)) (l_wanted st) in
  overflow_buffer_length (l_self st) + (Z.of_nat (length raw) - m)
    <= overflow_buffer_size (l_self st) ->
  exists st',
    drain st pkts = (drain_break, st') /\
    locals_ok st' /\ overflow_buffer_ptr (l_self st') = 0 /\ extends st st' /\
    l_data_ptr st' = l_data_ptr st + m /\
    l_wanted st' = l_wanted st - m /\
    l_length st' = l_length st /\
    firstn (Z.to_nat (l_data_ptr st')) (l_data st') =
      firstn (Z.to_nat (l_data_ptr st)) (l_data st)
        ++ firstn (Z.to_nat m) (concat (map render pkts)) /\
    overflow_contents (l_self st') =
      overflow_contents (l_self st) ++ skipn (Z.to_nat (l_wanted st)) raw /\
    l_wanted st' mod nBlockAlign (mix_format (l_self st)) = 0.
Proof.
  induction pkts as [|pk rest IH]; intros st Hok Hptr Hpk Hclean Hmod raw m Hroom.
  - exists st. simpl. unfold m, raw. simpl.
    assert (Hw : 0 <= l_wanted st) by apply Hok.
    replace (Z.min 0 (l_wanted st)) with 0 by lia.
    rewrite skipn_nil, !app_nil_r, Z.add_0_r, Z.sub_0_r.
    split; [reflexivity|]. split; [exact Hok|]. split; [exact Hptr|].
    split; [apply extends_refl|]. repeat split; auto.
  - inversion Hpk as [|? ? Hpk1 Hpk2]; subst.
    inversion Hclean as [|? ? [Hhr Hrel] Hclean']; subst.
    simpl. rewrite Hhr, Hrel.
    set (b := Z.of_nat (length (gb_from pk))).
    set (raw' := concat (map gb_from rest)).
    assert (Hraw : Z.of_nat (length raw) = b + Z.of_nat (length raw'))
      by (unfold raw, raw', b; simpl; rewrite length_app; lia).
    destruct (capture_burst_ok st pk Hok Hptr Hhr Hpk1) as (Hok1 & Hptr1 & Hext1 & _).
    destruct (capture_burst_copies st pk Hok Hptr Hhr Hpk1 Hmod)
      as (D1 & D2 & D3 & D4 & D5 & D6).
    { fold b. unfold m in Hroom. lia. }
    fold b in D1, D2, D4.
    set (st1 := capture_burst st pk) in *.
    assert (Hb1 : nBlockAlign (mix_format (l_self st1))
                  = nBlockAlign (mix_format (l_self st))) by apply Hext1.
    pose proof (overflow_contents_length _ (proj1 Hok)) as HO.
    pose proof (overflow_contents_length _ (proj1 Hok1)) as HO1.
    rewrite D5, length_app, length_skipn in HO1.
    destruct (IH st1) as (st' & E & Hok' & Hptr' & Hext' & I1 & I2 & I3 & I4 & I5 & I6);
      auto; try (rewrite Hb1; assumption).
    { fold raw'. unfold m in Hroom.
      assert (Hlen1 : 0 <= overflow_buffer_length (l_self st1)) by apply Hok1.
      assert (Hsz : overflow_buffer_size (l_self st1)
                    = overflow_buffer_size (l_self st))
        by apply capture_burst_size.
      destruct Hok as (Hov & _ & Hw & _). destruct Hov as (_ & Hlen & _).
      unfold b in *. lia. }
    fold raw' in I1, I2, I4, I5.
    exists st'. rewrite Hb1 in I6.
    destruct Hok as (Hov & Hp & Hw & Hd).
    split; [exact E|]. split; [exact Hok'|]. split; [exact Hptr'|].
    split; [eauto using extends_trans|].
    split; [unfold m; lia|]. split; [unfold m; lia|]. split; [congruence|].
    split; [|split; [|exact I6]].
    + rewrite I4, D4, <- app_assoc. f_equal.
      cbn [map concat]. rewrite firstn_app, render_length. f_equal.
      * rewrite (firstn_min_length (render pk) (Z.to_nat (Z.min b (l_wanted st)))),
                (firstn_min_length (render pk) (Z.to_nat m)), render_length.
        f_equal. unfold m, b in *. lia.
      * f_equal. unfold m, b in *. lia.
    + rewrite I5, D5, <- app_assoc. f_equal.
      unfold raw. cbn [map concat]. rewrite skipn_app. f_equal.
      f_equal. unfold b in *. lia.
Qed.

Lemma rendered_length pkts :
  length (concat (map render pkts)) = length (concat (map gb_from pkts)).
Proof.
  induction pkts as [|pk pkts IH]; [reflexivity|].
  simpl. now rewrite !length_app, render_length, IH.
Qed.

(** One clean wake while bytes are wanted: the wait reports the data-ready
    event and the packets are drained. *)
Lemma capture_loop_clean_wake st w env :
  clean_wake w ->
  0 < l_wanted st ->
  exists ev sp,
    capture_loop st (w :: env) =
    match drain (set_self st (set_events (l_self st) ev sp)) (w_packets w) with
    | (drain_break, st') => capture_loop st' env
    | (drain_beach, st') => Some (beach st' env)
    | (drain_device_disappeared, st') =>
      Some (device_disappeared st' (w_post_failed w) env)
    end.
Proof.
  intros (Hready & Hwait & Hchg & _) Hw.
  cbn [capture_loop].
  replace (l_wanted st >? 0) with true
    by (symmetry; rewrite Z.gtb_ltb; now apply Z.ltb_lt).
  rewrite Hready, Hwait, Hchg, andb_false_r.
  unfold WaitForMultipleObjects. cbn [SetEvent signaled].
  change (WAIT_OBJECT_0 =? WAIT_OBJECT_0) with true. cbv iota.
  eauto.
Qed.

Lemma set_events_locals st ev sp :
  let st1 := set_self st (set_events (l_self st) ev sp) in
  (locals_ok st -> locals_ok st1) /\
  overflow_buffer_ptr (l_self st1) = overflow_buffer_ptr (l_self st) /\
  overflow_buffer_length (l_self st1) = overflow_buffer_length (l_self st) /\
  overflow_buffer_size (l_self st1) = overflow_buffer_size (l_self st) /\
  overflow_contents (l_self st1) = overflow_contents (l_self st) /\
  nBlockAlign (mix_format (l_self st1)) = nBlockAlign (mix_format (l_self st)) /\
  l_data st1 = l_data st /\ l_data_ptr st1 = l_data_ptr st /\
  l_wanted st1 = l_wanted st /\ l_length st1 = l_length st.
Proof.
  cbv zeta. unfold locals_ok, overflow_ok, overflow_contents. simpl.
  repeat split; auto; tauto.
Qed.

(** A run of clean wakes of which the last is the first to bring enough:
    the call ends there, with the bytes wanted in its destination and the
    bytes beyond them in the overflow buffer. *)
Lemma capture_loop_copies pre : forall st w env,
  locals_ok st ->
  overflow_buffer_ptr (l_self st) = 0 ->
  l_wanted st mod nBlockAlign (mix_format (l_self st)) = 0 ->
  Forall clean_wake (pre ++ [w]) ->
  Forall (wake_ok (nBlockAlign (mix_format (l_self st)))) (pre ++ [w]) ->
  Z.of_nat (length (raw_bytes pre)) < l_wanted st
    <= Z.of_nat (length (raw_bytes (pre ++ [w]))) ->
  overflow_buffer_length (l_self st)
    + (Z.of_nat (length (raw_bytes (pre ++ [w]))) - l_wanted st)
    <= overflow_buffer_size (l_self st) ->
  exists r,
    capture_loop st (pre ++ w :: env) = Some r /\
    r_exit r = exit_beach /\ r_return r = l_length st /\ r_posted r = [] /\
    r_env r = env /\
    r_data_ptr r = l_data_ptr st + l_wanted st /\
    firstn (Z.to_nat (r_data_ptr r)) (r_data r) =
      firstn (Z.to_nat (l_data_ptr st)) (l_data st)
        ++ firstn (Z.to_nat (l_wanted st)) (rendered_bytes (pre ++ [w])) /\
    overflow_contents (r_self r) =
      overflow_contents (l_self st)
        ++ skipn (Z.to_nat (l_wanted st)) (raw_bytes (pre ++ [w])).
Proof.
  induction pre as [|w0 pre IH]; intros st w env Hok Hptr Hmod Hclean Hwok Htot Hroom.
  - (* the wake that brings enough *)
    simpl app in *. unfold raw_bytes, rendered_bytes, packets_of in *.
    cbn [map concat] in *. rewrite app_nil_r in *. cbn [length] in Htot.
    inversion Hclean as [|? ? Hc _]; subst.
    inversion Hwok as [|? ? Hwk _]; subst.
    destruct (capture_loop_clean_wake st w env Hc) as (ev & sp & ->); [lia|].
    destruct (set_events_locals st ev sp)
      as (S1 & S2 & S3 & S4 & S5 & S6 & S7 & S8 & S9 & S10).
    set (st1 := set_self st (set_events (l_self st) ev sp)) in *.
    destruct (drain_copies (w_packets w) st1) as
      (st' & E & Hok' & Hptr' & Hext' & I1 & I2 & I3 & I4 & I5 & I6);
      try (rewrite ?S2, ?S3, ?S4, ?S6, ?S9; auto; fail).
    { apply Hc. }
    { rewrite S3, S4, S9. lia. }
    rewrite E.
    rewrite S9 in I1, I2, I4, I5.
    replace (Z.min _ (l_wanted st)) with (l_wanted st) in * by lia.
    rewrite capture_loop_idle by lia.
    exists (beach st' env). cbn [beach r_exit r_return r_posted r_env r_data_ptr
                                r_data r_self].
    rewrite I1, S8, I3, S10. repeat split.
    + rewrite <- S8, <- I1, I4, S8, S7. reflexivity.
    + now rewrite I5, S5.
  - (* a wake that does not bring enough *)
    simpl app in *.
    inversion Hclean as [|? ? Hc Hclean']; subst.
    inversion Hwok as [|? ? Hwk Hwok']; subst.
    assert (Hsplit : forall ws, raw_bytes (w0 :: ws)
                       = concat (map gb_from (w_packets w0)) ++ raw_bytes ws).
    { intros ws. unfold raw_bytes, packets_of. cbn [map concat].
      now rewrite map_app, concat_app. }
    assert (Hsplit' : forall ws, rendered_bytes (w0 :: ws)
                       = concat (map render (w_packets w0)) ++ rendered_bytes ws).
    { intros ws. unfold rendered_bytes, packets_of. cbn [map concat].
      now rewrite map_app, concat_app. }
    rewrite !Hsplit, !length_app in Htot.
    rewrite Hsplit, length_app in Hroom. rewrite Hsplit, Hsplit'.
    set (raw0 := concat (map gb_from (w_packets w0))) in *.
    destruct (capture_loop_clean_wake st w0 (pre ++ w :: env) Hc) as (ev & sp & ->);
      [lia|].
    destruct (set_events_locals st ev sp)
      as (S1 & S2 & S3 & S4 & S5 & S6 & S7 & S8 & S9 & S10).
    set (st1 := set_self st (set_events (l_self st) ev sp)) in *.
    assert (Hlen0 : 0 <= overflow_buffer_length (l_self st)) by apply Hok.
    assert (Hfit0 : overflow_buffer_length (l_self st)
                    <= overflow_buffer_size (l_self st)).
    { destruct Hok as ((H1 & H2 & H3 & _) & _). lia. }
    destruct (drain_copies (w_packets w0) st1) as
      (st' & E & Hok' & Hptr' & Hext' & I1 & I2 & I3 & I4 & I5 & I6);
      try (rewrite ?S2, ?S3, ?S4, ?S6, ?S9; auto; fail).
    { apply Hc. }
    { fold raw0. rewrite S3, S4, S9. lia. }
    rewrite E. fold raw0 in I1, I2, I4, I5.
    rewrite S9 in I1, I2, I4, I5.
    replace (Z.min _ (l_wanted st)) with (Z.of_nat (length raw0)) in * by lia.
    assert (Hb' : nBlockAlign (mix_format (l_self st'))
                  = nBlockAlign (mix_format (l_self st)))
      by (destruct Hext' as (_ & _ & _ & -> & _); exact S6).
    rewrite skipn_all2, app_nil_r in I5 by lia.
    pose proof (overflow_contents_length _ (proj1 Hok)) as HO.
    pose proof (overflow_contents_length _ (proj1 Hok')) as HO'.
    rewrite I5, S5, HO in HO'.
    assert (Hlen' : overflow_buffer_length (l_self st')
                    = overflow_buffer_length (l_self st)).
    { assert (0 <= overflow_buffer_length (l_self st')) by apply Hok'. lia. }
    assert (Hsize' : overflow_buffer_size (l_self st')
                     = overflow_buffer_size (l_self st)).
    { rewrite (drain_size _ _ _ _ E). exact S4. }
    destruct (IH st' w env) as (r & R1 & R2 & R3 & R4 & R5 & R6 & R7 & R8); auto.
    { now rewrite S6 in I6; rewrite Hb'. }
    { now rewrite Hb'. }
    { rewrite I2. lia. }
    { rewrite Hlen', Hsize', I2. lia. }
    exists r. rewrite R1, R3, I3, S10, R6, I1, I2, S8.
    repeat split; auto; try lia.
    + rewrite R6, I1, I2, S8 in R7. rewrite I1, S8 in I4.
      rewrite R7, I4, S7, <- app_assoc. f_equal.
      rewrite firstn_app, rendered_length. fold raw0.
      rewrite (firstn_all2 (n := Z.to_nat (l_wanted st)))
        by (rewrite rendered_length; fold raw0; lia).
      rewrite firstn_all2 by (rewrite rendered_length; fold raw0; lia).
      do 2 f_equal. lia.
    + rewrite R8, I5, S5, I2, skipn_app.
      rewrite (skipn_all2 (n := Z.to_nat (l_wanted st)) raw0) by lia.
      simpl. do 2 f_equal. lia.
Qed.

Lemma restore_overflow_size st :
  overflow_buffer_size (l_self (restore_overflow st))
  = overflow_buffer_size (l_self st).
Proof.
  unfold restore_overflow.
  destruct (_ >? _); [|reflexivity]. simpl. destruct (_ =? _); reflexivity.
Qed.

(** What a read call makes of the bursts, when nothing is queued, the
    request is a whole number of frames, the wakes are clean, the last of
    them is the first to bring enough, and what is left over fits the
    overflow buffer: the call returns the requested length, its output is
    the head of the bursts with the silent ones zeroed, and the overflow
    buffer takes the rest of the bursts' own bytes, silent or not. *)
Lemma read_copies_bursts self data len start_failed pre w env :
  overflow_ok self ->
  overflow_buffer_length self = 0 ->
  client_needs_restart self && start_failed = false ->
  0 < len <= G_MAXUINT ->
  len <= Z.of_nat (length data) ->
  len mod nBlockAlign (mix_format self) = 0 ->
  Forall clean_wake (pre ++ [w]) ->
  Forall (wake_ok (nBlockAlign (mix_format self))) (pre ++ [w]) ->
  Z.of_nat (length (raw_bytes pre)) < len
    <= Z.of_nat (length (raw_bytes (pre ++ [w]))) ->
  Z.of_nat (length (raw_bytes (pre ++ [w]))) - len <= overflow_buffer_size self ->
  exists r,
    gst_wasapi_src_read self data len start_failed (pre ++ w :: env) = Some r /\
    r_return r = len /\ r_exit r = exit_beach /\ r_posted r = [] /\
    r_env r = env /\
    returned r = firstn (Z.to_nat len) (rendered_bytes (pre ++ [w])) /\
    overflow_contents (r_self r) = skipn (Z.to_nat len) (raw_bytes (pre ++ [w])).
Proof.
  intros Hok Hempty Hstart Hlen Hdata Hmod Hclean Hwok Htot Hroom.
  unfold gst_wasapi_src_read. rewrite Hstart.
  set (self1 := if client_needs_restart self
                then set_client_needs_restart self false else self).
  assert (Hok1 : overflow_ok self1)
    by (unfold self1; destruct (client_needs_restart self); exact Hok).
  assert (H1 : overflow_contents self1 = overflow_contents self /\
               overflow_buffer_length self1 = overflow_buffer_length self /\
               overflow_buffer_size self1 = overflow_buffer_size self /\
               nBlockAlign (mix_format self1) = nBlockAlign (mix_format self))
    by (unfold self1; destruct (client_needs_restart self); auto).
  destruct H1 as (HO & HL & HS & HB).
  replace (if client_needs_restart self then _ else _)
    with {| l_self := self1; l_data := data; l_data_ptr := 0;
            l_wanted := len; l_length := len |}
    by (unfold self1; destruct (client_needs_restart self); reflexivity).
  destruct (restore_overflow_ok self1 data len Hok1) as
    (Hst & Hptr & Hdp & Hw & Hl & Hdl & _ & Hrest & Hbpf); [lia|lia|].
  pose proof (restore_overflow_size
                {| l_self := self1; l_data := data; l_data_ptr := 0;
                   l_wanted := len; l_length := len |}) as Hsz.
  simpl l_self in Hsz at 2.
  set (st := restore_overflow _) in *.
  rewrite HL, Hempty in Hdp, Hw, Hrest.
  replace (Z.min 0 len) with 0 in * by lia.
  assert (Hnil : overflow_contents (l_self st) = []).
  { rewrite Hrest, HO. unfold overflow_contents. now rewrite Hempty. }
  pose proof (overflow_contents_length _ (proj1 Hst)) as HOl.
  rewrite Hnil in HOl. simpl in HOl.
  assert (Hl0 : overflow_buffer_length (l_self st) = 0).
  { assert (0 <= overflow_buffer_length (l_self st)) by apply Hst. lia. }
  destruct (capture_loop_copies pre st w env) as
    (r & R1 & R2 & R3 & R4 & R5 & R6 & R7 & R8); auto.
  - apply Hptr. lia.
  - rewrite Hbpf, HB. replace (l_wanted st) with len by lia. exact Hmod.
  - now rewrite Hbpf, HB.
  - lia.
  - rewrite Hl0, Hsz, HS. lia.
  - exists r. rewrite R1. unfold returned. rewrite R3, Hl.
    rewrite Hdp, Hw in R6, R7. rewrite Hw in R8.
    replace (0 + (len - 0)) with len in * by lia.
    replace (len - 0) with len in * by lia.
    rewrite R6 in R7. simpl in R7.
    repeat split; auto. now rewrite R8, Hnil.
Qed.

Ltac closed_facts :=
  vm_compute; repeat split; intros; try reflexivity; try discriminate.

(** C1 (amended).  After any read call, what sits in the overflow buffer
    comes out of the following read calls first: the bytes those calls
    place in their destinations, one call after the other, and the bytes of
    the overflow buffer agree byte for byte, in order, for as long as both
    go, whether one call takes them all or several calls take them
    piecewise; calls that return the length they were asked for report them
    to their callers in the same way (a call that returns 0 after an error
    reports nothing of what it took); and while the calls have not yet
    taken all of them, the remainder is still queued and nothing has been
    fetched from the device.  What the call spills is the device's bytes
    beyond the request: when it starts with an empty queue and meets clean
    bursts that reach the requested length and whose remainder fits the
    overflow buffer, it returns the head of the bursts and queues the rest
    of the bursts' own bytes, in order. *)
Theorem overflow_round_trip self env c calls self' env' r rs :
  overflow_ok self ->
  call_ok c ->
  Forall call_ok calls ->
  Forall (wake_ok (nBlockAlign (mix_format self))) env ->
  run_reads self env (c :: calls) = Some (self', env', r :: rs) ->
  let O := overflow_contents (r_self r) in
  agree (concat (map placed rs)) O /\
  (Forall2 (fun c r => r_return r = c_length c) calls rs ->
   agree (concat (map returned rs)) O) /\
  ((length (concat (map placed rs)) < length O)%nat ->
   overflow_contents self' = skipn (length (concat (map placed rs))) O /\
   env' = r_env r) /\
  (forall pre w rest,
     env = pre ++ w :: rest ->
     overflow_buffer_length self = 0 ->
     client_needs_restart self && c_start_failed c = false ->
     0 < c_length c ->
     c_length c mod nBlockAlign (mix_format self) = 0 ->
     Forall clean_wake (pre ++ [w]) ->
     Z.of_nat (length (raw_bytes pre)) < c_length c
       <= Z.of_nat (length (raw_bytes (pre ++ [w]))) ->
     Z.of_nat (length (raw_bytes (pre ++ [w]))) - c_length c
       <= overflow_buffer_size self ->
     r_return r = c_length c /\
     returned r = firstn (Z.to_nat (c_length c)) (rendered_bytes (pre ++ [w])) /\
     O = skipn (Z.to_nat (c_length c)) (raw_bytes (pre ++ [w]))).
Proof.
  intros Hok [Hc1 Hc2] Hcs Henv H O.
  apply run_reads_cons in H. destruct H as (r0 & rs0 & Hr & Hrest & E).
  inversion E; subst r0 rs0. clear E.
  destruct (read_delivers _ _ _ _ _ _ Hok Hc1 Hc2 Henv Hr)
    as (Hok' & Hb & [pre Hpre] & _).
  assert (Henv' : Forall (wake_ok (nBlockAlign (mix_format (r_self r)))) (r_env r)).
  { rewrite Hb. rewrite Hpre in Henv. now apply Forall_app in Henv. }
  assert (Hplaced :
    agree (concat (map placed rs)) O /\
    ((length (concat (map placed rs)) < length O)%nat ->
     overflow_contents self' = skipn (length (concat (map placed rs))) O /\
     env' = r_env r)).
  { apply (queue_first placed (fun _ _ => True)) with (calls := calls); auto.
    - intros s e c' r' Hs [Hl1 Hl2] He Hr' _.
      now apply (read_delivers _ _ _ _ _ _ Hs Hl1 Hl2 He Hr').
    - pose proof (run_reads_length _ _ _ _ _ _ Hrest) as Hlen.
      clear - Hlen. revert rs Hlen.
      induction calls; intros [|? ?] Hlen; simpl in Hlen; try discriminate;
        constructor; auto. }
  destruct Hplaced as [P1 P2].
  split; [exact P1|]. split; [|split; [exact P2|]].
  - intros Hret.
    apply (queue_first returned (fun c r => r_return r = c_length c))
      with (calls := calls) (env := r_env r) (self' := self') (env' := env'); auto.
    intros s e c' r' Hs [Hl1 Hl2] He Hr' Hg.
    now apply (read_delivers _ _ _ _ _ _ Hs Hl1 Hl2 He Hr').
  - clear pre Hpre.
    intros pre w rest Eenv Hempty Hstart Hpos Hframes Hclean Hreach Hfits.
    assert (Hwok : Forall (wake_ok (nBlockAlign (mix_format self))) (pre ++ [w])).
    { rewrite Eenv in Henv. apply Forall_app in Henv. destruct Henv as [Hp Hw].
      apply Forall_app. split; [exact Hp|].
      constructor; [now apply Forall_inv in Hw | constructor]. }
    destruct (read_copies_bursts self (c_data c) (c_length c) (c_start_failed c)
                pre w rest Hok Hempty Hstart ltac:(lia) Hc2 Hframes Hclean Hwok
                Hreach Hfits) as (r' & R1 & R2 & _ & _ & _ & R6 & R7).
    rewrite Eenv in Hr. rewrite Hr in R1. inversion R1; subst r'.
    split; [exact R2|]. split; [exact R6 | exact R7].
Qed.



(** C1, witness.  A burst of 16 bytes meets a request for 8: 8 bytes are
    spilled.  The next calls ask for 4 and for 8 bytes, so the second one
    finds the read pointer at 4, and a second burst arrives meanwhile. *)
Lemma overflow_round_trip_witness :
  exists self' env' r rs,
    run_reads ex_self [ex_wake [ex_packet]; ex_wake [ex_packet]]
      [ex_call 8; ex_call 4; ex_call 8] = Some (self', env', r :: rs) /\
    overflow_contents (r_self r) = [x09; x0a; x0b; x0c; x0d; x0e; x0f; x10] /\
    agree (concat (map placed rs)) (overflow_contents (r_self r)) /\
    agree (concat (map returned rs)) (overflow_contents (r_self r)) /\
    r_return r = c_length (ex_call 8) /\
    returned r = firstn (Z.to_nat (c_length (ex_call 8)))
                   (rendered_bytes ([] ++ [ex_wake [ex_packet]])) /\
    overflow_contents (r_self r)
    = skipn (Z.to_nat (c_length (ex_call 8))) (raw_bytes ([] ++ [ex_wake [ex_packet]])).
Proof.
  do 4 eexists. split; [lazy; reflexivity|]. split; [reflexivity|].
  match goal with |- agree (concat (map placed ?rs)) (overflow_contents (r_self ?r)) /\ _ =>
    pose proof (overflow_round_trip ex_self
                  [ex_wake [ex_packet]; ex_wake [ex_packet]]
                  (ex_call 8) [ex_call 4; ex_call 8]
                  (r_self (last rs r)) [] r rs) as W
  end.
  cbv zeta in W.
  destruct W as (W1 & W2 & _ & W4).
  - closed_facts.
  - closed_facts.
  - repeat constructor; closed_facts.
  - repeat constructor; closed_facts.
  - vm_compute. reflexivity.
  - split; [exact W1|]. split; [apply W2; repeat constructor|].
    apply (W4 [] (ex_wake [ex_packet]) [ex_wake [ex_packet]]).
    + reflexivity.
    + reflexivity.
    + reflexivity.
    + closed_facts.
    + reflexivity.
    + repeat constructor.
    + closed_facts.
    + closed_facts.
Defined.

(** C1, counterexample.  Not every sequence of read calls returns what
    was spilled.  A burst of 16 bytes meets a request for 8, and the bytes
    9 to 16 are queued.  The next call asks for 12: it takes the 8 queued
    bytes, waits for 4 more, and the wait fails.  It returns 0, and the
    queue is empty.  The third call returns the first 8 bytes of a fresh
    burst: the bytes 9 to 16 never reach a caller. *)
Lemma queued_bytes_lost_on_failed_wait :
  exists self' env' r1 r2 r3,
    run_reads ex_self [ex_wake [ex_packet]; ex_failed_wait; ex_wake [ex_packet]]
      [ex_call 8; ex_call 12; ex_call 8] = Some (self', env', [r1; r2; r3]) /\
    overflow_contents (r_self r1) = [x09; x0a; x0b; x0c; x0d; x0e; x0f; x10] /\
    r_return r2 = 0 /\ returned r2 = [] /\ overflow_contents (r_self r2) = [] /\
    r_return r3 = 8 /\
    returned r3 = [x01; x02; x03; x04; x05; x06; x07; x08] /\
    ~ agree (concat (map returned [r2; r3])) (overflow_contents (r_self r1)).
Proof.
  do 5 eexists. split; [lazy; reflexivity|].
  do 6 (split; [reflexivity|]).
  intros H. vm_compute in H. discriminate H.
Qed.

(** C2, the failing input.  A silence-flagged packet of 4 frames meets a
    request for 2 frames.  The 2 frames that go to the destination are
    zero-filled, as the flag asks; the 2 frames that are spilled are copied
    from the driver's buffer as they are, and the next call returns those
    bytes, not zeros. *)
Theorem silent_spill_keeps_device_bytes :
  exists self' env' r1 r2,
    run_reads ex_self [ex_wake [ex_silent_packet]] [ex_call 8; ex_call 8]
      = Some (self', env', [r1; r2]) /\
    r_return r1 = 8 /\ returned r1 = repeat x00 8 /\
    overflow_contents (r_self r1) = [x09; x0a; x0b; x0c; x0d; x0e; x0f; x10] /\
    r_return r2 = 8 /\
    returned r2 = [x09; x0a; x0b; x0c; x0d; x0e; x0f; x10].
Proof.
  do 4 eexists. split; [lazy; reflexivity|]. repeat split.
Qed.

(** ** Device loss is reported once *)

Lemma capture_burst_eos st pk :
  eos_sent (l_self (capture_burst st pk)) = eos_sent (l_self st) /\
  l_length (capture_burst st pk) = l_length st.
Proof.
  unfold capture_burst; simpl.
  destruct (_ >? _); [destruct (_ >? _)|]; simpl; auto.
Qed.

Lemma drain_eos pkts : forall st e st',
  drain st pkts = (e, st') ->
  eos_sent (l_self st') = eos_sent (l_self st) /\
  (e = drain_beach \/ l_length st' = l_length st).
Proof.
  induction pkts as [|pk rest IH]; intros st e st' H; simpl in H.
  - inversion H; subst; auto.
  - destruct (capture_burst_eos st pk) as [E1 E2].
    destruct (gb_hr pk); try (inversion H; subst; now auto).
    destruct (gb_release_failed pk).
    + inversion H; subst. auto.
    + apply IH in H. destruct H as [H1 H2].
      rewrite H1, E1. split; [reflexivity|].
      destruct H2 as [H2|H2]; [now left | right; congruence].
Qed.

Lemma beach_loss_report st st' env :
  eos_sent (l_self st') = eos_sent (l_self st) ->
  loss_report st (beach st' env).
Proof.
  intros E. unfold loss_report, lost; simpl. rewrite E, orb_false_r.
  repeat split; auto; discriminate.
Qed.

Lemma device_disappeared_loss_report st st' post_failed env :
  eos_sent (l_self st') = eos_sent (l_self st) ->
  l_length st' = l_length st ->
  loss_report st (device_disappeared st' post_failed env).
Proof.
  intros E L. unfold loss_report, lost; simpl. rewrite E, L, orb_true_r.
  destruct (eos_sent (l_self st)), post_failed; simpl; auto.
Qed.

Lemma loss_report_step st st' r :
  eos_sent (l_self st') = eos_sent (l_self st) ->
  l_length st' = l_length st ->
  loss_report st' r -> loss_report st r.
Proof. unfold loss_report. intros -> ->. auto. Qed.

Lemma capture_loop_loss_report env : forall st r,
  capture_loop st env = Some r -> loss_report st r.
Proof.
  induction env as [|w env IH]; intros st r H; simpl in H.
  - destruct (l_wanted st >? 0); [discriminate|].
    inversion H; subst. now apply beach_loss_report.
  - destruct (l_wanted st >? 0);
      [|inversion H; subst; now apply beach_loss_report].
    destruct (if w_wait_failed w then _ else _) as [[[res ev'] sp']|].
    + destruct (_ && _).
      { inversion H; subst. now apply device_disappeared_loss_report. }
      destruct (res =? _).
      { destruct (drain _ (w_packets w)) as [e st'] eqn:Hd.
        apply drain_eos in Hd. simpl in Hd. destruct Hd as [E L].
        destruct e.
        - destruct L as [L|L]; [discriminate|].
          apply IH in H. revert H. now apply loss_report_step.
        - inversion H; subst. now apply beach_loss_report.
        - destruct L as [L|L]; [discriminate|].
          inversion H; subst. now apply device_disappeared_loss_report. }
      destruct (res =? _);
        inversion H; subst; now apply beach_loss_report.
    + apply IH in H. revert H. apply loss_report_step; reflexivity.
Qed.

Lemma restore_overflow_eos st :
  eos_sent (l_self (restore_overflow st)) = eos_sent (l_self st) /\
  l_length (restore_overflow st) = l_length st.
Proof.
  unfold restore_overflow.
  destruct (_ >? _); [|auto]. simpl. destruct (_ =? _); auto.
Qed.

Lemma read_loss_report self data len start_failed env r :
  gst_wasapi_src_read self data len start_failed env = Some r ->
  eos_sent (r_self r) = eos_sent self || lost r /\
  r_post_attempts r
  = (if lost r && negb (eos_sent self) then [wasapi_restart] else []) /\
  (r_posted r = r_post_attempts r \/ r_posted r = []) /\
  (lost r = true -> r_return r = len).
Proof.
  unfold gst_wasapi_src_read. intros H.
  destruct (client_needs_restart self && start_failed).
  - inversion H; subst. unfold lost; simpl.
    rewrite orb_false_r. repeat split; auto; discriminate.
  - apply capture_loop_loss_report in H.
    match type of H with loss_report (restore_overflow ?s) _ =>
      destruct (restore_overflow_eos s) as [E L] end.
    unfold loss_report in H. rewrite E, L in H.
    destruct (client_needs_restart self); exact H.
Qed.

(** The messages of a session: the notification is handed to the bus once,
    by the first call that meets device loss, provided [eos_sent] was down
    when the session began; what the bus accepted is that message or
    nothing. *)
Lemma run_reads_posted calls : forall self env self' env' rs,
  run_reads self env calls = Some (self', env', rs) ->
  concat (map r_post_attempts rs) =
    (if existsb lost rs && negb (eos_sent self) then [wasapi_restart] else []) /\
  (concat (map r_posted rs) = concat (map r_post_attempts rs) \/
   concat (map r_posted rs) = []) /\
  eos_sent self' = eos_sent self || existsb lost rs /\
  Forall2 (fun c r => lost r = true -> r_return r = c_length c) calls rs.
Proof.
  induction calls as [|c calls IH]; intros self env self' env' rs H.
  - simpl in H. inversion H; subst. simpl. rewrite orb_false_r. auto.
  - apply run_reads_cons in H. destruct H as (r & rs' & Hr & Hrest & ->).
    apply read_loss_report in Hr. destruct Hr as (E & P & Q & L).
    apply IH in Hrest. destruct Hrest as (P' & Q' & E' & F).
    simpl. rewrite P', E', E.
    split; [|split; [|split; [|constructor; assumption]]].
    + rewrite P. destruct (lost r), (eos_sent self), (existsb lost rs'); reflexivity.
    + rewrite P' in Q'. rewrite P in *. rewrite E in Q'.
      destruct (lost r), (eos_sent self), (existsb lost rs'); simpl in *;
        destruct Q as [-> | ->], Q' as [-> | ->]; simpl; auto.
    + now rewrite orb_assoc.
Qed.

(** ** The buffer producer *)

Lemma create_succeeds self offset length env rd rest :
  let src := parent self in
  let sample := if negb (offset =? G_MAXUINT64)
                then offset / guint64 (spec_bpf (ringbuffer src))
                else gst_audio_base_src_get_offset src in
  let samples := create_length src length / guint (spec_bpf (ringbuffer src)) in
  acquired (ringbuffer src) = true ->
  (offset <> G_MAXUINT64 -> next_sample src <> G_MAXUINT64 ->
   offset / guint64 (spec_bpf (ringbuffer src)) = next_sample src) ->
  is_flow_ok (e_alloc env) = true ->
  e_reads env = rd :: rest ->
  rd_read rd = samples ->
  gst_audio_base_src_create self offset length env =
  Some (create_finish self env (next_sample src =? G_MAXUINT64) samples sample samples
          (if GST_CLOCK_TIME_IS_VALID (rd_timestamp rd)
           then rd_timestamp rd else GST_CLOCK_TIME_NONE)
          [(sample, samples)]).
Proof.
  intros src sample samples Hacq Hseq Halloc Hreads Hread.
  unfold gst_audio_base_src_create. fold src. rewrite Hacq, Halloc, Hreads.
  simpl negb. cbv iota.
  replace (negb (offset =? G_MAXUINT64) && negb (next_sample src =? G_MAXUINT64)
           && negb (offset / guint64 (spec_bpf (ringbuffer src)) =? next_sample src))
    with false.
  - fold sample. fold samples. simpl read_loop.
    rewrite Hread, Z.eqb_refl. reflexivity.
  - symmetry.
    destruct (Z.eqb_spec offset G_MAXUINT64) as [|Ho]; [reflexivity|].
    destruct (Z.eqb_spec (next_sample src) G_MAXUINT64) as [|Hn];
      [reflexivity|].
    simpl. rewrite (Hseq Ho Hn), Z.eqb_refl. reflexivity.
Qed.

Lemma read_loop_first_request reads : forall sample samples first ts e requests,
  read_loop reads sample samples first ts = Some (e, requests) ->
  exists rest, requests = (sample, samples) :: rest.
Proof.
  destruct reads as [|rd reads]; intros sample samples first ts e requests H;
    simpl in H; [discriminate|].
  destruct (_ =? _); [inversion H; eauto|].
  destruct (rd_state_error rd); [inversion H; eauto|].
  destruct (negb _); [inversion H; eauto|].
  destruct (read_loop _ _ _ _ _) as [[e' rq]|]; [|discriminate].
  inversion H; eauto.
Qed.

Lemma read_loop_no_timestamp reads : forall sample samples first e requests,
  Forall (fun rd => rd_timestamp rd = GST_CLOCK_TIME_NONE) reads ->
  read_loop reads sample samples first GST_CLOCK_TIME_NONE = Some (e, requests) ->
  forall s n ts, e = loop_done s n ts -> ts = GST_CLOCK_TIME_NONE.
Proof.
  induction reads as [|rd reads IH];
    intros sample samples first e requests Hts H s n ts He; simpl in H;
    [discriminate|].
  inversion Hts as [|? ? Hrd Hts']; subst.
  rewrite Hrd in H.
  change (GST_CLOCK_TIME_IS_VALID GST_CLOCK_TIME_NONE) with false in H.
  rewrite andb_false_r in H.
  destruct (_ =? _); [inversion H; congruence|].
  destruct (rd_state_error rd); [inversion H; congruence|].
  destruct (negb _); [inversion H; congruence|].
  destruct (read_loop _ _ _ _ _) as [[e' rq]|] eqn:Hl; [|discriminate].
  inversion H; subst. eapply IH; eauto.
Qed.

(** A pull that returns normally went through [create_finish]. *)
Lemma create_done_inv self offset length env r :
  gst_audio_base_src_create self offset length env = Some r ->
  cr_exit r = done ->
  exists total sample samples rb_timestamp requests s0 n0,
    read_loop (e_reads env) s0 n0 true GST_CLOCK_TIME_NONE
      = Some (loop_done sample samples rb_timestamp, requests) /\
    r = create_finish self env (next_sample (parent self) =? G_MAXUINT64)
          total sample samples rb_timestamp requests.
Proof.
  unfold gst_audio_base_src_create. intros H Hd.
  destruct (negb (acquired _)); [inversion H; subst; discriminate|].
  destruct (_ && _); [inversion H; subst; discriminate|].
  destruct (negb (is_flow_ok _)); [inversion H; subst; discriminate|].
  destruct (read_loop _ _ _ _ _) as [[[s n ts| |] rq]|] eqn:Hl;
    try (inversion H; subst; discriminate).
  inversion H; subst. eauto 10.
Qed.

Lemma create_finish_buffer self env first total sample samples ts requests :
  let r := create_finish self env first total sample samples ts requests in
  cr_flow r = GST_FLOW_OK /\ cr_exit r = done /\ cr_requests r = requests /\
  exists b, cr_outbuf r = Some b /\ buf_offset b = sample /\
    buf_discont b = negb (sample =? next_sample (parent self))
                    && negb (next_sample (parent self) =? G_MAXUINT64).
Proof.
  unfold create_finish.
  destruct (match e_clock env with None => _ | Some _ => _ end) as [self' t].
  simpl. repeat split; eauto.
Qed.

Lemma create_not_wrong_offset self offset length env r :
  (offset <> G_MAXUINT64 -> next_sample (parent self) <> G_MAXUINT64 ->
   offset / guint64 (spec_bpf (ringbuffer (parent self))) = next_sample (parent self)) ->
  gst_audio_base_src_create self offset length env = Some r ->
  cr_exit r <> wrong_offset /\
  (acquired (ringbuffer (parent self)) = true -> is_flow_ok (e_alloc env) = true ->
   exists n rest,
     cr_requests r =
       ((if negb (offset =? G_MAXUINT64)
         then offset / guint64 (spec_bpf (ringbuffer (parent self)))
         else gst_audio_base_src_get_offset (parent self)), n) :: rest).
Proof.
  intros Hseq. unfold gst_audio_base_src_create.
  destruct (acquired _); simpl negb; cbv iota;
    [|intros H; inversion H; subst; split; [discriminate|discriminate]].
  replace (negb (offset =? G_MAXUINT64) && _ && _) with false.
  - destruct (is_flow_ok _); simpl negb; cbv iota;
      [|intros H; inversion H; subst; split; [discriminate|discriminate]].
    destruct (read_loop _ _ _ _ _) as [[e rq]|] eqn:Hl; [|discriminate].
    destruct (read_loop_first_request _ _ _ _ _ _ _ Hl) as [rest ->].
    destruct e; intros H; inversion H; subst; (split; [|intros _ _]).
    + now destruct (create_finish_buffer self env
                      (next_sample (parent self) =? G_MAXUINT64)
                      (create_length (parent self) length
                         / guint (spec_bpf (ringbuffer (parent self))))
                      sample samples rb_timestamp
                      ((if negb (offset =? G_MAXUINT64)
                        then offset / guint64 (spec_bpf (ringbuffer (parent self)))
                        else gst_audio_base_src_get_offset (parent self),
                        create_length (parent self) length
                          / guint (spec_bpf (ringbuffer (parent self)))) :: rest))
        as (_ & -> & _).
    + destruct (create_finish_buffer self env
                  (next_sample (parent self) =? G_MAXUINT64)
                  (create_length (parent self) length
                     / guint (spec_bpf (ringbuffer (parent self))))
                  sample samples rb_timestamp
                  ((if negb (offset =? G_MAXUINT64)
                    then offset / guint64 (spec_bpf (ringbuffer (parent self)))
                    else gst_audio_base_src_get_offset (parent self),
                    create_length (parent self) length
                      / guint (spec_bpf (ringbuffer (parent self)))) :: rest))
        as (_ & _ & -> & _). eauto.
    + discriminate.
    + simpl. eauto.
    + discriminate.
    + simpl. eauto.
  - symmetry.
    destruct (Z.eqb_spec offset G_MAXUINT64) as [|Ho]; [reflexivity|].
    destruct (Z.eqb_spec (next_sample (parent self)) G_MAXUINT64) as [|Hn];
      [reflexivity|].
    simpl. rewrite (Hseq Ho Hn), Z.eqb_refl. reflexivity.
Qed.

(** C8.  On an acquired ring buffer, a pull that names an offset while a
    previous read has set the expected next sample fails with the
    sequential-access error, delivers no buffer and leaves the element as
    it was when the sample of the offset is not the expected one; when it is
    the expected one the pull never takes that exit, and it succeeds with a
    buffer at that sample once the allocation succeeds and the ring buffer
    supplies the samples. *)
Theorem explicit_offset_must_be_sequential self offset length env :
  let src := parent self in
  let bpf := spec_bpf (ringbuffer src) in
  acquired (ringbuffer src) = true ->
  0 < bpf <= G_MAXINT ->
  0 <= offset < G_MAXUINT64 ->
  next_sample src <> G_MAXUINT64 ->
  (offset / bpf <> next_sample src ->
   gst_audio_base_src_create self offset length env =
   Some {| cr_self := self; cr_flow := GST_FLOW_ERROR; cr_exit := wrong_offset;
           cr_outbuf := None; cr_requests := [];
           cr_posted := [error_resource_seek offset] |}) /\
  (offset / bpf = next_sample src ->
   (forall r, gst_audio_base_src_create self offset length env = Some r ->
              cr_exit r <> wrong_offset) /\
   (is_flow_ok (e_alloc env) = true ->
    forall rd rest,
      e_reads env = rd :: rest ->
      rd_read rd = create_length src length / bpf ->
      exists r b,
        gst_audio_base_src_create self offset length env = Some r /\
        cr_flow r = GST_FLOW_OK /\ cr_exit r = done /\
        cr_outbuf r = Some b /\ buf_offset b = next_sample src /\
        buf_discont b = false)).
Proof.
  intros src bpf Hacq Hbpf Hoff Hnext.
  assert (Hb64 : guint64 bpf = bpf)
    by (apply guint64_small; unfold G_MAXINT, G_MAXUINT64 in *; lia).
  assert (Hb32 : guint bpf = bpf)
    by (apply guint_small; unfold G_MAXINT, G_MAXUINT in *; lia).
  assert (Hexp : (offset =? G_MAXUINT64) = false) by (apply Z.eqb_neq; lia).
  split; intros Hs.
  - unfold gst_audio_base_src_create. fold src. rewrite Hacq. fold bpf.
    rewrite Hb64, Hexp.
    replace (next_sample src =? G_MAXUINT64) with false
      by (symmetry; now apply Z.eqb_neq).
    replace (offset / bpf =? next_sample src) with false
      by (symmetry; now apply Z.eqb_neq).
    reflexivity.
  - split.
    + intros r Hr. eapply create_not_wrong_offset; eauto.
      intros _ _. fold src. fold bpf. now rewrite Hb64.
    + intros Halloc rd rest Hreads Hread.
      pose proof (create_succeeds self offset length env rd rest) as Hc.
      cbv zeta in Hc. fold src in Hc. fold bpf in Hc.
      rewrite Hb64, Hb32, Hexp in Hc. simpl negb in Hc. cbv iota in Hc.
      specialize (Hc Hacq (fun _ _ => Hs) Halloc Hreads Hread).
      rewrite Hc.
      match goal with |- context [Some (create_finish ?a ?b ?c ?d ?e ?f ?g ?h)] =>
        destruct (create_finish_buffer a b c d e f g h) as (F1 & F2 & _ & b0 & F3 & F4 & F5)
      end.
      eexists. exists b0. repeat split; eauto.
      * congruence.
      * rewrite F5. fold src. rewrite Hs, Z.eqb_refl. reflexivity.
Qed.

(** C8, witness: with sample 2 expected and frames of 4 bytes, a pull at
    byte offset 12 is refused and a pull at byte offset 8 succeeds. *)
Lemma explicit_offset_must_be_sequential_witness :
  gst_audio_base_src_create ex_self 12 0 ex_env =
    Some {| cr_self := ex_self; cr_flow := GST_FLOW_ERROR; cr_exit := wrong_offset;
            cr_outbuf := None; cr_requests := [];
            cr_posted := [error_resource_seek 12] |} /\
  exists r b,
    gst_audio_base_src_create ex_self 8 0 ex_env = Some r /\
    cr_flow r = GST_FLOW_OK /\ cr_exit r = done /\
    cr_outbuf r = Some b /\ buf_offset b = 2 /\ buf_discont b = false.
Proof.
  split.
  - apply (explicit_offset_must_be_sequential ex_self 12 0 ex_env); closed_facts.
  - refine (proj2 (proj2 (explicit_offset_must_be_sequential ex_self 8 0 ex_env
                            _ _ _ _) _) _ ex_read [] _ _); closed_facts.
Defined.

(** C10.  On the first pull of a session ([next_sample] is the sentinel) a
    pull that names an offset is never refused as non-sequential, whatever
    the offset; on an acquired ring buffer whose allocation succeeds, its
    first request to the ring buffer is at sample [offset / bpf], and it
    succeeds with a buffer at that sample once the ring buffer supplies the
    samples. *)
Theorem first_pull_accepts_any_offset self offset length env :
  let src := parent self in
  let bpf := spec_bpf (ringbuffer src) in
  next_sample src = G_MAXUINT64 ->
  0 <= offset < G_MAXUINT64 ->
  0 < bpf <= G_MAXINT ->
  (forall r,
     gst_audio_base_src_create self offset length env = Some r ->
     cr_exit r <> wrong_offset /\
     (acquired (ringbuffer src) = true -> is_flow_ok (e_alloc env) = true ->
      exists n rest, cr_requests r = (offset / bpf, n) :: rest)) /\
  (acquired (ringbuffer src) = true -> is_flow_ok (e_alloc env) = true ->
   forall rd rest,
     e_reads env = rd :: rest ->
     rd_read rd = create_length src length / bpf ->
     exists r b,
       gst_audio_base_src_create self offset length env = Some r /\
       cr_flow r = GST_FLOW_OK /\ cr_exit r = done /\
       cr_outbuf r = Some b /\ buf_offset b = offset / bpf /\
       buf_discont b = false).
Proof.
  intros src bpf Hfirst Hoff Hbpf.
  assert (Hb64 : guint64 bpf = bpf)
    by (apply guint64_small; unfold G_MAXINT, G_MAXUINT64 in *; lia).
  assert (Hb32 : guint bpf = bpf)
    by (apply guint_small; unfold G_MAXINT, G_MAXUINT in *; lia).
  assert (Hexp : (offset =? G_MAXUINT64) = false) by (apply Z.eqb_neq; lia).
  split.
  - intros r Hr.
    apply create_not_wrong_offset in Hr; [|intros _ Hn; now elim Hn].
    fold src in Hr. fold bpf in Hr. rewrite Hb64, Hexp in Hr. exact Hr.
  - intros Hacq Halloc rd rest Hreads Hread.
    pose proof (create_succeeds self offset length env rd rest) as Hc.
    cbv zeta in Hc. fold src in Hc. fold bpf in Hc.
    rewrite Hb64, Hb32, Hexp in Hc. simpl negb in Hc. cbv iota in Hc.
    specialize (Hc Hacq (fun _ Hn => False_ind _ (Hn Hfirst)) Halloc Hreads Hread).
    rewrite Hc.
    match goal with |- context [Some (create_finish ?a ?b ?c ?d ?e ?f ?g ?h)] =>
      destruct (create_finish_buffer a b c d e f g h) as (F1 & F2 & _ & b0 & F3 & F4 & F5)
    end.
    eexists. exists b0. repeat split; eauto.
    rewrite F5. fold src. rewrite Hfirst, Z.eqb_refl. apply andb_false_r.
Qed.

(** C10, witness: the first pull of a session at byte offset 400 reads
    from sample 100. *)
Lemma first_pull_accepts_any_offset_witness :
  exists r b,
    gst_audio_base_src_create ex_first 400 0 ex_env = Some r /\
    cr_flow r = GST_FLOW_OK /\ cr_exit r = done /\
    cr_outbuf r = Some b /\ buf_offset b = 400 / 4 /\ buf_discont b = false.
Proof.
  refine (proj2 (first_pull_accepts_any_offset ex_first 400 0 ex_env _ _ _)
            _ _ ex_read [] _ _); closed_facts.
Defined.

(** ** Drift correction in the resample case *)

Lemma gint64_guint64 x : gint64 (guint64 x) = gint64 x.
Proof.
  unfold gint64, guint64. now rewrite Zplus_mod_idemp_l.
Qed.

Lemma timestamp_diff_abs timestamp base :
  0 <= timestamp <= G_MAXINT64 ->
  0 <= base <= G_MAXINT64 ->
  timestamp_diff timestamp base = Z.abs (base - timestamp).
Proof.
  intros Ht Hb. unfold timestamp_diff, GST_CLOCK_DIFF, ABS64.
  rewrite gint64_guint64, gint64_small by (unfold G_MAXINT64 in *; lia).
  destruct (Z.ltb_spec (base - timestamp) 0).
  - rewrite gint64_small by (unfold G_MAXINT64 in *; lia). lia.
  - lia.
Qed.

Lemma drift_ns_exact initial td :
  0 <= initial <= G_MAXINT64 ->
  0 <= td <= G_MAXINT64 ->
  guint64 (if td >? 0 then ABS64 (gint64 (initial - td)) else 0) = drift initial td.
Proof.
  intros Hi Ht. unfold drift, ABS64.
  destruct (Z.eqb_spec td 0) as [->|Hz]; [reflexivity|].
  replace (td >? 0) with true by (symmetry; rewrite Z.gtb_ltb; apply Z.ltb_lt; lia).
  rewrite gint64_small by (unfold G_MAXINT64 in *; lia).
  destruct (Z.ltb_spec (initial - td) 0).
  - rewrite gint64_small by (unfold G_MAXINT64 in *; lia).
    rewrite guint64_small by (unfold G_MAXINT64, G_MAXUINT64 in *; lia). lia.
  - rewrite guint64_small by (unfold G_MAXINT64, G_MAXUINT64 in *; lia). lia.
Qed.

(** What the resample case does to the drift fields, in the terms of the
    source. *)
Lemma slave_resample_drift self clock first sample samples timestamp :
  let td := timestamp_diff timestamp (base_time (parent self)) in
  let initial := if negb first && (initial_timestamp_diff self =? 0)
                 then td else initial_timestamp_diff self in
  let drift_ns := if td >? 0 then ABS64 (gint64 (initial - td)) else 0 in
  let fires := guint64 drift_ns >? drift_correction_threshold self in
  let self' := fst (slave_resample self clock first sample samples timestamp) in
  initial_timestamp_diff self' = (if fires then 0 else initial) /\
  drift_correction_count self' =
    (if fires then guint64 (drift_correction_count self + 1)
     else drift_correction_count self) /\
  (fires = true -> timeshifted_count self' = guint64 (timeshifted_count self + 1)).
Proof.
  cbv zeta. unfold slave_resample, resync. cbv zeta.
  set (td := timestamp_diff timestamp (base_time (parent self))).
  set (initial := if negb first && (initial_timestamp_diff self =? 0)
                  then td else initial_timestamp_diff self).
  destruct (guint64 _ >? drift_correction_threshold self).
  - rewrite !orb_true_r. simpl. auto.
  - rewrite !orb_false_r.
    destruct (_ || _ || _); simpl; repeat split; auto; discriminate.
Qed.

(** A pull that reaches the resample case leaves the element as
    [slave_resample] leaves it. *)
Lemma create_resample self offset length env r :
  gst_audio_base_src_create self offset length env = Some r ->
  cr_exit r = done ->
  resample_slaved self env ->
  exists clock sample samples b,
    cr_outbuf r = Some b /\ buf_offset b = sample /\
    cr_self r =
      fst (slave_resample
             (set_parent self (set_next_sample (parent self) (guint64 (sample + samples))))
             clock (next_sample (parent self) =? G_MAXUINT64) sample samples
             (gst_util_uint64_scale_int sample GST_SECOND
                (spec_rate (ringbuffer (parent self))))).
Proof.
  intros H Hd (Hm & (clock & Hc & Hown) & Hts).
  destruct (create_done_inv _ _ _ _ _ H Hd)
    as (total & sample & samples & ts & rq & s0 & n0 & Hl & ->).
  pose proof (read_loop_no_timestamp _ _ _ _ _ _ Hts Hl _ _ _ eq_refl) as ->.
  exists clock, sample, samples.
  unfold create_finish. rewrite Hc, Hown.
  change (GST_CLOCK_TIME_IS_VALID GST_CLOCK_TIME_NONE) with false.
  simpl negb. simpl andb. cbv iota.
  simpl slave_method. rewrite Hm.
  destruct (slave_resample _ _ _ _ _ _) as [self' t] eqn:Hs.
  simpl. eexists. repeat split.
Qed.

(** What the resample case measures.  In a pull that reaches it,
    [timestamp_diff] is the distance between the pipeline's base time and
    the sample-derived timestamp, [|base_time - timestamp|]; the reading of
    the reference clock does not enter it.  On a pull that is not the first
    and finds [initial_timestamp_diff] unset, that value is latched into
    [initial_timestamp_diff]. *)
Lemma timestamp_diff_latched self offset length env r b :
  let src := parent self in
  let timestamp :=
    gst_util_uint64_scale_int (buf_offset b) GST_SECOND (spec_rate (ringbuffer src)) in
  gst_audio_base_src_create self offset length env = Some r ->
  cr_exit r = done ->
  cr_outbuf r = Some b ->
  resample_slaved self env ->
  0 <= timestamp <= G_MAXINT64 ->
  0 <= base_time src <= G_MAXINT64 ->
  0 <= drift_correction_threshold self ->
  next_sample src <> G_MAXUINT64 ->
  initial_timestamp_diff self = 0 ->
  timestamp_diff timestamp (base_time src) = Z.abs (base_time src - timestamp) /\
  initial_timestamp_diff (cr_self r) = Z.abs (base_time src - timestamp).
Proof.
  intros src timestamp H Hd Hb Hslaved Ht Hbase Hthr Hnext Hunset.
  pose proof (timestamp_diff_abs timestamp (base_time src) Ht Hbase) as Habs.
  split; [exact Habs|].
  destruct (create_resample _ _ _ _ _ H Hd Hslaved)
    as (clock & sample & samples & b' & Hb' & Hoff & Hself).
  rewrite Hb in Hb'. inversion Hb'; subst b'. clear Hb'.
  match type of Hself with _ = fst (slave_resample ?s ?c ?f ?a ?n ?t) =>
    pose proof (slave_resample_drift s c f a n t) as Hdr end.
  cbv zeta in Hdr. rewrite <- Hself in Hdr. simpl in Hdr.
  rewrite <- Hoff in Hdr. fold src in Hdr. fold timestamp in Hdr.
  replace (next_sample src =? G_MAXUINT64) with false in Hdr
    by (symmetry; now apply Z.eqb_neq).
  rewrite Hunset in Hdr. simpl in Hdr.
  assert (Htd : 0 <= timestamp_diff timestamp (base_time src) <= G_MAXINT64)
    by (rewrite Habs; unfold G_MAXINT64 in *; lia).
  rewrite drift_ns_exact in Hdr by assumption.
  replace (drift _ _ >? _) with false in Hdr.
  - destruct Hdr as (D1 & _). now rewrite D1.
  - symmetry. rewrite Z.gtb_ltb. apply Z.ltb_ge.
    unfold drift. destruct (_ =? 0); [lia|]. rewrite Z.sub_diag. simpl. lia.
Qed.

(** An instance: the second pull of a session resolves to sample 10, whose
    timestamp is 208333 ns, with the base time at 1 s. *)
Lemma timestamp_diff_latched_witness :
  exists r b,
    gst_audio_base_src_create ex_self G_MAXUINT64 0 ex_env = Some r /\
    cr_outbuf r = Some b /\
    initial_timestamp_diff (cr_self r) =
      Z.abs (base_time (parent ex_self)
             - gst_util_uint64_scale_int (buf_offset b) GST_SECOND
                 (spec_rate (ringbuffer (parent ex_self)))).
Proof.
  do 2 eexists. split; [lazy; reflexivity|]. split; [reflexivity|].
  refine (proj2 (timestamp_diff_latched ex_self G_MAXUINT64 0 ex_env
                   _ _ _ _ _ _ _ _ _ _ _));
    try (closed_facts; fail).
  split; [reflexivity|].
  split; [eexists; split; reflexivity | repeat constructor].
Defined.

(** ** The stop signal *)

Lemma restore_overflow_handles st :
  event_handle (l_self (restore_overflow st)) = event_handle (l_self st) /\
  stop_handle (l_self (restore_overflow st)) = stop_handle (l_self st) /\
  device_strid (l_self (restore_overflow st)) = device_strid (l_self st).
Proof.
  unfold restore_overflow.
  destruct (_ >? _); [|auto]. simpl. destruct (_ =? _); auto.
Qed.

(** C7, counterexample.  The stop signal is raised once.  The read call
    that meets it returns 8 bytes of silence; the read call after it waits
    for the device like any other and returns the 8 bytes the device then
    delivers, which are not silence; and had the device delivered nothing,
    that call would not have returned.  Nor is the call in progress always
    flushed: when the data-ready event is signaled as well, the wait
    reports that one, the call returns the device's bytes and the stop
    signal stays pending. *)
Lemma stop_signal_is_consumed :
  (exists self' env' r1 r2,
     run_reads (gst_wasapi_src_reset ex_self false false)
       [ex_quiet; ex_wake [ex_packet]] [ex_call 8; ex_call 8]
       = Some (self', env', [r1; r2]) /\
     returned r1 = repeat x00 8 /\
     returned r2 = [x01; x02; x03; x04; x05; x06; x07; x08] /\
     returned r2 <> repeat x00 8 /\
     gst_wasapi_src_read (r_self r1) (repeat xee 8) 8 false [ex_quiet] = None) /\
  (exists r,
     gst_wasapi_src_read (gst_wasapi_src_reset ex_self false false)
       (repeat xee 8) 8 false [ex_wake [ex_packet]] = Some r /\
     returned r = [x01; x02; x03; x04; x05; x06; x07; x08] /\
     signaled (stop_handle (r_self r)) = true).
Proof.
  split.
  - do 4 eexists. split; [lazy; reflexivity|].
    repeat split. discriminate.
  - eexists. split; [lazy; reflexivity|]. split; reflexivity.
Qed.

(* ================================================================== *)
(** * Further properties *)
(* ================================================================== *)

(** ** Invariants of a read call *)

Section ReadInvariant.

(** [Inv] holds of the locals all through a call when it survives each
    statement that changes them. *)
Variable Inv : read_locals -> Prop.

Hypothesis Inv_events : forall st ev sp,
  locals_ok st -> Inv st -> Inv (set_self st (set_events (l_self st) ev sp)).
Hypothesis Inv_burst : forall st pk,
  locals_ok st -> overflow_buffer_ptr (l_self st) = 0 -> gb_hr pk = S_OK ->
  packet_ok (nBlockAlign (mix_format (l_self st))) pk ->
  Inv st -> Inv (capture_burst st pk).
Hypothesis Inv_failed : forall st, locals_ok st -> Inv st -> Inv (set_length st 0).
Hypothesis Inv_stop : forall st,
  locals_ok st -> Inv st ->
  Inv (set_data st (memset (l_data st) (l_data_ptr st) x00 (l_wanted st))).

Lemma drain_inv pkts : forall st e st',
  locals_ok st ->
  overflow_buffer_ptr (l_self st) = 0 ->
  Forall (packet_ok (nBlockAlign (mix_format (l_self st)))) pkts ->
  Inv st -> drain st pkts = (e, st') -> Inv st'.
Proof.
  induction pkts as [|pk rest IH]; intros st e st' Hok Hptr Hpk HI H; simpl in H.
  - inversion H; subst; auto.
  - inversion Hpk as [|? ? Hpk1 Hpk2]; subst.
    destruct (gb_hr pk) eqn:Hhr; try (inversion H; subst; now auto).
    destruct (capture_burst_ok st pk Hok Hptr Hhr Hpk1) as (Hok' & Hptr' & Hext & _).
    pose proof (Inv_burst st pk Hok Hptr Hhr Hpk1 HI) as HI'.
    destruct (gb_release_failed pk).
    + inversion H; subst. auto.
    + apply (IH _ _ _ Hok' Hptr') in H; auto.
      destruct Hext as (_ & _ & _ & -> & _). exact Hpk2.
Qed.

Lemma capture_loop_inv env : forall st r,
  locals_ok st ->
  (0 < l_wanted st -> overflow_buffer_ptr (l_self st) = 0) ->
  Forall (wake_ok (nBlockAlign (mix_format (l_self st)))) env ->
  Inv st ->
  capture_loop st env = Some r ->
  exists st', Inv st' /\
    (r = beach st' (r_env r) \/
     exists post_failed, r = device_disappeared st' post_failed (r_env r)).
Proof.
  induction env as [|w env IH]; intros st r Hok Hptr Henv HI H; simpl in H.
  - destruct (l_wanted st >? 0); [discriminate|].
    inversion H; subst. exists st. auto.
  - destruct (l_wanted st >? 0) eqn:Hw;
      [|inversion H; subst; exists st; auto].
    rewrite Z.gtb_ltb in Hw. apply Z.ltb_lt in Hw. specialize (Hptr Hw).
    inversion Henv as [|? ? Hw1 Henv']; subst.
    assert (Hev : forall ev sp,
               locals_ok (set_self st (set_events (l_self st) ev sp)) /\
               extends st (set_self st (set_events (l_self st) ev sp))).
    { intros ev sp. unfold locals_ok, extends, overflow_ok in *; simpl.
      intuition lia. }
    destruct (if w_wait_failed w then _ else _) as [[[res ev'] sp']|].
    + destruct (Hev ev' sp') as [Hok1 Hext1].
      pose proof (Inv_events st ev' sp' Hok HI) as HI1.
      destruct (_ && _).
      { inversion H; subst. eexists; split; [exact HI1|]. right; eexists; reflexivity. }
      destruct (res =? _).
      { destruct (drain _ (w_packets w)) as [e st'] eqn:Hd.
        pose proof Hd as Hd'.
        apply drain_ok in Hd; auto.
        destruct Hd as (Hok2 & Hptr2 & Hext2).
        apply drain_inv in Hd'; auto.
        destruct e.
        - apply IH in H; auto.
          destruct Hext2 as (_ & _ & _ & -> & _). exact Henv'.
        - inversion H; subst. eauto.
        - inversion H; subst. eexists; split; [exact Hd'|]. right; eexists; reflexivity. }
      destruct (res =? _); inversion H; subst.
      * eexists; split; [|left; reflexivity].
        exact (Inv_stop _ Hok1 HI1).
      * eexists; split; [|left; reflexivity].
        exact (Inv_failed _ Hok1 HI1).
    + destruct (Hev (if w_data_ready w then SetEvent (event_handle (l_self st))
                     else event_handle (l_self st))
                    (if w_stop w then SetEvent (stop_handle (l_self st))
                     else stop_handle (l_self st))) as [Hok1 Hext1].
      apply IH in H; auto.
Qed.

(** The same for a whole call that gets past its restart: [Inv] need only
    hold once the queued bytes have been handed back. *)
Lemma read_inv self data len start_failed env r :
  overflow_ok self ->
  0 <= len <= G_MAXUINT ->
  len <= Z.of_nat (length data) ->
  Forall (wake_ok (nBlockAlign (mix_format self))) env ->
  client_needs_restart self && start_failed = false ->
  Inv (restore_overflow (read_entry self data len)) ->
  gst_wasapi_src_read self data len start_failed env = Some r ->
  exists st', Inv st' /\
    (r = beach st' (r_env r) \/
     exists post_failed, r = device_disappeared st' post_failed (r_env r)).
Proof.
  intros Hok Hlen Hdata Hwok Hstart HI H.
  unfold gst_wasapi_src_read in H. rewrite Hstart in H.
  replace (if client_needs_restart self then _ else _)
    with (read_entry self data len) in H
    by (unfold read_entry; destruct (client_needs_restart self); reflexivity).
  set (self1 := if client_needs_restart self
                then set_client_needs_restart self false else self).
  assert (Hok1 : overflow_ok self1)
    by (unfold self1; destruct (client_needs_restart self); exact Hok).
  assert (HB : nBlockAlign (mix_format self1) = nBlockAlign (mix_format self))
    by (unfold self1; destruct (client_needs_restart self); reflexivity).
  destruct (restore_overflow_ok self1 data len Hok1 Hlen Hdata) as
    (Hst & Hptr & _ & _ & _ & _ & _ & _ & Hbpf).
  change {| l_self := self1; l_data := data; l_data_ptr := 0;
            l_wanted := len; l_length := len |}
    with (read_entry self data len) in Hst, Hptr, Hbpf.
  apply capture_loop_inv in H; auto.
  rewrite Hbpf, HB. exact Hwok.
Qed.

End ReadInvariant.

Lemma memcpy_above (dst src : list byte) (off n : Z) (k : nat) :
  0 <= off -> 0 <= n -> off + n <= Z.of_nat (length dst) ->
  n <= Z.of_nat (length src) ->
  (Z.to_nat (off + n) <= k)%nat ->
  skipn k (memcpy dst off src n) = skipn k dst.
Proof.
  intros Ho Hn Hfit Hs Hk. unfold memcpy. rewrite app_assoc, skipn_app.
  rewrite skipn_all2 by (rewrite length_app, !length_firstn; lia).
  rewrite length_app, !length_firstn. simpl.
  rewrite skipn_skipn. f_equal. lia.
Qed.

Lemma memset_above (dst : list byte) (off n : Z) (c : byte) (k : nat) :
  0 <= off -> 0 <= n -> off + n <= Z.of_nat (length dst) ->
  (Z.to_nat (off + n) <= k)%nat ->
  skipn k (memset dst off c n) = skipn k dst.
Proof.
  intros Ho Hn Hfit Hk. unfold memset. rewrite app_assoc, skipn_app.
  rewrite skipn_all2 by (rewrite length_app, length_firstn, repeat_length; lia).
  rewrite length_app, length_firstn, repeat_length. simpl.
  rewrite skipn_skipn. f_equal. lia.
Qed.

Lemma same_config_refl self : same_config self self.
Proof. unfold same_config. repeat split. Qed.

Lemma same_config_trans a b c : same_config a b -> same_config b c -> same_config a c.
Proof. unfold same_config. intuition congruence. Qed.

Ltac split_ifs :=
  repeat match goal with
         | |- context [if ?c then _ else _] => destruct c
         end.

(** A call leaves the configuration alone and lowers the restart flag
    unless the restart failed. *)
Lemma read_frame self data len start_failed env r :
  overflow_ok self ->
  0 <= len <= G_MAXUINT ->
  len <= Z.of_nat (length data) ->
  Forall (wake_ok (nBlockAlign (mix_format self))) env ->
  gst_wasapi_src_read self data len start_failed env = Some r ->
  same_config self (r_self r) /\
  client_needs_restart (r_self r) = client_needs_restart self && start_failed.
Proof.
  intros Hok Hlen Hdata Hwok H.
  destruct (client_needs_restart self && start_failed) eqn:Hs.
  - unfold gst_wasapi_src_read in H. rewrite Hs in H. inversion H; subst; simpl.
    split; [apply same_config_refl|].
    destruct (client_needs_restart self); [reflexivity | discriminate].
  - set (Inv := fun st : read_locals =>
                  same_config self (l_self st) /\
                  client_needs_restart (l_self st) = false).
    assert (W : exists st', Inv st' /\
                  (r = beach st' (r_env r) \/
                   exists post_failed,
                     r = device_disappeared st' post_failed (r_env r))).
    2: { destruct W as (st' & [HI1 HI2] & [-> | [f ->]]); simpl; auto. }
    apply (read_inv Inv) with (self := self) (data := data) (len := len)
                              (start_failed := start_failed) (env := env);
      auto; unfold Inv.
    + intros st pk _ _ _ _ HI. unfold capture_burst; cbv zeta; simpl.
      split_ifs; exact HI.
    + unfold restore_overflow, read_entry; simpl.
      destruct (client_needs_restart self) eqn:Hc; simpl;
        split_ifs; simpl; (split; [unfold same_config; simpl; repeat split | auto]).
Qed.

Lemma run_reads_ok calls : forall self env self' env' rs,
  overflow_ok self ->
  Forall call_ok calls ->
  Forall (wake_ok (nBlockAlign (mix_format self))) env ->
  run_reads self env calls = Some (self', env', rs) ->
  overflow_ok self' /\ same_config self self' /\
  Forall (fun r => overflow_ok (r_self r) /\ same_config self (r_self r)) rs.
Proof.
  induction calls as [|c calls IH]; intros self env self' env' rs Hok Hc Hw H.
  - simpl in H. inversion H; subst. auto using same_config_refl.
  - apply run_reads_cons in H. destruct H as (r & rs' & H1 & H2 & ->).
    inversion Hc as [|? ? [Hc1 Hc2] Hc']; subst.
    destruct (read_delivers _ _ _ _ _ _ Hok Hc1 Hc2 Hw H1)
      as (Hok' & Hb & [pre Hpre] & _).
    destruct (read_frame _ _ _ _ _ _ Hok Hc1 Hc2 Hw H1) as [Hf _].
    apply IH in H2; auto.
    + destruct H2 as (A & B & C). split; [exact A|].
      split; [eauto using same_config_trans|].
      constructor; [auto|]. eapply Forall_impl; [|exact C]. simpl.
      intros a [? ?]; eauto using same_config_trans.
    + rewrite Hb. rewrite Hpre in Hw. apply Forall_app in Hw. apply Hw.
Qed.

(** ** The overflow buffer between prepare and the read calls *)

(** X1.  [gst_wasapi_src_prepare] sets the overflow buffer up as an empty
    window on [4 * segsize] allocated bytes, and no sequence of read calls
    takes the window out of the allocation: after every call the read
    pointer and the queued length are non-negative, [ptr + length] stays
    within the [4 * segsize] bytes, the buffer is still that long, and an
    empty queue sits at the start. *)
Theorem overflow_window_stays_in_buffer self0 segsize fresh env calls self' env' rs :
  0 <= segsize * 4 <= G_MAXINT ->
  Z.of_nat (length fresh) = segsize * 4 ->
  0 < nBlockAlign (mix_format self0) ->
  Forall call_ok calls ->
  Forall (wake_ok (nBlockAlign (mix_format self0))) env ->
  run_reads (prepare_overflow_buffer self0 segsize fresh) env calls
    = Some (self', env', rs) ->
  overflow_contents (prepare_overflow_buffer self0 segsize fresh) = [] /\
  Forall (fun r => overflow_ok (r_self r) /\
                   overflow_buffer_size (r_self r) = segsize * 4) rs /\
  overflow_ok self' /\ overflow_buffer_size self' = segsize * 4.
Proof.
  intros Hseg Hfresh Hbpf Hc Hw H.
  assert (Hsz : overflow_buffer_size (prepare_overflow_buffer self0 segsize fresh)
                = segsize * 4).
  { unfold prepare_overflow_buffer; simpl. rewrite gint_small by lia.
    unfold gsize. apply Z.mod_small. unfold G_MAXINT in *. lia. }
  assert (Hok : overflow_ok (prepare_overflow_buffer self0 segsize fresh)).
  { unfold overflow_ok. rewrite Hsz. unfold prepare_overflow_buffer; simpl.
    unfold G_MAXINT, G_MAXUINT in *. repeat split; auto; lia. }
  split; [reflexivity|].
  destruct (run_reads_ok _ _ _ _ _ _ Hok Hc Hw H) as (A & B & C).
  split; [|split; [exact A|]].
  - eapply Forall_impl; [|exact C]. simpl. intros r [R1 R2].
    split; [exact R1|]. destruct R2 as (_ & _ & -> & _). exact Hsz.
  - destruct B as (_ & _ & -> & _). exact Hsz.
Qed.

(** X1, witness: the prepared example element, two bursts of 16 bytes and
    calls for 8, 4 and 8 bytes. *)
Lemma overflow_window_stays_in_buffer_witness :
  exists self' env' rs,
    run_reads (prepare_overflow_buffer (gst_wasapi_src_init ex_instance) 8
                 (repeat xff 32))
      [ex_wake [ex_packet]; ex_wake [ex_packet]]
      [ex_call 8; ex_call 4; ex_call 8] = Some (self', env', rs) /\
    overflow_contents (prepare_overflow_buffer (gst_wasapi_src_init ex_instance) 8
                         (repeat xff 32)) = [] /\
    Forall (fun r => overflow_ok (r_self r) /\
                     overflow_buffer_size (r_self r) = 8 * 4) rs /\
    overflow_ok self' /\ overflow_buffer_size self' = 8 * 4.
Proof.
  do 3 eexists. split; [lazy; reflexivity|].
  refine (overflow_window_stays_in_buffer (gst_wasapi_src_init ex_instance) 8
            (repeat xff 32) [ex_wake [ex_packet]; ex_wake [ex_packet]]
            [ex_call 8; ex_call 4; ex_call 8] _ [] _ _ _ _ _ _ _).
  - closed_facts.
  - reflexivity.
  - reflexivity.
  - repeat constructor; closed_facts.
  - repeat constructor; closed_facts.
  - vm_compute. reflexivity.
Defined.

(** The restart flag and the configuration across a call, the lock left
    aside: [client_needs_restart] is up after a call exactly when it was up
    before and [IAudioClient_Start] failed, and then the call has returned
    0 at once. *)
Lemma read_restart_flag self data len start_failed env r :
  overflow_ok self ->
  0 <= len <= G_MAXUINT ->
  len <= Z.of_nat (length data) ->
  Forall (wake_ok (nBlockAlign (mix_format self))) env ->
  gst_wasapi_src_read self data len start_failed env = Some r ->
  client_needs_restart (r_self r) = client_needs_restart self && start_failed /\
  same_config self (r_self r) /\
  (client_needs_restart self && start_failed = true ->
   r_self r = self /\ r_data r = data /\ r_return r = 0 /\ r_posted r = [] /\
   r_env r = env).
Proof.
  intros Hok Hlen Hdata Hwok H.
  destruct (read_frame _ _ _ _ _ _ Hok Hlen Hdata Hwok H) as [A B].
  split; [exact B|]. split; [exact A|].
  intros Hs. unfold gst_wasapi_src_read in H. rewrite Hs in H.
  inversion H; subst; simpl. repeat split.
Qed.



(** ** The destination of a read call *)

Lemma capture_burst_tail st pk k :
  locals_ok st ->
  gb_hr pk = S_OK ->
  packet_ok (nBlockAlign (mix_format (l_self st))) pk ->
  (Z.to_nat (l_data_ptr st + l_wanted st) <= k)%nat ->
  skipn k (l_data (capture_burst st pk)) = skipn k (l_data st).
Proof.
  intros (Hov & Hp & Hw & Hd) Hhr Hpk Hk.
  destruct (Hpk Hhr) as (Hhave & Hbytes & Hfrom). clear Hpk.
  destruct Hov as (_ & _ & _ & _ & _ & _ & Hbpf).
  unfold capture_burst. cbv zeta. simpl.
  set (bpf := nBlockAlign (mix_format (l_self st))) in *.
  set (have := gb_have_frames pk) in *.
  set (want := l_wanted st / bpf).
  assert (Hwant : 0 <= want) by (apply Z.div_pos; lia).
  assert (Hwm : want * bpf <= l_wanted st)
    by (unfold want; rewrite Z.mul_comm; apply Z.mul_div_le; lia).
  assert (Hn : 0 <= Z.min have want * bpf <= want * bpf) by nia.
  rewrite (guint_small (Z.min have want * bpf)) by (unfold G_MAXUINT in *; lia).
  destruct (negb _).
  - apply memset_above; lia.
  - apply memcpy_above; nia.
Qed.

Lemma restore_overflow_tail self data len :
  overflow_ok self ->
  0 <= len <= G_MAXUINT ->
  len <= Z.of_nat (length data) ->
  skipn (Z.to_nat len)
    (l_data (restore_overflow {| l_self := self; l_data := data; l_data_ptr := 0;
                                 l_wanted := len; l_length := len |}))
  = skipn (Z.to_nat len) data.
Proof.
  intros (Hp & Hl & Hfit & Hsize & Hbuf & _) Hlen Hdata.
  unfold restore_overflow; simpl.
  destruct (_ >? 0); [|reflexivity]. simpl.
  apply memcpy_above; try lia.
  rewrite length_skipn. lia.
Qed.

(** X3.  A read call writes only where it was told to: the destination
    keeps its size, every byte at or beyond [length] is what it was before
    the call, and [data_ptr] ends between the start of the destination and
    [length]. *)
Theorem read_stays_in_destination self data len start_failed env r :
  overflow_ok self ->
  0 <= len <= G_MAXUINT ->
  len <= Z.of_nat (length data) ->
  Forall (wake_ok (nBlockAlign (mix_format self))) env ->
  gst_wasapi_src_read self data len start_failed env = Some r ->
  length (r_data r) = length data /\
  skipn (Z.to_nat len) (r_data r) = skipn (Z.to_nat len) data /\
  0 <= r_data_ptr r <= len.
Proof.
  intros Hok Hlen Hdata Hwok H.
  destruct (client_needs_restart self && start_failed) eqn:Hs.
  - unfold gst_wasapi_src_read in H. rewrite Hs in H. inversion H; subst; simpl.
    repeat split; lia.
  - set (Inv := fun st : read_locals =>
                  length (l_data st) = length data /\
                  l_data_ptr st + l_wanted st = len /\
                  0 <= l_data_ptr st /\ 0 <= l_wanted st /\
                  skipn (Z.to_nat len) (l_data st) = skipn (Z.to_nat len) data).
    assert (W : exists st', Inv st' /\
                  (r = beach st' (r_env r) \/
                   exists post_failed,
                     r = device_disappeared st' post_failed (r_env r))).
    2: { destruct W as (st' & (I1 & I2 & I3 & I4 & I5) & [-> | [f ->]]); simpl;
         repeat split; auto; lia. }
    apply (read_inv Inv) with (self := self) (data := data) (len := len)
                              (start_failed := start_failed) (env := env);
      auto; unfold Inv.
    + intros st pk Hst Hptr Hhr Hpk (I1 & I2 & I3 & I4 & I5).
      destruct (capture_burst_ok st pk Hst Hptr Hhr Hpk)
        as ((_ & Hp' & Hw' & _) & _ & (_ & El & _ & _ & Es) & _).
      rewrite capture_burst_tail by (auto; lia).
      repeat split; auto; try lia.
    + intros st (_ & Hp & Hw & Hd) (I1 & I2 & I3 & I4 & I5). simpl.
      rewrite memset_length, memset_above by lia. auto.
    + set (self1 := if client_needs_restart self
                    then set_client_needs_restart self false else self).
      assert (Hok1 : overflow_ok self1)
        by (unfold self1; destruct (client_needs_restart self); exact Hok).
      destruct (restore_overflow_ok self1 data len Hok1 Hlen Hdata) as
        ((_ & Hp' & Hw' & _) & _ & Hdp & Hw & _ & Hdl & _).
      pose proof (restore_overflow_tail self1 data len Hok1 Hlen Hdata) as Ht.
      change {| l_self := self1; l_data := data; l_data_ptr := 0;
                l_wanted := len; l_length := len |}
        with (read_entry self data len) in *.
      repeat split; auto; lia.
Qed.

(** X3, witness: a destination of 12 bytes for a call that asks for 8 and
    gets a burst of 16. *)
Lemma read_stays_in_destination_witness :
  exists r,
    gst_wasapi_src_read ex_self (repeat xee 12) 8 false [ex_wake [ex_packet]] = Some r /\
    length (r_data r) = length (repeat xee 12) /\
    skipn (Z.to_nat 8) (r_data r) = skipn (Z.to_nat 8) (repeat xee 12) /\
    0 <= r_data_ptr r <= 8.
Proof.
  eexists. split; [lazy; reflexivity|].
  match goal with |- length (r_data ?r) = _ /\ _ =>
    pose proof (read_stays_in_destination ex_self (repeat xee 12) 8 false
                  [ex_wake [ex_packet]] r) as W
  end.
  apply W;
    [closed_facts | closed_facts | closed_facts | repeat constructor; closed_facts
    | vm_compute; reflexivity].
Defined.

(** ** What a read call returns *)

Lemma drain_length pkts : forall st e st',
  drain st pkts = (e, st') ->
  l_length st' = l_length st \/ (e = drain_beach /\ l_length st' = 0).
Proof.
  induction pkts as [|pk rest IH]; intros st e st' H; simpl in H.
  - inversion H; subst. auto.
  - destruct (gb_hr pk); try (inversion H; subst; now auto).
    destruct (gb_release_failed pk).
    + inversion H; subst. left. apply capture_burst_eos.
    + apply IH in H. destruct (capture_burst_eos st pk) as [_ E].
      rewrite E in H. exact H.
Qed.

Lemma capture_loop_return env : forall st r,
  capture_loop st env = Some r ->
  r_return r = l_length st \/
  (r_return r = 0 /\ r_exit r = exit_beach /\ r_posted r = []).
Proof.
  induction env as [|w env IH]; intros st r H; simpl in H.
  - destruct (l_wanted st >? 0); [discriminate|]. inversion H; subst. auto.
  - destruct (l_wanted st >? 0); [|inversion H; subst; auto].
    destruct (if w_wait_failed w then _ else _) as [[[res ev'] sp']|].
    + destruct (_ && _); [inversion H; subst; auto|].
      destruct (res =? _).
      { destruct (drain _ (w_packets w)) as [e st'] eqn:Hd.
        apply drain_length in Hd. simpl in Hd.
        destruct e.
        - apply IH in H. destruct Hd as [Hd | [Hd _]]; [|discriminate].
          rewrite Hd in H. exact H.
        - inversion H; subst; simpl. destruct Hd as [Hd | [_ Hd]]; auto.
        - inversion H; subst; simpl. destruct Hd as [Hd | [Hd _]]; [|discriminate].
          auto. }
      destruct (res =? _); inversion H; subst; simpl; auto.
    + apply IH in H. exact H.
Qed.

(** X4.  A read call never reports a short count: it returns the length
    it was asked for, or 0; and it returns 0 only through [beach], without
    posting anything (a call that meets device loss returns the full
    length). *)
Theorem read_returns_all_or_nothing self data len start_failed env r :
  gst_wasapi_src_read self data len start_failed env = Some r ->
  r_return r = len \/
  (r_return r = 0 /\ r_exit r = exit_beach /\ r_posted r = []).
Proof.
  intros H. unfold gst_wasapi_src_read in H.
  destruct (_ && _).
  - inversion H; subst; simpl. auto.
  - apply capture_loop_return in H.
    destruct (restore_overflow_eos
                (if client_needs_restart self
                 then set_self {| l_self := self; l_data := data; l_data_ptr := 0;
                                  l_wanted := len; l_length := len |}
                        (set_client_needs_restart self false)
                 else {| l_self := self; l_data := data; l_data_ptr := 0;
                         l_wanted := len; l_length := len |})) as [_ E].
    rewrite E in H. destruct (client_needs_restart self); exact H.
Qed.

(** X4, witness: a wait that fails, and a burst that fills the request. *)
Lemma read_returns_all_or_nothing_witness :
  (exists r,
     gst_wasapi_src_read ex_self (repeat xee 8) 8 false
       [{| w_data_ready := true; w_stop := false; w_wait_failed := true;
           w_default_changed := false; w_post_failed := false;
           w_packets := [ex_packet] |}] = Some r /\
     r_return r = 0 /\
     (r_return r = 8 \/ (r_return r = 0 /\ r_exit r = exit_beach /\ r_posted r = []))) /\
  (exists r,
     gst_wasapi_src_read ex_self (repeat xee 8) 8 false [ex_wake [ex_packet]] = Some r /\
     r_return r = 8 /\
     (r_return r = 8 \/ (r_return r = 0 /\ r_exit r = exit_beach /\ r_posted r = []))).
Proof.
  split; (eexists; split; [lazy; reflexivity|]); (split; [reflexivity|]).
  - refine (read_returns_all_or_nothing ex_self (repeat xee 8) 8 false
              [{| w_data_ready := true; w_stop := false; w_wait_failed := true;
                  w_default_changed := false; w_post_failed := false;
                  w_packets := [ex_packet] |}] _ _).
    vm_compute. reflexivity.
  - refine (read_returns_all_or_nothing ex_self (repeat xee 8) 8 false
              [ex_wake [ex_packet]] _ _).
    vm_compute. reflexivity.
Defined.

(** X5.  A request that the queue can meet is met from the queue alone:
    the call returns at once with the oldest [length] queued bytes, leaves
    the rest queued in order, and neither waits nor asks the device for
    anything, whatever the device is doing.  A request for no bytes is the
    case [length = 0]. *)
Theorem read_served_from_queue self data len start_failed env :
  overflow_ok self ->
  0 <= len <= overflow_buffer_length self ->
  len <= Z.of_nat (length data) ->
  client_needs_restart self && start_failed = false ->
  exists r,
    gst_wasapi_src_read self data len start_failed env = Some r /\
    r_return r = len /\ r_exit r = exit_beach /\ r_posted r = [] /\
    r_env r = env /\
    returned r = firstn (Z.to_nat len) (overflow_contents self) /\
    overflow_contents (r_self r) = skipn (Z.to_nat len) (overflow_contents self).
Proof.
  intros Hok Hlen Hdata Hstart.
  unfold gst_wasapi_src_read. rewrite Hstart.
  set (self1 := if client_needs_restart self
                then set_client_needs_restart self false else self).
  assert (Hok1 : overflow_ok self1)
    by (unfold self1; destruct (client_needs_restart self); exact Hok).
  assert (H1 : overflow_contents self1 = overflow_contents self /\
               overflow_buffer_length self1 = overflow_buffer_length self)
    by (unfold self1; destruct (client_needs_restart self); auto).
  destruct H1 as (HO & HL).
  replace (if client_needs_restart self then _ else _)
    with {| l_self := self1; l_data := data; l_data_ptr := 0;
            l_wanted := len; l_length := len |}
    by (unfold self1; destruct (client_needs_restart self); reflexivity).
  assert (Hsz : overflow_buffer_size self <= G_MAXUINT) by apply Hok.
  assert (Hfit : overflow_buffer_length self <= overflow_buffer_size self)
    by (destruct Hok as (? & ? & ? & _); lia).
  destruct (restore_overflow_ok self1 data len Hok1) as
    (Hst & Hptr & Hdp & Hw & Hl & Hdl & Hfirst & Hrest & Hbpf); [lia|lia|].
  set (st := restore_overflow _) in *.
  rewrite HL in Hdp, Hw, Hfirst, Hrest.
  replace (Z.min (overflow_buffer_length self) len) with len in * by lia.
  rewrite capture_loop_idle by lia.
  eexists. split; [reflexivity|]. unfold returned; simpl.
  rewrite Hl, Hfirst, Hrest, HO. repeat split.
Qed.

(** X5, witness: 8 bytes are queued by a first call; the second call asks
    for 4 of them while the device has another burst ready. *)
Lemma read_served_from_queue_witness :
  exists r1 r,
    gst_wasapi_src_read ex_self (repeat xee 8) 8 false [ex_wake [ex_packet]] = Some r1 /\
    overflow_contents (r_self r1) = [x09; x0a; x0b; x0c; x0d; x0e; x0f; x10] /\
    gst_wasapi_src_read (r_self r1) (repeat xee 4) 4 false [ex_wake [ex_packet]]
      = Some r /\
    r_return r = 4 /\ r_exit r = exit_beach /\ r_posted r = [] /\
    r_env r = [ex_wake [ex_packet]] /\
    returned r = firstn (Z.to_nat 4) (overflow_contents (r_self r1)) /\
    overflow_contents (r_self r) = skipn (Z.to_nat 4) (overflow_contents (r_self r1)).
Proof.
  eexists. 
  match goal with |- exists r, ?A = Some ?r1 /\ _ =>
    assert (E : A = Some r1) by (lazy; reflexivity)
  end.
  match type of E with _ = Some ?r1 =>
    destruct (read_served_from_queue (r_self r1) (repeat xee 4) 4 false
                [ex_wake [ex_packet]]) as (r & W)
  end; [closed_facts | closed_facts | closed_facts | reflexivity |].
  exists r. split; [exact E|]. split; [reflexivity|]. exact W.
Defined.

(** ** Queue first, then the device *)

(** X6.  A call that asks for more than is queued hands back the whole
    queue first and fills the rest from the device: when the rest of the
    request is a whole number of frames, the wakes are clean, the last of
    them is the first to bring enough, and what is left over fits the
    overflow buffer, the call returns the requested length, its output is
    the queued bytes followed by the head of the bursts (silent ones
    zeroed), the script is used up to that wake, and the overflow buffer
    holds exactly the bursts' bytes beyond the request. *)
Theorem read_queue_then_bursts self data len start_failed pre w env :
  let queued := overflow_buffer_length self in
  overflow_ok self ->
  client_needs_restart self && start_failed = false ->
  queued < len <= G_MAXUINT ->
  len <= Z.of_nat (length data) ->
  (len - queued) mod nBlockAlign (mix_format self) = 0 ->
  Forall clean_wake (pre ++ [w]) ->
  Forall (wake_ok (nBlockAlign (mix_format self))) (pre ++ [w]) ->
  Z.of_nat (length (raw_bytes pre)) < len - queued
    <= Z.of_nat (length (raw_bytes (pre ++ [w]))) ->
  Z.of_nat (length (raw_bytes (pre ++ [w]))) - (len - queued)
    <= overflow_buffer_size self ->
  exists r,
    gst_wasapi_src_read self data len start_failed (pre ++ w :: env) = Some r /\
    r_return r = len /\ r_exit r = exit_beach /\ r_posted r = [] /\
    r_env r = env /\
    returned r = overflow_contents self
                 ++ firstn (Z.to_nat (len - queued)) (rendered_bytes (pre ++ [w])) /\
    overflow_contents (r_self r)
      = skipn (Z.to_nat (len - queued)) (raw_bytes (pre ++ [w])).
Proof.
  intros queued Hok Hstart Hlen Hdata Hmod Hclean Hwok Htot Hroom.
  assert (Hq : 0 <= queued) by apply Hok.
  unfold gst_wasapi_src_read. rewrite Hstart.
  set (self1 := if client_needs_restart self
                then set_client_needs_restart self false else self).
  assert (Hok1 : overflow_ok self1)
    by (unfold self1; destruct (client_needs_restart self); exact Hok).
  assert (H1 : overflow_contents self1 = overflow_contents self /\
               overflow_buffer_length self1 = overflow_buffer_length self /\
               overflow_buffer_size self1 = overflow_buffer_size self /\
               nBlockAlign (mix_format self1) = nBlockAlign (mix_format self))
    by (unfold self1; destruct (client_needs_restart self); auto).
  destruct H1 as (HO & HL & HS & HB).
  replace (if client_needs_restart self then _ else _)
    with {| l_self := self1; l_data := data; l_data_ptr := 0;
            l_wanted := len; l_length := len |}
    by (unfold self1; destruct (client_needs_restart self); reflexivity).
  destruct (restore_overflow_ok self1 data len Hok1) as
    (Hst & Hptr & Hdp & Hw & Hl & Hdl & Hfirst & Hrest & Hbpf); [lia|lia|].
  pose proof (restore_overflow_size
                {| l_self := self1; l_data := data; l_data_ptr := 0;
                   l_wanted := len; l_length := len |}) as Hsz.
  simpl l_self in Hsz at 2.
  set (st := restore_overflow _) in *.
  rewrite HL in Hdp, Hw, Hfirst, Hrest. fold queued in Hdp, Hw, Hfirst, Hrest.
  replace (Z.min queued len) with queued in * by lia.
  pose proof (overflow_contents_length _ Hok) as HOl. fold queued in HOl.
  rewrite HO in Hfirst, Hrest.
  rewrite (firstn_all2 (overflow_contents self)) in Hfirst by lia.
  rewrite skipn_all2 in Hrest by lia.
  pose proof (overflow_contents_length _ (proj1 Hst)) as HOl'.
  rewrite Hrest in HOl'. simpl in HOl'.
  assert (Hl0 : overflow_buffer_length (l_self st) = 0).
  { assert (0 <= overflow_buffer_length (l_self st)) by apply Hst. lia. }
  destruct (capture_loop_copies pre st w env) as
    (r & R1 & R2 & R3 & R4 & R5 & R6 & R7 & R8); auto.
  - apply Hptr. lia.
  - rewrite Hbpf, HB, Hw. exact Hmod.
  - now rewrite Hbpf, HB.
  - rewrite Hw. exact Htot.
  - rewrite Hl0, Hsz, HS, Hw. lia.
  - exists r. rewrite R1. unfold returned. rewrite R3, Hl.
    rewrite Hdp, Hw in R6, R7. rewrite Hw in R8.
    replace (queued + (len - queued)) with len in * by lia.
    rewrite R6 in R7. rewrite Hfirst in R7.
    repeat split; auto. now rewrite R8, Hrest.
Qed.

(** X6, witness: 4 bytes are left queued by two earlier calls; the third
    call asks for 12, gets those 4 and the first 8 of a new burst, and the
    last 8 bytes of the burst are queued. *)
Lemma read_queue_then_bursts_witness :
  exists self0 env0 rs r,
    run_reads ex_self [ex_wake [ex_packet]] [ex_call 8; ex_call 4]
      = Some (self0, env0, rs) /\
    overflow_contents self0 = [x0d; x0e; x0f; x10] /\
    gst_wasapi_src_read self0 (repeat xee 12) 12 false
      ([] ++ ex_wake [ex_packet] :: []) = Some r /\
    r_return r = 12 /\ r_exit r = exit_beach /\ r_posted r = [] /\ r_env r = [] /\
    returned r = overflow_contents self0
                 ++ firstn (Z.to_nat (12 - overflow_buffer_length self0))
                      (rendered_bytes ([] ++ [ex_wake [ex_packet]])) /\
    overflow_contents (r_self r)
      = skipn (Z.to_nat (12 - overflow_buffer_length self0))
          (raw_bytes ([] ++ [ex_wake [ex_packet]])).
Proof.
  do 3 eexists.
  match goal with |- exists r, ?A = Some (?s0, ?e0, ?rs0) /\ _ =>
    assert (E : A = Some (s0, e0, rs0)) by (lazy; reflexivity)
  end.
  match type of E with _ = Some (?s0, _, _) =>
    destruct (read_queue_then_bursts s0 (repeat xee 12) 12 false []
                (ex_wake [ex_packet]) []) as (r & W)
  end.
  - closed_facts.
  - reflexivity.
  - closed_facts.
  - closed_facts.
  - reflexivity.
  - repeat constructor; closed_facts.
  - repeat constructor; closed_facts.
  - closed_facts.
  - closed_facts.
  - exists r. split; [exact E|]. split; [reflexivity|]. exact W.
Defined.

(** ** A burst too large for the overflow buffer *)

(** What one packet puts into the destination, whether or not its
    remainder finds room in the overflow buffer. *)
Lemma capture_burst_data st pk :
  locals_ok st ->
  gb_hr pk = S_OK ->
  packet_ok (nBlockAlign (mix_format (l_self st))) pk ->
  l_wanted st mod nBlockAlign (mix_format (l_self st)) = 0 ->
  let m := Z.min (Z.of_nat (length (gb_from pk))) (l_wanted st) in
  let st' := capture_burst st pk in
  l_data_ptr st' = l_data_ptr st + m /\
  l_wanted st' = l_wanted st - m /\
  l_length st' = l_length st /\
  firstn (Z.to_nat (l_data_ptr st')) (l_data st') =
    firstn (Z.to_nat (l_data_ptr st)) (l_data st) ++ firstn (Z.to_nat m) (render pk).
Proof.
  intros Hok Hhr Hpk Hmod m st'.
  destruct (Hpk Hhr) as (Hhave & Hbytes & Hfrom).
  destruct Hok as (Hov & Hp & Hw & Hd).
  destruct Hov as (_ & Hlen & Hfit & Hsize & Hbuf & Hidle & Hbpf).
  set (bpf := nBlockAlign (mix_format (l_self st))) in *.
  set (want := l_wanted st / bpf).
  assert (Hwanted : l_wanted st = want * bpf).
  { unfold want. rewrite Z.mul_comm. apply Z.div_exact; [lia | exact Hmod]. }
  assert (Hwant : 0 <= want) by (apply Z.div_pos; lia).
  assert (Hm : Z.min (gb_have_frames pk) want * bpf = m).
  { unfold m. rewrite Hfrom, Hwanted.
    destruct (Z.min_spec (gb_have_frames pk) want) as [[? ->]|[? ->]];
    destruct (Z.min_spec (gb_have_frames pk * bpf) (want * bpf)) as [[? ->]|[? ->]];
    nia. }
  assert (Hm0 : 0 <= m <= l_wanted st /\ m <= Z.of_nat (length (gb_from pk)))
    by (unfold m; lia).
  assert (Hlen' : l_data_ptr st' = l_data_ptr st + m /\
                  l_wanted st' = l_wanted st - m /\ l_length st' = l_length st).
  { unfold st', capture_burst. cbv zeta. simpl. fold bpf. fold want.
    rewrite Hm. rewrite !guint_small by (unfold G_MAXUINT in *; lia). auto. }
  destruct Hlen' as (L1 & L2 & L3).
  repeat split; auto.
  rewrite L1. unfold st', capture_burst. cbv zeta. simpl l_data.
  fold bpf. fold want. rewrite Hm.
  rewrite (guint_small m) by (unfold G_MAXUINT in *; lia).
  fold (silent pk). unfold render. destruct (silent pk).
  - rewrite memset_written by lia. f_equal.
    symmetry. apply firstn_repeat_le. lia.
  - rewrite memcpy_written by lia. reflexivity.
Qed.

(** X7.  The overflow buffer is lossy: when a burst leaves over more than
    the whole buffer holds, none of the remainder is kept.  The call still
    returns the requested length with the head of the burst as its output,
    the queue stays empty, and the bytes beyond the request are gone. *)
Theorem oversized_burst_is_dropped self data len start_failed w pk env :
  overflow_ok self ->
  overflow_buffer_length self = 0 ->
  client_needs_restart self && start_failed = false ->
  0 < len <= G_MAXUINT ->
  len <= Z.of_nat (length data) ->
  len mod nBlockAlign (mix_format self) = 0 ->
  clean_wake w ->
  w_packets w = [pk] ->
  packet_ok (nBlockAlign (mix_format self)) pk ->
  overflow_buffer_size self < Z.of_nat (length (gb_from pk)) - len ->
  exists r,
    gst_wasapi_src_read self data len start_failed (w :: env) = Some r /\
    r_return r = len /\ r_exit r = exit_beach /\ r_posted r = [] /\
    r_env r = env /\
    returned r = firstn (Z.to_nat len) (render pk) /\
    overflow_contents (r_self r) = [].
Proof.
  intros Hok Hempty Hstart Hlen Hdata Hmod Hclean Hpkts Hpk Hbig.
  unfold gst_wasapi_src_read. rewrite Hstart.
  set (self1 := if client_needs_restart self
                then set_client_needs_restart self false else self).
  assert (Hok1 : overflow_ok self1)
    by (unfold self1; destruct (client_needs_restart self); exact Hok).
  assert (H1 : overflow_contents self1 = overflow_contents self /\
               overflow_buffer_length self1 = overflow_buffer_length self /\
               overflow_buffer_size self1 = overflow_buffer_size self /\
               nBlockAlign (mix_format self1) = nBlockAlign (mix_format self))
    by (unfold self1; destruct (client_needs_restart self); auto).
  destruct H1 as (HO & HL & HS & HB).
  replace (if client_needs_restart self then _ else _)
    with {| l_self := self1; l_data := data; l_data_ptr := 0;
            l_wanted := len; l_length := len |}
    by (unfold self1; destruct (client_needs_restart self); reflexivity).
  destruct (restore_overflow_ok self1 data len Hok1) as
    (Hst & Hptr & Hdp & Hw & Hl & Hdl & _ & Hrest & Hbpf); [lia|lia|].
  pose proof (restore_overflow_size
                {| l_self := self1; l_data := data; l_data_ptr := 0;
                   l_wanted := len; l_length := len |}) as Hsz.
  simpl l_self in Hsz at 2.
  set (st := restore_overflow _) in *.
  rewrite HL, Hempty in Hdp, Hw, Hrest.
  replace (Z.min 0 len) with 0 in * by lia.
  replace (len - 0) with len in * by lia.
  assert (Hnil : overflow_contents (l_self st) = []).
  { rewrite Hrest, HO. unfold overflow_contents. now rewrite Hempty. }
  pose proof (overflow_contents_length _ (proj1 Hst)) as HOl.
  rewrite Hnil in HOl. simpl in HOl.
  assert (Hl0 : overflow_buffer_length (l_self st) = 0).
  { assert (0 <= overflow_buffer_length (l_self st)) by apply Hst. lia. }
  destruct (capture_loop_clean_wake st w env Hclean) as (ev & sp & ->); [lia|].
  destruct (set_events_locals st ev sp)
    as (E1 & E2 & E3 & E4 & E5 & E6 & E7 & E8 & E9 & E10).
  set (st1 := set_self st (set_events (l_self st) ev sp)) in *.
  specialize (E1 Hst).
  destruct Hclean as (_ & _ & _ & Hpc). rewrite Hpkts in *.
  apply Forall_inv in Hpc. destruct Hpc as [Hhr Hrel].
  simpl. rewrite Hhr, Hrel.
  assert (Hpk1 : packet_ok (nBlockAlign (mix_format (l_self st1))) pk)
    by (rewrite E6, Hbpf, HB; exact Hpk).
  assert (Hptr1 : overflow_buffer_ptr (l_self st1) = 0)
    by (rewrite E2; apply Hptr; lia).
  destruct (capture_burst_ok st1 pk E1 Hptr1 Hhr Hpk1) as (_ & _ & _ & Hspill).
  destruct (capture_burst_data st1 pk E1 Hhr Hpk1) as (D1 & D2 & D3 & D4).
  { rewrite E6, E9, Hbpf, HB, Hw. exact Hmod. }
  rewrite E9, Hw in D1, D2, D4.
  assert (Hsz0 : 0 <= overflow_buffer_size self)
    by (destruct Hok as (? & ? & ? & _); lia).
  replace (Z.min (Z.of_nat (length (gb_from pk))) len) with len in * by lia.
  rewrite E8, Hdp in D1, D4. rewrite E10, Hl in D3.
  rewrite capture_loop_idle by lia.
  eexists. split; [reflexivity|]. unfold returned.
  cbn [beach r_return r_exit r_posted r_env r_data r_self].
  rewrite D3. rewrite Z.add_0_l in D1. rewrite D1 in D4.
  change (Z.to_nat 0) with 0%nat in D4. cbn [firstn app] in D4.
  repeat split; auto.
  rewrite Hspill, E5, Hnil. cbn [app].
  unfold spilled. rewrite E6, E9, E3, E2, E4, Hl0, Hsz, HS, Hbpf, HB, Hw.
  destruct (Hpk Hhr) as (Hhave & Hbytes & Hfrom).
  assert (Hbpf0 : 0 < nBlockAlign (mix_format self)) by apply Hok.
  set (bpf := nBlockAlign (mix_format self)) in *.
  assert (Hwanted : len = len / bpf * bpf).
  { rewrite Z.mul_comm. apply Z.div_exact; [lia | exact Hmod]. }
  destruct (_ >? len / bpf); [|reflexivity].
  replace (_ >? overflow_buffer_size self) with true; [reflexivity|].
  symmetry. apply Z.gtb_lt. rewrite Z.mul_sub_distr_r, <- Hwanted, <- Hfrom. 
  rewrite (Hptr ltac:(lia)) in *. lia.
Qed.

(** X7, witness: a burst of 10 frames (40 bytes) meets a request for one
    frame and an overflow buffer of 32 bytes; 36 bytes are dropped. *)
Lemma oversized_burst_is_dropped_witness :
  exists r,
    gst_wasapi_src_read ex_self (repeat xee 4) 4 false
      [ex_wake [{| gb_hr := S_OK; gb_from := repeat x7f 40; gb_have_frames := 10;
                   gb_flags := 0; gb_release_failed := false |}]] = Some r /\
    r_return r = 4 /\ r_exit r = exit_beach /\ r_posted r = [] /\ r_env r = [] /\
    returned r =
      firstn (Z.to_nat 4)
        (render {| gb_hr := S_OK; gb_from := repeat x7f 40; gb_have_frames := 10;
                   gb_flags := 0; gb_release_failed := false |}) /\
    overflow_contents (r_self r) = [].
Proof.
  apply (oversized_burst_is_dropped ex_self (repeat xee 4) 4 false
           (ex_wake [{| gb_hr := S_OK; gb_from := repeat x7f 40; gb_have_frames := 10;
                        gb_flags := 0; gb_release_failed := false |}]));
    try (closed_facts; fail).
  repeat split; repeat constructor.
Defined.

(** ** Errors from the device *)

(** X8.  When the wait fails, or the first [GetBuffer] after the wait
    fails, the call returns 0 through the normal exit and posts nothing.
    The bytes it had taken from the queue at its head are already in the
    destination and out of the queue, so with a return value of 0 they are
    lost to the caller: the queue is empty afterwards. *)
Theorem device_error_returns_zero self data len start_failed w env :
  overflow_ok self ->
  0 <= len <= G_MAXUINT ->
  len <= Z.of_nat (length data) ->
  client_needs_restart self && start_failed = false ->
  overflow_buffer_length self < len ->
  (device_strid self = None -> w_default_changed w = false) ->
  failing_wake self w ->
  exists r,
    gst_wasapi_src_read self data len start_failed (w :: env) = Some r /\
    r_return r = 0 /\ r_exit r = exit_beach /\ r_posted r = [] /\
    r_env r = env /\
    placed r = overflow_contents self /\
    overflow_contents (r_self r) = [].
Proof.
  intros Hok Hlen Hdata Hstart Hmore Hchg Hfail.
  unfold gst_wasapi_src_read. rewrite Hstart.
  set (self1 := if client_needs_restart self
                then set_client_needs_restart self false else self).
  assert (Hok1 : overflow_ok self1)
    by (unfold self1; destruct (client_needs_restart self); exact Hok).
  assert (H1 : overflow_contents self1 = overflow_contents self /\
               overflow_buffer_length self1 = overflow_buffer_length self /\
               event_handle self1 = event_handle self /\
               stop_handle self1 = stop_handle self /\
               device_strid self1 = device_strid self)
    by (unfold self1; destruct (client_needs_restart self); auto).
  destruct H1 as (HO & HL & Hev & Hsp & Hdev).
  replace (if client_needs_restart self then _ else _)
    with {| l_self := self1; l_data := data; l_data_ptr := 0;
            l_wanted := len; l_length := len |}
    by (unfold self1; destruct (client_needs_restart self); reflexivity).
  pose proof (overflow_contents_length self1 Hok1) as HOl.
  destruct (restore_overflow_ok self1 data len Hok1 Hlen Hdata)
    as (Hst & _ & Hdp & Hw & Hl & Hdl & Hhead & Hrest & _).
  destruct (restore_overflow_handles
              {| l_self := self1; l_data := data; l_data_ptr := 0;
                 l_wanted := len; l_length := len |}) as (He' & Hs' & Hd').
  simpl l_self in He', Hs', Hd'.
  set (st := restore_overflow _) in *.
  assert (Hol : 0 <= overflow_buffer_length self1) by apply Hok1.
  replace (Z.min (overflow_buffer_length self1) len)
    with (overflow_buffer_length self) in * by lia.
  rewrite <- HL in Hhead, Hrest.
  rewrite (firstn_all2 (overflow_contents self1)) in Hhead by lia.
  rewrite skipn_all2 in Hrest by lia.
  cbn [capture_loop].
  replace (l_wanted st >? 0) with true
    by (symmetry; rewrite Z.gtb_ltb; apply Z.ltb_lt; lia).
  rewrite He', Hs', Hev, Hsp, Hd', Hdev.
  replace (match device_strid self with None => true | Some _ => false end
           && w_default_changed w) with false
    by (destruct (device_strid self); [reflexivity | now rewrite Hchg]).
  destruct Hfail as [Hwait | (Hwait & Hdata_ready & pk & rest & Hpk & Hhr)];
    rewrite Hwait.
  - change (WAIT_FAILED =? WAIT_OBJECT_0) with false.
    change (WAIT_FAILED =? WAIT_OBJECT_0 + 1) with false. cbv iota.
    eexists. split; [reflexivity|]. unfold placed; simpl.
    rewrite Hdp, <- HL, <- HO. repeat split; auto.
  - unfold WaitForMultipleObjects.
    replace (signaled (if w_data_ready w then SetEvent (event_handle self)
                       else event_handle self)) with true
      by (destruct (w_data_ready w);
          [reflexivity | now rewrite orb_false_r in Hdata_ready]).
    rewrite Z.eqb_refl. rewrite Hpk. cbn [drain]. rewrite Hhr. cbv iota.
    eexists. split; [reflexivity|]. unfold placed; simpl.
    rewrite Hdp, <- HL, <- HO. repeat split; auto.
Qed.

(** X8, witness: 8 bytes are queued; the next call asks for 12 and its
    wait fails. *)
Lemma device_error_returns_zero_witness :
  exists r1 r,
    gst_wasapi_src_read ex_self (repeat xee 8) 8 false [ex_wake [ex_packet]] = Some r1 /\
    overflow_contents (r_self r1) = [x09; x0a; x0b; x0c; x0d; x0e; x0f; x10] /\
    gst_wasapi_src_read (r_self r1) (repeat xee 12) 12 false
      [{| w_data_ready := false; w_stop := false; w_wait_failed := true;
          w_default_changed := false; w_post_failed := false;
          w_packets := [] |}] = Some r /\
    r_return r = 0 /\ r_exit r = exit_beach /\ r_posted r = [] /\ r_env r = [] /\
    placed r = overflow_contents (r_self r1) /\
    overflow_contents (r_self r) = [].
Proof.
  eexists.
  match goal with |- exists r, ?A = Some ?r1 /\ _ =>
    assert (E : A = Some r1) by (lazy; reflexivity)
  end.
  match type of E with _ = Some ?r1 =>
    destruct (device_error_returns_zero (r_self r1) (repeat xee 12) 12 false
                {| w_data_ready := false; w_stop := false; w_wait_failed := true;
                   w_default_changed := false; w_post_failed := false;
                   w_packets := [] |} []) as (r & W)
  end; [closed_facts | closed_facts | closed_facts | reflexivity | closed_facts
       | reflexivity | left; reflexivity |].
  exists r. split; [exact E|]. split; [reflexivity|]. exact W.
Defined.

(** ** Device loss with an explicit device *)

Lemma drain_explicit pkts : forall st e st',
  drain st pkts = (e, st') ->
  device_strid (l_self st') = device_strid (l_self st) /\
  (Forall (fun pk => gb_hr pk <> AUDCLNT_E_DEVICE_INVALIDATED) pkts ->
   e <> drain_device_disappeared).
Proof.
  induction pkts as [|pk rest IH]; intros st e st' H; simpl in H.
  - inversion H; subst. split; [reflexivity | discriminate].
  - destruct (gb_hr pk) eqn:Hhr; try (inversion H; subst; split;
      [reflexivity | intros; discriminate]).
    + assert (Hd : device_strid (l_self (capture_burst st pk)) = device_strid (l_self st))
        by (unfold capture_burst; cbv zeta; simpl; split_ifs; reflexivity).
      destruct (gb_release_failed pk).
      * inversion H; subst. split; [exact Hd | discriminate].
      * apply IH in H. destruct H as [H1 H2]. split; [congruence|].
        intros HF. inversion HF; subst. auto.
    + inversion H; subst. split; [reflexivity|].
      intros HF. inversion HF; subst. congruence.
Qed.

Lemma capture_loop_explicit env : forall st r d,
  device_strid (l_self st) = Some d ->
  Forall never_invalidated env ->
  capture_loop st env = Some r ->
  r_exit r = exit_beach /\ r_posted r = [] /\
  eos_sent (r_self r) = eos_sent (l_self st).
Proof.
  induction env as [|w env IH]; intros st r d Hd Henv H; simpl in H.
  - destruct (l_wanted st >? 0); [discriminate|]. inversion H; subst. auto.
  - destruct (l_wanted st >? 0); [|inversion H; subst; auto].
    inversion Henv as [|? ? Hw1 Henv']; subst.
    rewrite Hd in H. simpl in H.
    destruct (if w_wait_failed w then _ else _) as [[[res ev'] sp']|].
    + destruct (res =? _).
      { destruct (drain _ (w_packets w)) as [e st'] eqn:Hdr.
        destruct (drain_eos _ _ _ _ Hdr) as [He _].
        apply drain_explicit in Hdr. destruct Hdr as [Hd' Hne].
        specialize (Hne Hw1). simpl in Hd', He.
        destruct e; [|inversion H; subst; auto|congruence].
        apply (IH _ _ d) in H; auto; [|congruence].
        destruct H as (A & B & C). rewrite C, He. auto. }
      destruct (res =? _); inversion H; subst; auto.
    + apply (IH _ _ d) in H; auto.
Qed.

(** X9.  An element opened on an explicit device takes no notice of
    changes of the default device: whatever [default_changed] says and
    however the waits end, as long as [GetBuffer] itself does not report the
    device invalidated, the call leaves through the normal exit, posts no
    restart message and leaves the one-shot flag as it was. *)
Theorem explicit_device_ignores_default_change self data len start_failed env r d :
  device_strid self = Some d ->
  Forall never_invalidated env ->
  gst_wasapi_src_read self data len start_failed env = Some r ->
  r_exit r = exit_beach /\ r_posted r = [] /\ eos_sent (r_self r) = eos_sent self.
Proof.
  intros Hd Henv H. unfold gst_wasapi_src_read in H.
  destruct (_ && _).
  - inversion H; subst; simpl. auto.
  - apply (capture_loop_explicit _ _ _ d) in H; auto.
    + destruct H as (A & B & C). split; [exact A|]. split; [exact B|].
      rewrite C.
      rewrite (proj1 (restore_overflow_eos _)).
      destruct (client_needs_restart self); reflexivity.
    + rewrite (proj2 (proj2 (restore_overflow_handles _))).
      destruct (client_needs_restart self); exact Hd.
Qed.

(** X9, witness: the example element opened on a named device; the
    default device changes while it waits and the driver then delivers. *)
Lemma explicit_device_ignores_default_change_witness :
  exists r,
    gst_wasapi_src_read ex_named (repeat xee 8) 8 false
      [{| w_data_ready := true; w_stop := false; w_wait_failed := false;
          w_default_changed := true; w_post_failed := false;
          w_packets := [ex_packet] |}] = Some r /\
    r_return r = 8 /\
    r_exit r = exit_beach /\ r_posted r = [] /\
    eos_sent (r_self r) = eos_sent ex_named.
Proof.
  eexists. split; [lazy; reflexivity|]. split; [reflexivity|].
  match goal with |- r_exit ?r = _ /\ _ =>
    refine (explicit_device_ignores_default_change ex_named (repeat xee 8) 8 false
              [{| w_data_ready := true; w_stop := false; w_wait_failed := false;
                  w_default_changed := true; w_post_failed := false;
                  w_packets := [ex_packet] |}]
              r [123; 0] _ _ _)
  end.
  - reflexivity.
  - repeat constructor; discriminate.
  - vm_compute. reflexivity.
Defined.

(** ** A request that is not a whole number of frames *)

Lemma capture_burst_wanted st pk :
  locals_ok st ->
  gb_hr pk = S_OK ->
  packet_ok (nBlockAlign (mix_format (l_self st))) pk ->
  l_wanted (capture_burst st pk) mod nBlockAlign (mix_format (l_self st))
  = l_wanted st mod nBlockAlign (mix_format (l_self st)).
Proof.
  intros (Hov & Hp & Hw & Hd) Hhr Hpk.
  destruct (Hpk Hhr) as (Hhave & Hbytes & Hfrom). clear Hpk.
  destruct Hov as (_ & _ & _ & _ & _ & _ & Hbpf).
  unfold capture_burst. cbv zeta. simpl.
  set (bpf := nBlockAlign (mix_format (l_self st))) in *.
  set (have := gb_have_frames pk) in *.
  set (want := l_wanted st / bpf).
  assert (Hwant : 0 <= want) by (apply Z.div_pos; lia).
  assert (Hwm : want * bpf <= l_wanted st)
    by (unfold want; rewrite Z.mul_comm; apply Z.mul_div_le; lia).
  assert (Hn : 0 <= Z.min have want * bpf <= want * bpf) by nia.
  rewrite (guint_small (Z.min have want * bpf)) by (unfold G_MAXUINT in *; lia).
  rewrite guint_small by (unfold G_MAXUINT in *; lia).
  replace (l_wanted st - Z.min have want * bpf)
    with (l_wanted st + (- Z.min have want) * bpf) by lia.
  apply Z_mod_plus_full.
Qed.

Lemma drain_partial pkts : forall st,
  locals_ok st ->
  overflow_buffer_ptr (l_self st) = 0 ->
  Forall (packet_ok (nBlockAlign (mix_format (l_self st)))) pkts ->
  Forall packet_clean pkts ->
  exists st',
    drain st pkts = (drain_break, st') /\
    locals_ok st' /\ overflow_buffer_ptr (l_self st') = 0 /\
    nBlockAlign (mix_format (l_self st')) = nBlockAlign (mix_format (l_self st)) /\
    l_wanted st' mod nBlockAlign (mix_format (l_self st))
    = l_wanted st mod nBlockAlign (mix_format (l_self st)).
Proof.
  induction pkts as [|pk rest IH]; intros st Hok Hptr Hpk Hcl; simpl.
  - exists st. auto.
  - inversion Hpk as [|? ? Hpk1 Hpk2]; subst.
    inversion Hcl as [|? ? [Hhr Hrel] Hcl']; subst.
    rewrite Hhr, Hrel.
    destruct (capture_burst_ok st pk Hok Hptr Hhr Hpk1)
      as (Hok' & Hptr' & (_ & _ & _ & Hb & _) & _).
    pose proof (capture_burst_wanted st pk Hok Hhr Hpk1) as Hm.
    destruct (IH (capture_burst st pk)) as (st' & D1 & D2 & D3 & D4 & D5); auto.
    + rewrite Hb. exact Hpk2.
    + exists st'. rewrite Hb in D4, D5.
      split; [exact D1|]. split; [exact D2|]. split; [exact D3|].
      split; [exact D4|]. congruence.
Qed.

Lemma capture_loop_partial env : forall st,
  locals_ok st ->
  overflow_buffer_ptr (l_self st) = 0 ->
  l_wanted st mod nBlockAlign (mix_format (l_self st)) <> 0 ->
  Forall clean_wake env ->
  Forall (wake_ok (nBlockAlign (mix_format (l_self st)))) env ->
  capture_loop st env = None.
Proof.
  induction env as [|w env IH]; intros st Hok Hptr Hmod Hcl Hwok.
  - assert (Hw : 0 < l_wanted st).
    { destruct Hok as (_ & _ & Hw & _).
      destruct (Z.eq_dec (l_wanted st) 0) as [E|]; [|lia].
      rewrite E in Hmod. now rewrite Z.mod_0_l in Hmod. }
    simpl. replace (l_wanted st >? 0) with true
      by (symmetry; rewrite Z.gtb_ltb; apply Z.ltb_lt; lia).
    reflexivity.
  - assert (Hw : 0 < l_wanted st).
    { destruct Hok as (_ & _ & Hw & _).
      destruct (Z.eq_dec (l_wanted st) 0) as [E|]; [|lia].
      rewrite E in Hmod. now rewrite Z.mod_0_l in Hmod. }
    inversion Hcl as [|? ? Hc1 Hcl']; subst.
    inversion Hwok as [|? ? Hw1 Hwok']; subst.
    destruct (capture_loop_clean_wake st w env Hc1 Hw) as (ev & sp & ->).
    destruct (set_events_locals st ev sp)
      as (E1 & E2 & E3 & E4 & E5 & E6 & E7 & E8 & E9 & E10).
    set (st1 := set_self st (set_events (l_self st) ev sp)) in *.
    destruct Hc1 as (_ & _ & _ & Hpc).
    assert (P1 : overflow_buffer_ptr (l_self st1) = 0)
      by (rewrite E2; exact Hptr).
    assert (P2 : Forall (packet_ok (nBlockAlign (mix_format (l_self st1))))
                   (w_packets w))
      by (rewrite E6; exact Hw1).
    destruct (drain_partial (w_packets w) st1 (E1 Hok) P1 P2 Hpc)
      as (st' & -> & D2 & D3 & D4 & D5).
    apply IH; auto.
    + rewrite D4. rewrite E6, E9 in D5. rewrite E6, D5. exact Hmod.
    + rewrite D4, E6. exact Hwok'.
Qed.

(** X10.  A request that is not a whole number of frames cannot be filled
    from the device: the loop copies whole frames only, so after every
    clean wake some bytes are still wanted, and however many clean wakes
    follow and however much they bring, the call is still waiting when they
    are used up.  Such a call ends only through the stop signal, an error
    or device loss. *)
Theorem partial_frame_request_never_returns self data len start_failed env :
  overflow_ok self ->
  overflow_buffer_length self = 0 ->
  client_needs_restart self && start_failed = false ->
  0 < len <= G_MAXUINT ->
  len <= Z.of_nat (length data) ->
  len mod nBlockAlign (mix_format self) <> 0 ->
  Forall clean_wake env ->
  Forall (wake_ok (nBlockAlign (mix_format self))) env ->
  gst_wasapi_src_read self data len start_failed env = None.
Proof.
  intros Hok Hempty Hstart Hlen Hdata Hmod Hclean Hwok.
  unfold gst_wasapi_src_read. rewrite Hstart.
  set (self1 := if client_needs_restart self
                then set_client_needs_restart self false else self).
  assert (Hok1 : overflow_ok self1)
    by (unfold self1; destruct (client_needs_restart self); exact Hok).
  assert (H1 : overflow_buffer_length self1 = overflow_buffer_length self /\
               nBlockAlign (mix_format self1) = nBlockAlign (mix_format self))
    by (unfold self1; destruct (client_needs_restart self); auto).
  destruct H1 as (HL & HB).
  replace (if client_needs_restart self then _ else _)
    with {| l_self := self1; l_data := data; l_data_ptr := 0;
            l_wanted := len; l_length := len |}
    by (unfold self1; destruct (client_needs_restart self); reflexivity).
  destruct (restore_overflow_ok self1 data len Hok1) as
    (Hst & Hptr & Hdp & Hw & Hl & Hdl & _ & Hrest & Hbpf); [lia|lia|].
  set (st := restore_overflow _) in *.
  rewrite HL, Hempty in Hw.
  replace (Z.min 0 len) with 0 in * by lia.
  apply capture_loop_partial; auto.
  - apply Hptr. lia.
  - rewrite Hbpf, HB, Hw. replace (len - 0) with len by lia. exact Hmod.
  - rewrite Hbpf, HB. exact Hwok.
Qed.

(** X10, witness: a request for 6 bytes with frames of 4 bytes, and three
    bursts of 16 bytes. *)
Lemma partial_frame_request_never_returns_witness :
  gst_wasapi_src_read ex_self (repeat xee 6) 6 false
    [ex_wake [ex_packet]; ex_wake [ex_packet]; ex_wake [ex_packet]] = None.
Proof.
  apply (partial_frame_request_never_returns ex_self (repeat xee 6) 6 false).
  - closed_facts.
  - closed_facts.
  - closed_facts.
  - closed_facts.
  - closed_facts.
  - closed_facts.
  - repeat constructor.
  - repeat constructor; closed_facts.
Defined.

(** ** The offset calculator and the read position *)

(** X11.  The offset calculator never moves the read position backwards.
    It either keeps [next_sample], or jumps forward to the start of the
    segment the producer is writing; and a jump skips more than
    [total_segments - 1] whole segments of samples. *)
Theorem get_offset_never_goes_back src :
  let sps := samples_per_seg (ringbuffer src) in
  let cws := current_write_segment src in
  let total := spec_segtotal (ringbuffer src) in
  0 < sps <= G_MAXINT ->
  0 <= cws <= G_MAXINT ->
  0 <= next_sample src < G_MAXUINT64 ->
  next_sample src / sps <= G_MAXINT ->
  0 < total ->
  next_sample src <= gst_audio_base_src_get_offset src /\
  (gst_audio_base_src_get_offset src <> next_sample src ->
   gst_audio_base_src_get_offset src = cws * sps /\
   (total - 1) * sps < gst_audio_base_src_get_offset src - next_sample src).
Proof.
  intros sps cws total Hsps Hcws Hns Hseg Htotal.
  rewrite (get_offset_sequential src Hsps Hcws Hns Hseg).
  fold sps cws total.
  pose proof (Z.div_mod (next_sample src) sps ltac:(lia)) as Hdm.
  pose proof (Z.mod_pos_bound (next_sample src) sps ltac:(lia)) as Hmb.
  destruct (_ >=? total) eqn:Hlap.
  - apply Z.geb_le in Hlap.
    assert (next_sample src < cws * sps - (total - 1) * sps) by nia.
    split; [nia|]. intros _. split; [reflexivity | lia].
  - split; [lia|]. intros H. now elim H.
Qed.

(** X11, witness: the example source, 3 segments behind a ring of 3. *)
Lemma get_offset_never_goes_back_witness :
  next_sample ex_src <= gst_audio_base_src_get_offset ex_src /\
  (gst_audio_base_src_get_offset ex_src <> next_sample ex_src ->
   gst_audio_base_src_get_offset ex_src
   = current_write_segment ex_src * samples_per_seg (ringbuffer ex_src) /\
   (spec_segtotal (ringbuffer ex_src) - 1) * samples_per_seg (ringbuffer ex_src)
   < gst_audio_base_src_get_offset ex_src - next_sample ex_src).
Proof.
  apply (get_offset_never_goes_back ex_src); closed_facts.
Defined.

(** X12.  Resolving the read position is idempotent: once [next_sample]
    has been set to what the offset calculator returned, the calculator
    returns it again for as long as the producer has not moved.  This holds
    for the sentinel of a first pull as well. *)
Theorem get_offset_idempotent src :
  let sps := samples_per_seg (ringbuffer src) in
  let cws := current_write_segment src in
  0 < sps <= G_MAXINT ->
  0 <= cws <= G_MAXINT ->
  0 <= next_sample src <= G_MAXUINT64 ->
  (next_sample src <> G_MAXUINT64 -> next_sample src / sps <= G_MAXINT) ->
  0 < spec_segtotal (ringbuffer src) ->
  gst_audio_base_src_get_offset
    (set_next_sample src (gst_audio_base_src_get_offset src))
  = gst_audio_base_src_get_offset src.
Proof.
  intros sps cws Hsps Hcws Hns Hseg Htotal.
  assert (Hjump : gst_audio_base_src_get_offset (set_next_sample src (cws * sps))
                  = cws * sps).
  { rewrite get_offset_sequential; simpl; fold sps; auto.
    - unfold current_write_segment; simpl. fold (current_write_segment src).
      fold cws. rewrite Z.div_mul by lia.
      replace (cws - cws >=? _) with false; [reflexivity|].
      symmetry. rewrite Z.geb_leb. apply Z.leb_gt. lia.
    - unfold G_MAXINT, G_MAXUINT64 in *. nia.
    - rewrite Z.div_mul by lia. lia. }
  destruct (Z.eq_dec (next_sample src) G_MAXUINT64) as [Hfirst | Hnot].
  - rewrite (get_offset_first_sample src Hsps Hcws Hfirst). exact Hjump.
  - assert (Hns' : 0 <= next_sample src < G_MAXUINT64) by lia.
    rewrite (get_offset_sequential src Hsps Hcws Hns' (Hseg Hnot)).
    fold sps cws.
    destruct (_ >=? _) eqn:Hlap; [exact Hjump|].
    rewrite get_offset_sequential; simpl; fold sps; auto.
    unfold current_write_segment; simpl. fold (current_write_segment src).
    fold cws. now rewrite Hlap.
Qed.

(** X12, witness: the example source, whose position is resolved to the
    write position 10. *)
Lemma get_offset_idempotent_witness :
  gst_audio_base_src_get_offset ex_src = 10 /\
  gst_audio_base_src_get_offset
    (set_next_sample ex_src (gst_audio_base_src_get_offset ex_src))
  = gst_audio_base_src_get_offset ex_src.
Proof.
  split; [reflexivity|].
  apply (get_offset_idempotent ex_src); closed_facts.
Defined.

(** ** A pull and the read position *)

Lemma create_done_start self offset length env r :
  gst_audio_base_src_create self offset length env = Some r ->
  cr_exit r = done ->
  exists sample samples rb_timestamp requests,
    read_loop (e_reads env) (create_start (parent self) offset)
      (create_samples (parent self) length) true GST_CLOCK_TIME_NONE
      = Some (loop_done sample samples rb_timestamp, requests) /\
    r = create_finish self env (next_sample (parent self) =? G_MAXUINT64)
          (create_samples (parent self) length) sample samples rb_timestamp requests.
Proof.
  unfold gst_audio_base_src_create, create_start, create_samples. intros H Hd.
  destruct (negb (acquired _)); [inversion H; subst; discriminate|].
  destruct (_ && _); [inversion H; subst; discriminate|].
  destruct (negb (is_flow_ok _)); [inversion H; subst; discriminate|].
  destruct (read_loop _ _ _ _ _) as [[[s n ts| |] rq]|] eqn:Hl;
    try (inversion H; subst; discriminate).
  inversion H; subst. eauto 10.
Qed.

Lemma create_samples_range src length :
  0 <= create_samples src length <= G_MAXUINT.
Proof.
  unfold create_samples.
  assert (H : forall x, 0 <= guint x <= G_MAXUINT) by apply guint_range.
  assert (Hl : 0 <= create_length src length <= G_MAXUINT)
    by (unfold create_length; destruct (_ || _); apply H).
  pose proof (H (spec_bpf (ringbuffer src))) as Hb.
  destruct (Z.eq_dec (guint (spec_bpf (ringbuffer src))) 0) as [E|E].
  - rewrite E, Z.div_0_r. unfold G_MAXUINT. lia.
  - split; [apply Z.div_pos; lia|].
    apply Z.le_trans with (create_length src length); [|lia].
    apply Z.div_le_upper_bound; [lia|]. nia.
Qed.

(** The samples still to read, counted from where the loop stands, end
    where the pull was to end all along. *)
Lemma read_loop_sum reads : forall sample samples first ts s n t reqs,
  0 <= sample ->
  0 <= samples <= G_MAXUINT ->
  sample + samples <= G_MAXUINT64 ->
  ring_reads_ok reads samples ->
  read_loop reads sample samples first ts = Some (loop_done s n t, reqs) ->
  sample <= s /\ 0 <= n /\ s + n = sample + samples /\
  Forall (fun q => sample <= fst q /\ 0 <= snd q /\
                   fst q + snd q = sample + samples) reqs /\
  (length reqs = 1%nat -> s = sample).
Proof.
  induction reads as [|rd rest IH];
    intros sample samples first ts s n t reqs Hs Hn Hsum Hok H; simpl in H;
    [discriminate|].
  destruct Hok as [Hrd Hok].
  destruct (rd_read rd =? samples) eqn:Hall.
  - inversion H; subst. repeat split; auto; try lia.
    constructor; [simpl; lia | constructor].
  - destruct (rd_state_error rd); [discriminate|].
    destruct (negb _); [discriminate|].
    rewrite (guint64_small (sample + rd_read rd)) in H by lia.
    rewrite (guint_small (samples - rd_read rd)) in H by lia.
    destruct (read_loop rest _ _ _ _) as [[e rq]|] eqn:Hl; [|discriminate].
    inversion H; subst.
    destruct (read_loop_first_request _ _ _ _ _ _ _ Hl) as [rest' Hr].
    apply IH in Hl; auto; try lia.
    destruct Hl as (A & B & C & D & E).
    split; [lia|]. split; [lia|]. split; [lia|]. split.
    + constructor; [simpl; lia|].
      eapply Forall_impl; [|exact D]. simpl. intros q (Q1 & Q2 & Q3). lia.
    + rewrite Hr. simpl. discriminate.
Qed.

Lemma create_finish_self self env first total sample samples ts requests :
  may_resync self env = false ->
  cr_self (create_finish self env first total sample samples ts requests)
  = set_parent self (set_next_sample (parent self) (guint64 (sample + samples))).
Proof.
  unfold may_resync, create_finish. intros Hm.
  destruct (e_clock env) as [clock|]; [|reflexivity].
  destruct (is_src_clock clock); simpl in Hm.
  - rewrite andb_false_r. reflexivity.
  - destruct (negb (GST_CLOCK_TIME_IS_VALID ts)); [|reflexivity].
    simpl. destruct (slave_method (parent self)); try discriminate; reflexivity.
Qed.

Lemma create_finish_offsets self env first total sample samples ts requests :
  let r := create_finish self env first total sample samples ts requests in
  let rate := spec_rate (ringbuffer (parent self)) in
  exists b, cr_outbuf r = Some b /\
    buf_offset b = sample /\
    buf_offset_end b = guint64 (sample + samples) /\
    buf_duration b =
      guint64 (gst_util_uint64_scale_int (guint64 (sample + samples)) GST_SECOND rate
               - gst_util_uint64_scale_int sample GST_SECOND rate) /\
    buf_discont b = negb (sample =? next_sample (parent self))
                    && negb (next_sample (parent self) =? G_MAXUINT64) /\
    cr_posted r =
      (if buf_discont b
       then [warning_core_clock (guint64 (sample - next_sample (parent self)))]
       else []) /\
    cr_requests r = requests /\
    (e_clock env = None ->
     buf_timestamp b = gst_util_uint64_scale_int sample GST_SECOND rate).
Proof.
  unfold create_finish.
  destruct (e_clock env) as [clock|] eqn:Hc.
  - destruct (if _ && _ then _ else _) as [self' t].
    simpl. eexists. repeat split. discriminate.
  - simpl. eexists. repeat split.
Qed.

(** The last request of a loop that ends normally is the one the loop
    returns: the sample and the count that the buffer is then built from. *)
Lemma read_loop_last reads : forall sample samples first ts s n t reqs,
  read_loop reads sample samples first ts = Some (loop_done s n t, reqs) ->
  exists earlier, reqs = earlier ++ [(s, n)].
Proof.
  induction reads as [|rd rest IH]; intros sample samples first ts s n t reqs H;
    simpl in H; [discriminate|].
  destruct (rd_read rd =? samples).
  - inversion H; subst. exists []. reflexivity.
  - destruct (rd_state_error rd); [discriminate|].
    destruct (negb _); [discriminate|].
    destruct (read_loop rest _ _ _ _) as [[e rq]|] eqn:Hl; [|discriminate].
    inversion H; subst.
    destruct (IH _ _ _ _ _ _ _ _ Hl) as [earlier ->].
    exists ((sample, samples) :: earlier). reflexivity.
Qed.

(** X13.  A pull that hands out a buffer has read exactly what it set out
    to read, also when the ring buffer returned it in pieces: every request
    of the loop ends at [start + total], the buffer's end offset is
    [start + total], and unless clock slaving moves it the next read
    position is [start + total] too.  The buffer's start offset, though, is
    the sample of the loop's last request, and the buffer spans that last
    request only: its offset is [start] when the loop made one request, and
    it is never before [start]. *)
Theorem pull_advances_by_request self offset length env r b :
  let src := parent self in
  let start := create_start src offset in
  let total := create_samples src length in
  gst_audio_base_src_create self offset length env = Some r ->
  cr_exit r = done ->
  cr_outbuf r = Some b ->
  0 <= start ->
  start + total <= G_MAXUINT64 ->
  ring_reads_ok (e_reads env) total ->
  buf_offset_end b = start + total /\
  start <= buf_offset b <= start + total /\
  Forall (fun q => start <= fst q /\ fst q + snd q = start + total) (cr_requests r) /\
  (exists earlier,
     cr_requests r = earlier ++ [(buf_offset b, buf_offset_end b - buf_offset b)]) /\
  (List.length (cr_requests r) = 1%nat -> buf_offset b = start) /\
  (may_resync self env = false ->
   next_sample (parent (cr_self r)) = start + total).
Proof.
  intros src start total H Hd Hb Hstart Hsum Hreads.
  destruct (create_done_start _ _ _ _ _ H Hd) as (s & n & ts & rq & Hl & ->).
  fold src start total in Hl.
  pose proof (create_samples_range src length) as Htot. fold total in Htot.
  destruct (read_loop_last _ _ _ _ _ _ _ _ _ Hl) as [earlier Hlast].
  destruct (read_loop_sum _ _ _ _ _ _ _ _ _ Hstart Htot Hsum Hreads Hl)
    as (A & B & C & D & E).
  destruct (create_finish_offsets self env (next_sample (parent self) =? G_MAXUINT64)
              total s n ts rq) as (b' & Hb' & O1 & O2 & _ & _ & _ & O7 & _).
  assert (Hbb : Some b = Some b') by (rewrite <- Hb; exact Hb').
  inversion Hbb; subst b'. clear Hbb Hb'.
  rewrite O1, O2.
  change (cr_requests (create_finish self env (next_sample (parent self) =? G_MAXUINT64)
                         (create_samples (parent self) length) s n ts rq))
    with (cr_requests (create_finish self env (next_sample (parent self) =? G_MAXUINT64)
                         total s n ts rq)).
  rewrite O7.
  rewrite guint64_small by lia.
  split; [lia|]. split; [lia|]. split.
  - eapply Forall_impl; [|exact D]. simpl. intros q (Q1 & Q2 & Q3). lia.
  - split.
    { exists earlier. rewrite Hlast. do 3 f_equal. lia. }
    split; [exact E|].
    intros Hm. rewrite create_finish_self by exact Hm. simpl.
    rewrite guint64_small by lia. lia.
Qed.

(** X13, witness: the example element resolves its position to sample 10
    and asks for 2 samples, which the ring buffer returns one at a time.
    The buffer ends at 12 and so does the read position, but the buffer's
    own offset is 11. *)
Lemma pull_advances_by_request_witness :
  exists r b,
    gst_audio_base_src_create ex_self G_MAXUINT64 0 ex_split_env = Some r /\
    cr_outbuf r = Some b /\
    buf_offset b = 11 /\ buf_offset_end b = 12 /\
    cr_requests r = [(10, 2); (11, 1)] /\
    buf_offset_end b = create_start (parent ex_self) G_MAXUINT64
                       + create_samples (parent ex_self) 0 /\
    (exists earlier,
       cr_requests r = earlier ++ [(buf_offset b, buf_offset_end b - buf_offset b)]) /\
    next_sample (parent (cr_self r))
    = create_start (parent ex_self) G_MAXUINT64 + create_samples (parent ex_self) 0.
Proof.
  do 2 eexists. split; [lazy; reflexivity|].
  do 4 (split; [reflexivity|]).
  match goal with |- buf_offset_end ?b = _ /\ _ /\ next_sample (parent (cr_self ?r)) = _ =>
    pose proof (pull_advances_by_request ex_self G_MAXUINT64 0 ex_split_env r b) as W
  end.
  cbv zeta in W.
  destruct W as (W1 & _ & _ & W4 & _ & W5).
  - vm_compute. reflexivity.
  - reflexivity.
  - reflexivity.
  - closed_facts.
  - closed_facts.
  - closed_facts.
  - split; [exact W1 |]. split; [exact W4 | apply W5; reflexivity].
Defined.

(** ** A pull hands out a whole buffer or none *)

(** X14.  A pull either succeeds altogether or has no effect on the
    element: it returns [GST_FLOW_OK] exactly when it leaves through the
    normal exit, and then it hands out a buffer; on every other exit
    (wrong state, wrong offset, failed allocation, stopped, ring buffer
    error) the flow return is not [GST_FLOW_OK], no buffer is handed out,
    however many samples had been read already, and the element, its read
    position included, is as it was. *)
Theorem create_all_or_nothing self offset length env r :
  gst_audio_base_src_create self offset length env = Some r ->
  (cr_exit r = done /\ cr_flow r = GST_FLOW_OK /\ exists b, cr_outbuf r = Some b) \/
  (cr_exit r <> done /\ cr_flow r <> GST_FLOW_OK /\ cr_outbuf r = None /\
   cr_self r = self).
Proof.
  unfold gst_audio_base_src_create. intros H.
  destruct (negb (acquired _));
    [inversion H; subst; right; simpl; repeat split; discriminate|].
  destruct (_ && _);
    [inversion H; subst; right; simpl; repeat split; discriminate|].
  destruct (negb (is_flow_ok _)) eqn:Ha.
  { inversion H; subst; right; simpl. repeat split; try discriminate.
    intros E. rewrite E in Ha. discriminate. }
  destruct (read_loop _ _ _ _ _) as [[[s n ts| |] rq]|];
    try (inversion H; subst; right; simpl; repeat split; discriminate).
  inversion H; subst. left.
  destruct (create_finish_buffer self env (next_sample (parent self) =? G_MAXUINT64)
              (create_length (parent self) length
               / guint (spec_bpf (ringbuffer (parent self)))) s n ts rq)
    as (A & B & _ & b & C & _).
  eauto.
Qed.

(** X14, witness: a pull interrupted after one sample and then stopped. *)
Lemma create_all_or_nothing_witness :
  exists r,
    gst_audio_base_src_create ex_self G_MAXUINT64 0
      {| e_alloc := GST_FLOW_OK;
         e_reads := [ {| rd_read := 1; rd_timestamp := GST_CLOCK_TIME_NONE;
                         rd_state_error := false;
                         rd_wait_playing := GST_FLOW_FLUSHING |} ];
         e_clock := None |} = Some r /\
    cr_requests r = [(10, 2)] /\
    ((cr_exit r = done /\ cr_flow r = GST_FLOW_OK /\ exists b, cr_outbuf r = Some b) \/
     (cr_exit r <> done /\ cr_flow r <> GST_FLOW_OK /\ cr_outbuf r = None /\
      cr_self r = ex_self)).
Proof.
  eexists. split; [lazy; reflexivity|]. split; [reflexivity|].
  refine (create_all_or_nothing ex_self G_MAXUINT64 0
            {| e_alloc := GST_FLOW_OK;
               e_reads := [ {| rd_read := 1; rd_timestamp := GST_CLOCK_TIME_NONE;
                               rd_state_error := false;
                               rd_wait_playing := GST_FLOW_FLUSHING |} ];
               e_clock := None |} _ _).
  vm_compute. reflexivity.
Defined.

(** ** Discontinuities *)

(** X15.  A pull that leaves the offset to the element is flagged as a
    discontinuity exactly when the consumer had been lapped: when the
    producer is [total_segments] or more ahead of [next_sample], the buffer
    starts at the write position, carries the DISCONT flag, and one
    [CORE/CLOCK] warning reports [write position - next_sample] dropped
    samples; otherwise the buffer starts at [next_sample], is not flagged,
    and nothing is posted. *)
Theorem pull_is_discont_iff_lapped self length env rd rest :
  let src := parent self in
  let sps := samples_per_seg (ringbuffer src) in
  let cws := current_write_segment src in
  let lapped := cws - next_sample src / sps >=? spec_segtotal (ringbuffer src) in
  acquired (ringbuffer src) = true ->
  0 < sps <= G_MAXINT ->
  0 <= cws <= G_MAXINT ->
  0 <= next_sample src < G_MAXUINT64 ->
  next_sample src / sps <= G_MAXINT ->
  0 < spec_segtotal (ringbuffer src) ->
  is_flow_ok (e_alloc env) = true ->
  e_reads env = rd :: rest ->
  rd_read rd = create_samples src length ->
  exists r b,
    gst_audio_base_src_create self G_MAXUINT64 length env = Some r /\
    cr_exit r = done /\ cr_outbuf r = Some b /\
    buf_offset b = (if lapped then cws * sps else next_sample src) /\
    buf_discont b = lapped /\
    cr_posted r =
      (if lapped then [warning_core_clock (cws * sps - next_sample src)] else []).
Proof.
  intros src sps cws lapped Hacq Hsps Hcws Hns Hseg Htotal Halloc Hreads Hread.
  rewrite (create_succeeds self G_MAXUINT64 length env rd rest Hacq); auto;
    [|intros Ho; now elim Ho].
  change (negb (G_MAXUINT64 =? G_MAXUINT64)) with false. cbv iota.
  fold src.
  set (samples := create_length src length / guint (spec_bpf (ringbuffer src))).
  set (ts := if GST_CLOCK_TIME_IS_VALID (rd_timestamp rd) then _ else _).
  pose proof (get_offset_sequential src Hsps Hcws Hns Hseg) as Ho.
  fold sps cws lapped in Ho.
  set (o := gst_audio_base_src_get_offset src) in *.
  destruct (create_finish_offsets self env (next_sample src =? G_MAXUINT64) samples
              o samples ts [(o, samples)])
    as (b & Hb & O1 & _ & _ & O5 & O6 & _).
  destruct (create_finish_buffer self env (next_sample src =? G_MAXUINT64) samples
              o samples ts [(o, samples)])
    as (_ & Hexit & _).
  fold src in O5, O6.
  replace (next_sample src =? G_MAXUINT64) with false in O5
    by (symmetry; apply Z.eqb_neq; lia).
  pose proof (Z.div_mod (next_sample src) sps ltac:(lia)) as Hdm.
  pose proof (Z.mod_pos_bound (next_sample src) sps ltac:(lia)) as Hmb.
  assert (Hfar : lapped = true -> next_sample src < cws * sps).
  { unfold lapped. intros Hl. apply Z.geb_le in Hl. nia. }
  eexists. exists b. split; [reflexivity|].
  split; [exact Hexit|]. split; [exact Hb|].
  rewrite O6, O5, O1, Ho. clear O1 O5 O6 Hb Hexit.
  destruct lapped.
  - specialize (Hfar eq_refl).
    replace (cws * sps =? next_sample src) with false
      by (symmetry; apply Z.eqb_neq; lia).
    split; [reflexivity|]. split; [reflexivity|]. simpl.
    rewrite guint64_small by (unfold G_MAXINT, G_MAXUINT64 in *; nia).
    reflexivity.
  - rewrite Z.eqb_refl. repeat split.
Qed.

(** X15, witness: the example element is 4 segments behind on a ring of
    3: the pull jumps from sample 2 to sample 10 and reports 8 dropped
    samples. *)
Lemma pull_is_discont_iff_lapped_witness :
  exists r b,
    gst_audio_base_src_create ex_self G_MAXUINT64 0 ex_plain_env = Some r /\
    cr_exit r = done /\ cr_outbuf r = Some b /\
    buf_offset b = 10 /\ buf_discont b = true /\
    cr_posted r = [warning_core_clock 8].
Proof.
  apply (pull_is_discont_iff_lapped ex_self 0 ex_plain_env ex_read []);
    closed_facts.
Defined.

(** ** Timestamps and durations *)

Lemma scale_is_sample_time x rate :
  0 <= x -> 0 < rate -> sample_time x rate <= G_MAXUINT64 ->
  gst_util_uint64_scale_int x GST_SECOND rate = sample_time x rate.
Proof.
  unfold gst_util_uint64_scale_int, sample_time. intros Hx Hr Hfit. cbv zeta.
  replace (_ <=? G_MAXUINT64) with true; [reflexivity|].
  symmetry. apply Z.leb_le. exact Hfit.
Qed.

Lemma sample_time_mono x y rate :
  0 < rate -> x <= y -> sample_time x rate <= sample_time y rate.
Proof.
  unfold sample_time, GST_SECOND. intros Hr Hxy.
  apply Z.div_le_mono; lia.
Qed.

Lemma sample_time_pos x rate : 0 <= x -> 0 < rate -> 0 <= sample_time x rate.
Proof.
  unfold sample_time, GST_SECOND. intros. apply Z.div_pos; lia.
Qed.

(** X16.  The duration of a buffer is the difference of two sample times,
    each rounded down on its own: the time of the buffer's end offset less
    the time of its start offset, in every slaving mode.  Without a clock
    the timestamp is the time of the start offset, so timestamp plus
    duration is the time of the end offset exactly and rounding errors do
    not add up from buffer to buffer. *)
Theorem buffer_duration_telescopes self offset length env r b :
  let rate := spec_rate (ringbuffer (parent self)) in
  gst_audio_base_src_create self offset length env = Some r ->
  cr_exit r = done ->
  cr_outbuf r = Some b ->
  0 < rate ->
  0 <= buf_offset b <= buf_offset_end b ->
  sample_time (buf_offset_end b) rate <= G_MAXUINT64 ->
  buf_duration b
  = sample_time (buf_offset_end b) rate - sample_time (buf_offset b) rate /\
  (e_clock env = None ->
   buf_timestamp b = sample_time (buf_offset b) rate /\
   buf_timestamp b + buf_duration b = sample_time (buf_offset_end b) rate).
Proof.
  intros rate H Hd Hb Hrate Hoff Hfit.
  destruct (create_done_start _ _ _ _ _ H Hd) as (s & n & ts & rq & _ & ->).
  destruct (create_finish_offsets self env (next_sample (parent self) =? G_MAXUINT64)
              (create_samples (parent self) length) s n ts rq)
    as (b' & Hb' & O1 & O2 & O3 & _ & _ & _ & O8).
  rewrite Hb in Hb'. inversion Hb'; subst b'. clear Hb'.
  fold rate in O3, O8. rewrite <- O2, <- O1 in O3. rewrite <- O1 in O8.
  pose proof (sample_time_mono _ _ rate Hrate (proj2 Hoff)) as Hmono.
  pose proof (sample_time_pos (buf_offset b) rate (proj1 Hoff) Hrate) as Hpos.
  rewrite !scale_is_sample_time in O3 by lia.
  rewrite guint64_small in O3 by lia.
  split; [exact O3|].
  intros Hc. specialize (O8 Hc).
  rewrite scale_is_sample_time in O8 by lia.
  split; [exact O8 | lia].
Qed.

(** X16, witness: the pull of the example element without a clock, from
    sample 10 to sample 12 at 48 kHz. *)
Lemma buffer_duration_telescopes_witness :
  exists r b,
    gst_audio_base_src_create ex_self G_MAXUINT64 0 ex_plain_env = Some r /\
    cr_outbuf r = Some b /\
    buf_timestamp b = 208333 /\ buf_duration b = 41667 /\
    buf_duration b
    = sample_time (buf_offset_end b) (spec_rate (ringbuffer (parent ex_self)))
      - sample_time (buf_offset b) (spec_rate (ringbuffer (parent ex_self))) /\
    buf_timestamp b + buf_duration b
    = sample_time (buf_offset_end b) (spec_rate (ringbuffer (parent ex_self))).
Proof.
  do 2 eexists. split; [lazy; reflexivity|].
  do 3 (split; [reflexivity|]).
  match goal with |- buf_duration ?b = _ /\ _ =>
    pose proof (fun r => buffer_duration_telescopes ex_self G_MAXUINT64 0
                           ex_plain_env r b) as W
  end.
  cbv zeta in W.
  edestruct W as (W1 & W2).
  - vm_compute. reflexivity.
  - reflexivity.
  - reflexivity.
  - closed_facts.
  - closed_facts.
  - closed_facts.
  - split; [exact W1 | apply W2; reflexivity].
Defined.

Lemma clock_diff_small s e :
  0 <= s <= G_MAXINT64 -> 0 <= e <= G_MAXINT64 -> GST_CLOCK_DIFF s e = e - s.
Proof.
  intros Hs He. unfold GST_CLOCK_DIFF. rewrite gint64_guint64.
  apply gint64_small. unfold G_MAXINT64 in *. lia.
Qed.

(** X17.  In the re-timestamp mode the buffer is stamped with the running
    time of the pipeline clock less the time the buffer's samples take,
    and never with less than zero:
    [max 0 (clock - base_time - latency)], where [latency] is the time of
    the [length / bpf] samples asked for.  The read position moves on by
    the samples read, as without a clock. *)
Theorem re_timestamp_is_clamped_running_time self offset length env clock r b :
  let src := parent self in
  let latency :=
    gst_util_uint64_scale_int (create_samples src length) GST_SECOND
      (spec_rate (ringbuffer src)) in
  gst_audio_base_src_create self offset length env = Some r ->
  cr_exit r = done ->
  cr_outbuf r = Some b ->
  slave_method src = GST_AUDIO_BASE_SRC_SLAVE_RE_TIMESTAMP ->
  slaved_to env clock ->
  0 <= clock_time clock <= G_MAXINT64 ->
  0 <= base_time src <= G_MAXINT64 ->
  0 < spec_rate (ringbuffer src) ->
  buf_timestamp b = Z.max 0 (clock_time clock - base_time src - latency) /\
  next_sample (parent (cr_self r)) = buf_offset_end b.
Proof.
  intros src latency H Hd Hb Hm (Hc & Hown & Hts) Hnow Hbase Hrate.
  assert (Hlat : 0 <= latency).
  { unfold latency, gst_util_uint64_scale_int. cbv zeta.
    pose proof (create_samples_range src length) as Ht.
    assert (0 <= create_samples src length * GST_SECOND / spec_rate (ringbuffer src))
      by (apply Z.div_pos; unfold GST_SECOND; lia).
    destruct (_ <=? _); [lia | unfold G_MAXUINT64; lia]. }
  destruct (create_done_start _ _ _ _ _ H Hd) as (s & n & ts & rq & Hl & ->).
  pose proof (read_loop_no_timestamp _ _ _ _ _ _ Hts Hl _ _ _ eq_refl) as ->.
  assert (Hre : may_resync self env = false).
  { unfold may_resync. fold src. rewrite Hc, Hm, Hown. reflexivity. }
  rewrite create_finish_self by exact Hre.
  unfold create_finish in Hb. rewrite Hc, Hown in Hb.
  change (GST_CLOCK_TIME_IS_VALID GST_CLOCK_TIME_NONE) with false in Hb.
  simpl negb in Hb. simpl andb in Hb. cbv iota in Hb.
  simpl slave_method in Hb. fold src in Hb. rewrite Hm in Hb.
  inversion Hb; subst b; clear Hb. simpl.
  split; [|reflexivity].
  unfold slave_re_timestamp. simpl. fold src. fold latency.
  rewrite clock_diff_small by lia.
  destruct (base_time src - clock_time clock <? 0) eqn:Hlate.
  - apply Z.ltb_lt in Hlate.
    rewrite guint64_small by (unfold G_MAXINT64, G_MAXUINT64 in *; lia).
    destruct (_ >? latency) eqn:Hgt.
    + apply Z.gtb_lt in Hgt.
      rewrite guint64_small by (unfold G_MAXINT64, G_MAXUINT64 in *; lia). lia.
    + rewrite Z.gtb_ltb in Hgt. apply Z.ltb_ge in Hgt. lia.
  - apply Z.ltb_ge in Hlate.
    replace (0 >? latency) with false
      by (symmetry; rewrite Z.gtb_ltb; apply Z.ltb_ge; lia).
    lia.
Qed.

(** X17, witness: the pipeline clock reads 1.07 s, the base time is 1 s,
    and the 2 samples of the buffer take 41666 ns at 48 kHz. *)
Lemma re_timestamp_is_clamped_running_time_witness :
  exists r b,
    gst_audio_base_src_create ex_re_timestamp G_MAXUINT64 0 ex_env = Some r /\
    cr_outbuf r = Some b /\
    buf_timestamp b = 69958334 /\
    buf_timestamp b
    = Z.max 0 (1070000000 - base_time (parent ex_re_timestamp)
               - gst_util_uint64_scale_int
                   (create_samples (parent ex_re_timestamp) 0) GST_SECOND
                   (spec_rate (ringbuffer (parent ex_re_timestamp)))) /\
    next_sample (parent (cr_self r)) = buf_offset_end b.
Proof.
  do 2 eexists. split; [lazy; reflexivity|].
  do 2 (split; [reflexivity|]).
  match goal with |- buf_timestamp ?b = _ /\ next_sample (parent (cr_self ?r)) = _ =>
    pose proof (re_timestamp_is_clamped_running_time ex_re_timestamp G_MAXUINT64 0
                  ex_env {| is_src_clock := false; clock_time := 1070000000;
                            time_offset := 0 |} r b) as W
  end.
  cbv zeta in W. apply W.
  - vm_compute. reflexivity.
  - reflexivity.
  - reflexivity.
  - reflexivity.
  - split; [reflexivity|]. split; [reflexivity|]. repeat constructor.
  - closed_facts.
  - closed_facts.
  - closed_facts.
Defined.

(** ** The skew case *)

(** The skew case over unbounded integers. *)
Lemma slave_skew_cases self clock first sample samples ts :
  let src := parent self in
  let rb := ringbuffer src in
  let sps := samples_per_seg rb in
  let cws := current_write_segment src in
  let rts := running_time_segment src clock in
  0 < sps <= G_MAXINT ->
  0 <= cws <= G_MAXINT ->
  0 <= segbase rb ->
  - 2 ^ 31 <= segdone rb <= G_MAXINT ->
  0 <= rts ->
  segbase rb + rts + 1 <= G_MAXINT ->
  0 <= samples <= G_MAXUINT ->
  slave_skew self clock first sample samples ts =
  if (rts - (cws - 1) >=? spec_segtotal rb) || (gint (sample / guint64 sps) =? 0)
     || first
  then (resynced self rts samples,
        gst_util_uint64_scale_int ((rts + 1) * sps) GST_SECOND (spec_rate rb))
  else (self, ts).
Proof.
  intros src rb sps cws rts Hsps Hcws Hbase Hdone Hrts Hfit Hsamples.
  unfold slave_skew. cbv zeta. fold src. fold rb. fold sps.
  change (gint (gst_util_uint64_scale_int (guint64 (clock_time clock - base_time src))
                  (spec_rate rb) GST_SECOND / guint64 sps)) with rts.
  assert (Hc : segdone rb - segbase rb = cws) by reflexivity.
  replace (segdone rb - segbase rb - 1) with (cws - 1) by lia.
  rewrite (gint_small (cws - 1)) by (unfold G_MAXINT in *; lia).
  rewrite (gint_small (rts - (cws - 1))) by (unfold G_MAXINT in *; lia).
  destruct (_ || _ || _); [|reflexivity].
  unfold resync, resynced. cbv zeta. fold src. fold rb. fold sps.
  rewrite (gint_small (rts - (cws - 1))) by (unfold G_MAXINT in *; lia).
  rewrite orb_true_l. cbv iota.
  unfold gst_audio_ring_buffer_advance. simpl segdone. simpl segbase.
  simpl samples_per_seg. simpl spec_rate. fold sps.
  replace (segdone rb + (rts - (cws - 1))) with (segbase rb + rts + 1) by lia.
  rewrite (gint_small (segbase rb + rts + 1)) by (unfold G_MAXINT in *; lia).
  replace (segbase rb + rts + 1 - segbase rb) with (rts + 1) by lia.
  rewrite (gint_small (rts + 1)) by (unfold G_MAXINT in *; lia).
  rewrite (guint64_small (rts + 1)) by (unfold G_MAXINT, G_MAXUINT64 in *; lia).
  rewrite (guint64_small sps) by (unfold G_MAXINT, G_MAXUINT64 in *; lia).
  assert (Hp : 0 <= (rts + 1) * sps <= 2 ^ 62) by (unfold G_MAXINT in *; nia).
  rewrite (guint64_small ((rts + 1) * sps)) by (unfold G_MAXUINT64; lia).
  rewrite (guint64_small ((rts + 1) * sps + samples))
    by (unfold G_MAXUINT, G_MAXUINT64 in *; lia).
  reflexivity.
Qed.

(** A pull in the skew mode whose first read returns everything. *)
Lemma create_skew self len env clock rd rest :
  let src := parent self in
  let rb := ringbuffer src in
  let sps := samples_per_seg rb in
  let cws := current_write_segment src in
  let rts := running_time_segment src clock in
  let o := gst_audio_base_src_get_offset src in
  let total := create_samples src len in
  let self1 := set_parent self (set_next_sample src (o + total)) in
  let cond := (rts - (cws - 1) >=? spec_segtotal rb)
              || (gint (o / guint64 sps) =? 0)
              || (next_sample src =? G_MAXUINT64) in
  slave_method src = GST_AUDIO_BASE_SRC_SLAVE_SKEW ->
  slaved_to env clock ->
  acquired rb = true ->
  0 < sps <= G_MAXINT ->
  0 <= cws <= G_MAXINT ->
  0 <= segbase rb ->
  - 2 ^ 31 <= segdone rb <= G_MAXINT ->
  0 <= rts ->
  segbase rb + rts + 1 <= G_MAXINT ->
  0 <= o ->
  o + total <= G_MAXUINT64 ->
  is_flow_ok (e_alloc env) = true ->
  e_reads env = rd :: rest ->
  rd_read rd = total ->
  exists r b,
    gst_audio_base_src_create self G_MAXUINT64 len env = Some r /\
    cr_exit r = done /\ cr_outbuf r = Some b /\
    cr_self r = (if cond then resynced self1 rts total else self1) /\
    buf_offset b = o /\
    buf_discont b = negb (o =? next_sample src)
                    && negb (next_sample src =? G_MAXUINT64).
Proof.
  intros src rb sps cws rts o total self1 cond Hm (Hc & Hown & Hts) Hacq Hsps Hcws
         Hbase Hdone Hrts Hfit Ho Hsum Halloc Hreads Hread.
  rewrite (create_succeeds self G_MAXUINT64 len env rd rest Hacq); auto;
    [|intros Hx; now elim Hx].
  change (negb (G_MAXUINT64 =? G_MAXUINT64)) with false. cbv iota.
  fold src. fold o.
  change (create_length src len / guint (spec_bpf (ringbuffer src))) with total.
  rewrite Hreads in Hts. apply Forall_inv in Hts. rewrite Hts.
  change (GST_CLOCK_TIME_IS_VALID GST_CLOCK_TIME_NONE) with false. cbv iota.
  pose proof (create_samples_range src len) as Htot. fold total in Htot.
  unfold create_finish. rewrite Hc, Hown.
  change (GST_CLOCK_TIME_IS_VALID GST_CLOCK_TIME_NONE) with false.
  simpl negb. simpl andb. cbv iota.
  simpl slave_method. fold src. rewrite Hm.
  rewrite (guint64_small (o + total)) by lia.
  fold self1.
  rewrite (slave_skew_cases self1 clock (next_sample src =? G_MAXUINT64) o total
             (gst_util_uint64_scale_int o GST_SECOND (spec_rate (ringbuffer src)))
             Hsps Hcws Hbase Hdone Hrts Hfit Htot).
  change (running_time_segment (parent self1) clock) with rts.
  change (current_write_segment (parent self1)) with cws.
  change (ringbuffer (parent self1)) with rb.
  fold sps. fold cond.
  destruct cond; simpl; eexists; eexists; repeat split.
Qed.

Ltac unfold_locals := repeat match goal with x := _ |- _ => subst x end.
Ltac ulia := unfold_locals; lia.
Ltac unia := unfold_locals; nia.

Lemma div_bound_small x sps :
  0 < sps <= G_MAXINT -> 0 <= x -> x / sps <= G_MAXINT -> x < 2 ^ 62.
Proof.
  intros Hsps Hx Hq.
  pose proof (Z.div_mod x sps ltac:(lia)) as Hdm.
  pose proof (Z.mod_pos_bound x sps ltac:(lia)) as Hmb.
  unfold G_MAXINT in *. nia.
Qed.

(** A pull in the skew mode that finds nothing to correct: the producer
    has not lapped the read position, the running time is less than
    [total_segments] ahead of the last written segment, and the read
    position is past the first segment. *)
Lemma create_skew_settled self len env clock rd rest :
  let src := parent self in
  let rb := ringbuffer src in
  let sps := samples_per_seg rb in
  let cws := current_write_segment src in
  let rts := running_time_segment src clock in
  let ns := next_sample src in
  let total := create_samples src len in
  slave_method src = GST_AUDIO_BASE_SRC_SLAVE_SKEW ->
  slaved_to env clock ->
  acquired rb = true ->
  0 < sps <= G_MAXINT ->
  0 <= cws <= G_MAXINT ->
  0 <= segbase rb ->
  - 2 ^ 31 <= segdone rb <= G_MAXINT ->
  0 <= rts ->
  segbase rb + rts + 1 <= G_MAXINT ->
  0 <= ns < G_MAXUINT64 ->
  1 <= ns / sps <= G_MAXINT ->
  cws - ns / sps < spec_segtotal rb ->
  rts - (cws - 1) < spec_segtotal rb ->
  ns + total <= G_MAXUINT64 ->
  is_flow_ok (e_alloc env) = true ->
  e_reads env = rd :: rest ->
  rd_read rd = total ->
  exists r b,
    gst_audio_base_src_create self G_MAXUINT64 len env = Some r /\
    cr_exit r = done /\ cr_outbuf r = Some b /\
    cr_self r = set_parent self (set_next_sample src (ns + total)) /\
    buf_offset b = ns /\ buf_discont b = false.
Proof.
  intros src rb sps cws rts ns total Hm Hs Hacq Hsps Hcws Hbase Hdone Hrts Hfit
         Hns Hseg Hnear Hskew Hsum Ha Hr Hd.
  assert (Ho : gst_audio_base_src_get_offset (parent self) = ns).
  { rewrite (get_offset_sequential (parent self) Hsps Hcws Hns (proj2 Hseg)).
    replace (_ >=? _) with false; [reflexivity|].
    symmetry. rewrite Z.geb_leb. apply Z.leb_gt. exact Hnear. }
  destruct (create_skew self len env clock rd rest Hm Hs Hacq Hsps Hcws Hbase
              Hdone Hrts Hfit) as (r & b & E & X & B & S & O & D); auto.
  - rewrite Ho. ulia.
  - rewrite Ho. exact Hsum.
  - match type of S with _ = (if ?c then _ else _) =>
      assert (Hc : c = false)
    end.
    { rewrite Ho. apply orb_false_intro; [apply orb_false_intro|].
      * rewrite Z.geb_leb. apply Z.leb_gt. exact Hskew.
      * rewrite (guint64_small (samples_per_seg _))
          by (unfold G_MAXINT, G_MAXUINT64 in *; ulia).
        rewrite gint_small by (unfold G_MAXINT in *; ulia).
        apply Z.eqb_neq. ulia.
      * apply Z.eqb_neq. ulia. }
    rewrite Hc in S. rewrite Ho in S, O, D.
    exists r, b. split; [exact E|]. split; [exact X|]. split; [exact B|].
    split; [exact S|]. split; [exact O|].
    rewrite D. fold src. fold ns. rewrite Z.eqb_refl. reflexivity.
Qed.


(** X18.  Resynchronising in the skew mode is idempotent.  Of two pulls in
    a row, with the pipeline clock and the producer where they were, the
    second never resynchronises, whether the first did or not: it does not
    count a time shift, leaves the ring buffer alone, starts at the read
    position the first pull left, and is not flagged as a discontinuity. *)
Theorem skew_resync_is_idempotent self len1 len2 env1 env2 clock rd1 rest1 rd2 rest2 :
  let src := parent self in
  let rb := ringbuffer src in
  let sps := samples_per_seg rb in
  let cws := current_write_segment src in
  let rts := running_time_segment src clock in
  let total1 := create_samples src len1 in
  let ns0 := if next_sample src =? G_MAXUINT64 then 0 else next_sample src in
  slave_method src = GST_AUDIO_BASE_SRC_SLAVE_SKEW ->
  slaved_to env1 clock ->
  slaved_to env2 clock ->
  acquired rb = true ->
  0 < sps <= G_MAXINT ->
  0 < spec_segtotal rb ->
  0 <= cws <= G_MAXINT ->
  0 <= segbase rb ->
  - 2 ^ 31 <= segdone rb <= G_MAXINT ->
  0 <= rts ->
  segbase rb + rts + 1 <= G_MAXINT ->
  0 <= next_sample src <= G_MAXUINT64 ->
  (Z.max ns0 (Z.max (cws * sps) ((rts + 1) * sps)) + total1) / sps <= G_MAXINT ->
  is_flow_ok (e_alloc env1) = true ->
  e_reads env1 = rd1 :: rest1 ->
  rd_read rd1 = total1 ->
  is_flow_ok (e_alloc env2) = true ->
  e_reads env2 = rd2 :: rest2 ->
  rd_read rd2 = create_samples src len2 ->
  exists r1 r2 b2,
    gst_audio_base_src_create self G_MAXUINT64 len1 env1 = Some r1 /\
    cr_exit r1 = done /\
    gst_audio_base_src_create (cr_self r1) G_MAXUINT64 len2 env2 = Some r2 /\
    cr_exit r2 = done /\ cr_outbuf r2 = Some b2 /\
    timeshifted_count (cr_self r2) = timeshifted_count (cr_self r1) /\
    ringbuffer (parent (cr_self r2)) = ringbuffer (parent (cr_self r1)) /\
    buf_offset b2 = next_sample (parent (cr_self r1)) /\
    buf_discont b2 = false.
Proof.
  intros src rb sps cws rts total1 ns0 Hm Hs1 Hs2 Hacq Hsps Htotal Hcws Hbase Hdone
         Hrts Hfit Hns Hbound Ha1 Hr1 Hd1 Ha2 Hr2 Hd2.
  pose proof (create_samples_range src len1) as Ht1. fold total1 in Ht1.
  pose proof (create_samples_range src len2) as Ht2.
  set (o1 := gst_audio_base_src_get_offset src).
  assert (Hcs : 0 <= cws * sps) by nia.
  assert (Hrs : 0 <= (rts + 1) * sps) by nia.
  assert (Hns0 : 0 <= ns0) by (unfold ns0; destruct (_ =? _); lia).
  assert (Hdiv : forall x, 0 <= x ->
            x <= Z.max ns0 (Z.max (cws * sps) ((rts + 1) * sps)) + total1 ->
            x / sps <= G_MAXINT /\ x < 2 ^ 62).
  { intros x Hx Hle.
    assert (x / sps <= G_MAXINT).
    { eapply Z.le_trans; [|exact Hbound]. apply Z.div_le_mono; lia. }
    split; [assumption|]. now apply div_bound_small with sps. }
  (* the offset the first pull resolves to *)
  assert (Ho1 : 0 <= o1 <= Z.max ns0 (cws * sps) /\
                cws - o1 / sps < spec_segtotal rb /\
                (next_sample src <> G_MAXUINT64 -> o1 <= next_sample src \/ o1 = cws * sps)).
  { destruct (Z.eq_dec (next_sample src) G_MAXUINT64) as [Hfirst | Hnot].
    - unfold o1. rewrite (get_offset_first_sample src Hsps Hcws Hfirst).
      split; [ulia|]. split; [|intros Hx; now elim Hx].
      replace (current_write_segment src * samples_per_seg (ringbuffer src)
               / sps) with cws by (symmetry; apply Z.div_mul; ulia).
      ulia.
    - assert (Hn0 : ns0 = next_sample src).
      { unfold ns0. now rewrite (proj2 (Z.eqb_neq _ _) Hnot). }
      assert (Hns' : 0 <= next_sample src < G_MAXUINT64) by lia.
      assert (Hseg : next_sample src / sps <= G_MAXINT)
        by (apply Hdiv; lia).
      unfold o1. rewrite (get_offset_sequential src Hsps Hcws Hns' Hseg).
      destruct (_ >=? _) eqn:Hlap.
      + split; [ulia|]. split; [|auto].
        replace (current_write_segment src * samples_per_seg (ringbuffer src)
                 / sps) with cws by (symmetry; apply Z.div_mul; ulia).
        ulia.
      + rewrite Z.geb_leb in Hlap. apply Z.leb_gt in Hlap.
        split; [ulia|]. split; [ulia|]. intros _. left. lia. }
  destruct Ho1 as (Ho1 & Hnear1 & Hwhich1).
  destruct (Hdiv (o1 + total1)) as [Hq1 Hsmall1]; [lia | lia |].
  destruct (Hdiv ((rts + 1) * sps + total1)) as [Hq2 Hsmall2]; [lia | lia |].
  assert (Hge2 : rts + 1 <= ((rts + 1) * sps + total1) / sps)
    by (apply Z.div_le_lower_bound; unia).
  assert (Hge1 : o1 / sps <= (o1 + total1) / sps)
    by (apply Z.div_le_mono; ulia).
  assert (Hq0 : 0 <= o1 / sps) by (apply Z.div_pos; ulia).
  destruct (create_skew self len1 env1 clock rd1 rest1 Hm Hs1 Hacq Hsps Hcws Hbase
              Hdone Hrts Hfit) as (r1 & b1 & E1 & X1 & B1 & S1 & _ & _);
    auto; try ulia; try (unfold G_MAXUINT64; ulia).
  exists r1. rewrite E1, X1, S1. clear E1 X1 B1 S1.
  match goal with |- context [if ?c then _ else _] => destruct c eqn:Hcond end.
  - destruct (create_skew_settled
                (resynced (set_parent self
                             (set_next_sample (parent self)
                                (gst_audio_base_src_get_offset (parent self)
                                 + create_samples (parent self) len1)))
                   (running_time_segment (parent self) clock)
                   (create_samples (parent self) len1))
                len2 env2 clock rd2 rest2)
      as (r2 & b2 & E2 & X2 & B2 & S2 & O2 & D2).
    all: cbn [resynced parent set_parent set_timeshifted_count set_next_sample
              set_ringbuffer set_segdone ringbuffer next_sample slave_method
              samples_per_seg segbase segdone spec_segtotal acquired].
    all: try assumption.
    all: unfold current_write_segment; simpl.
    all: try change (running_time_segment (set_next_sample ?a ?b) clock)
           with (running_time_segment (parent self) clock).
    all: try change (create_samples (set_next_sample ?a ?b) len2)
           with (create_samples (parent self) len2).
    + ulia.
    + unfold G_MAXINT in *. ulia.
    + unfold G_MAXUINT64. ulia.
    + ulia.
    + ulia.
    + ulia.
    + unfold G_MAXUINT64, G_MAXUINT in *. ulia.
    + exists r2, b2. rewrite S2.
      split; [reflexivity|]. split; [reflexivity|]. split; [exact E2|].
      split; [exact X2|]. split; [exact B2|]. split; [reflexivity|].
      split; [reflexivity|]. split; [exact O2 | exact D2].
  - apply orb_false_elim in Hcond. destruct Hcond as [Hcond H3].
    apply orb_false_elim in Hcond. destruct Hcond as [H1 H2].
    rewrite Z.geb_leb in H1. apply Z.leb_gt in H1.
    rewrite (guint64_small (samples_per_seg _)) in H2
      by (unfold G_MAXINT, G_MAXUINT64 in *; ulia).
    rewrite gint_small in H2 by (unfold G_MAXINT in *; ulia).
    apply Z.eqb_neq in H2. apply Z.eqb_neq in H3.
    destruct (create_skew_settled
                (set_parent self
                   (set_next_sample (parent self)
                      (gst_audio_base_src_get_offset (parent self)
                       + create_samples (parent self) len1)))
                len2 env2 clock rd2 rest2)
      as (r2 & b2 & E2 & X2 & B2 & S2 & O2 & D2).
    all: cbn [parent set_parent set_next_sample ringbuffer next_sample slave_method
              samples_per_seg segbase segdone spec_segtotal acquired].
    all: try assumption.
    all: try change (create_samples (set_next_sample ?a ?b) len2)
           with (create_samples (parent self) len2).
    + unfold G_MAXUINT64. ulia.
    + ulia.
    + change (current_write_segment (set_next_sample ?a ?b)) with cws. ulia.
    + unfold G_MAXUINT64, G_MAXUINT in *. ulia.
    + exists r2, b2. rewrite S2.
      split; [reflexivity|]. split; [reflexivity|]. split; [exact E2|].
      split; [exact X2|]. split; [exact B2|]. split; [reflexivity|].
      split; [reflexivity|]. split; [exact O2 | exact D2].
Qed.

(** X18, witness: the example element in the skew mode; the pipeline
    clock reads 1.07 s against a base time of 1 s, which is segment 1680,
    far ahead of the 5 segments written, so the first pull resynchronises
    and the second, with the clock unchanged, does not. *)
Lemma skew_resync_is_idempotent_witness :
  exists r1 r2 b2,
    gst_audio_base_src_create ex_skew G_MAXUINT64 0 ex_env = Some r1 /\
    cr_exit r1 = done /\
    gst_audio_base_src_create (cr_self r1) G_MAXUINT64 0 ex_env = Some r2 /\
    cr_exit r2 = done /\ cr_outbuf r2 = Some b2 /\
    timeshifted_count (cr_self r2) = timeshifted_count (cr_self r1) /\
    ringbuffer (parent (cr_self r2)) = ringbuffer (parent (cr_self r1)) /\
    buf_offset b2 = next_sample (parent (cr_self r1)) /\
    buf_discont b2 = false.
Proof.
  apply (skew_resync_is_idempotent ex_skew 0 0 ex_env ex_env
           {| is_src_clock := false; clock_time := 1070000000; time_offset := 0 |}
           ex_read [] ex_read []).
  - reflexivity.
  - split; [reflexivity|]. split; [reflexivity|]. repeat constructor.
  - split; [reflexivity|]. split; [reflexivity|]. repeat constructor.
  - reflexivity.
  - closed_facts.
  - closed_facts.
  - closed_facts.
  - closed_facts.
  - closed_facts.
  - closed_facts.
  - closed_facts.
  - closed_facts.
  - closed_facts.
  - reflexivity.
  - reflexivity.
  - reflexivity.
  - reflexivity.
  - reflexivity.
  - reflexivity.
Defined.

(** ** Waiting *)

Lemma capture_loop_idle_wakes env : forall st,
  0 < l_wanted st ->
  signaled (event_handle (l_self st)) = false ->
  signaled (stop_handle (l_self st)) = false ->
  Forall idle_wake env ->
  capture_loop st env = None.
Proof.
  induction env as [|w env IH]; intros st Hw He Hs Hidle; simpl;
    (replace (l_wanted st >? 0) with true
       by (symmetry; rewrite Z.gtb_ltb; apply Z.ltb_lt; lia));
    [reflexivity|].
  inversion Hidle as [|? ? (Hd & Hst & Hf) Hidle']; subst.
  rewrite Hd, Hst, Hf. unfold WaitForMultipleObjects. rewrite He, Hs.
  apply IH; auto.
Qed.

(** X19.  A read call returns only for a cause.  When the queue cannot
    meet the request, both events are unsignaled at entry, and during the
    wakes that follow nobody signals either of them and the wait does not
    fail, the call is still waiting when those wakes are over, whatever
    [default_changed] says meanwhile: a change of the default device is
    looked at only once a wait has returned. *)
Theorem read_waits_while_nothing_happens self data len start_failed env :
  overflow_ok self ->
  0 <= len <= G_MAXUINT ->
  len <= Z.of_nat (length data) ->
  client_needs_restart self && start_failed = false ->
  overflow_buffer_length self < len ->
  signaled (event_handle self) = false ->
  signaled (stop_handle self) = false ->
  Forall idle_wake env ->
  gst_wasapi_src_read self data len start_failed env = None.
Proof.
  intros Hok Hlen Hdata Hstart Hmore He Hs Hidle.
  unfold gst_wasapi_src_read. rewrite Hstart.
  set (self1 := if client_needs_restart self
                then set_client_needs_restart self false else self).
  assert (Hok1 : overflow_ok self1)
    by (unfold self1; destruct (client_needs_restart self); exact Hok).
  assert (H1 : overflow_buffer_length self1 = overflow_buffer_length self /\
               event_handle self1 = event_handle self /\
               stop_handle self1 = stop_handle self)
    by (unfold self1; destruct (client_needs_restart self); auto).
  destruct H1 as (HL & Hev & Hsp).
  replace (if client_needs_restart self then _ else _)
    with {| l_self := self1; l_data := data; l_data_ptr := 0;
            l_wanted := len; l_length := len |}
    by (unfold self1; destruct (client_needs_restart self); reflexivity).
  destruct (restore_overflow_ok self1 data len Hok1 Hlen Hdata)
    as (Hst & _ & _ & Hw & _).
  destruct (restore_overflow_handles
              {| l_self := self1; l_data := data; l_data_ptr := 0;
                 l_wanted := len; l_length := len |}) as (He' & Hs' & _).
  simpl l_self in He', Hs'.
  assert (Hol : 0 <= overflow_buffer_length self1) by apply Hok1.
  apply capture_loop_idle_wakes; auto.
  - rewrite Hw. lia.
  - now rewrite He', Hev.
  - now rewrite Hs', Hsp.
Qed.

(** X19, witness: the example element, just initialised and prepared,
    while the default device changes twice and nothing else happens. *)
Lemma read_waits_while_nothing_happens_witness :
  gst_wasapi_src_read ex_self (repeat xee 8) 8 false
    [ {| w_data_ready := false; w_stop := false; w_wait_failed := false;
         w_default_changed := true; w_post_failed := false; w_packets := [] |};
      {| w_data_ready := false; w_stop := false; w_wait_failed := false;
         w_default_changed := true; w_post_failed := false; w_packets := [] |} ] = None.
Proof.
  apply (read_waits_while_nothing_happens ex_self (repeat xee 8) 8 false).
  - closed_facts.
  - closed_facts.
  - closed_facts.
  - reflexivity.
  - closed_facts.
  - reflexivity.
  - reflexivity.
  - repeat constructor.
Defined.

Lemma drain_stop_handle pkts : forall st e st',
  drain st pkts = (e, st') ->
  stop_handle (l_self st') = stop_handle (l_self st).
Proof.
  induction pkts as [|pk rest IH]; intros st e st' H; simpl in H.
  - now inversion H.
  - assert (Hb : stop_handle (l_self (capture_burst st pk)) = stop_handle (l_self st))
      by (unfold capture_burst; cbv zeta; simpl; split_ifs; reflexivity).
    destruct (gb_hr pk); try (now inversion H).
    destruct (gb_release_failed pk).
    + inversion H; subst. exact Hb.
    + rewrite (IH _ _ _ H). exact Hb.
Qed.

Lemma capture_loop_stop_pending env : forall st r,
  Forall clean_wake env ->
  capture_loop st env = Some r ->
  exists pre,
    env = pre ++ r_env r /\
    signaled (stop_handle (r_self r))
    = signaled (stop_handle (l_self st)) || existsb w_stop pre.
Proof.
  induction env as [|w env IH]; intros st r Hclean H.
  - simpl in H. destruct (l_wanted st >? 0); [discriminate|].
    inversion H; subst. exists []. simpl. now rewrite orb_false_r.
  - destruct (l_wanted st >? 0) eqn:Hw.
    + rewrite Z.gtb_ltb in Hw. apply Z.ltb_lt in Hw.
      inversion Hclean as [|? ? Hc Hclean']; subst.
      pose proof Hc as (Hd & Hf & Hch & Hpk).
      cbn [capture_loop] in H.
      replace (l_wanted st >? 0) with true in H
        by (symmetry; rewrite Z.gtb_ltb; apply Z.ltb_lt; lia).
      rewrite Hd, Hf, Hch in H. unfold WaitForMultipleObjects in H.
      cbn [SetEvent signaled] in H. rewrite andb_false_r in H.
      rewrite Z.eqb_refl in H.
      destruct (drain _ (w_packets w)) as [e st'] eqn:Hdr.
      pose proof (drain_stop_handle _ _ _ _ Hdr) as Hsh. simpl in Hsh.
      assert (Hsig : signaled (stop_handle (l_self st'))
                     = signaled (stop_handle (l_self st)) || w_stop w).
      { rewrite Hsh. destruct (w_stop w); simpl;
          [now rewrite orb_true_r | now rewrite orb_false_r]. }
      destruct e.
      * destruct (IH _ _ Hclean' H) as (pre & Hpre & Hs).
        exists (w :: pre). split; [simpl; now rewrite <- Hpre|].
        rewrite Hs, Hsig. simpl. now rewrite orb_assoc.
      * inversion H; subst. exists [w]. split; [reflexivity|].
        simpl. rewrite Hsig. now rewrite orb_false_r.
      * inversion H; subst. exists [w]. split; [reflexivity|].
        simpl. rewrite Hsig. now rewrite orb_false_r.
    + simpl in H. rewrite Hw in H. inversion H; subst.
      exists []. simpl. now rewrite orb_false_r.
Qed.

(** X20.  A stop signal is neither acted on nor lost while the device
    keeps delivering.  The wait reports the data-ready event first, so a
    call whose every wake finds data ready never zero-fills on account of
    the stop signal; and the auto-reset stop event stays signaled, so after
    the call it is signaled exactly when it was signaled at entry or was
    raised during one of the wakes the call used. *)
Theorem stop_stays_pending_while_data_flows self data len start_failed env r :
  Forall clean_wake env ->
  client_needs_restart self && start_failed = false ->
  gst_wasapi_src_read self data len start_failed env = Some r ->
  exists pre,
    env = pre ++ r_env r /\
    signaled (stop_handle (r_self r))
    = signaled (stop_handle self) || existsb w_stop pre.
Proof.
  intros Hclean Hstart H. unfold gst_wasapi_src_read in H. rewrite Hstart in H.
  destruct (capture_loop_stop_pending _ _ _ Hclean H) as (pre & Hpre & Hs).
  exists pre. split; [exact Hpre|]. rewrite Hs.
  rewrite (proj1 (proj2 (restore_overflow_handles _))).
  destruct (client_needs_restart self); reflexivity.
Qed.

(** X20, witness: the stop signal is raised while a burst is ready; the
    call returns the burst's bytes, not silence, and the signal is still
    pending afterwards. *)
Lemma stop_stays_pending_while_data_flows_witness :
  exists r,
    gst_wasapi_src_read ex_self (repeat xee 8) 8 false
      [{| w_data_ready := true; w_stop := true; w_wait_failed := false;
          w_default_changed := false; w_post_failed := false;
          w_packets := [ex_packet] |}] = Some r /\
    returned r = [x01; x02; x03; x04; x05; x06; x07; x08] /\
    signaled (stop_handle (r_self r)) = true /\
    exists pre,
      [{| w_data_ready := true; w_stop := true; w_wait_failed := false;
          w_default_changed := false; w_post_failed := false;
          w_packets := [ex_packet] |}]
      = pre ++ r_env r /\
      signaled (stop_handle (r_self r))
      = signaled (stop_handle ex_self) || existsb w_stop pre.
Proof.
  eexists. split; [lazy; reflexivity|].
  do 2 (split; [reflexivity|]).
  match goal with |- exists pre, _ = pre ++ r_env ?r /\ _ =>
    refine (stop_stays_pending_while_data_flows ex_self (repeat xee 8) 8 false
              [{| w_data_ready := true; w_stop := true; w_wait_failed := false;
                  w_default_changed := false; w_post_failed := false;
                  w_packets := [ex_packet] |}] r _ _ _)
  end.
  - repeat constructor.
  - reflexivity.
  - vm_compute. reflexivity.
Defined.

(** ** Prepare and unprepare *)

Lemma overflow_contents_no_buffer self :
  overflow_buffer self = [] -> overflow_contents self = [].
Proof.
  unfold overflow_contents. intros ->. now rewrite skipn_nil, firstn_nil.
Qed.

Lemma unprepare_releases self dev :
  let '(self', dev') := gst_wasapi_src_unprepare self dev in
  overflow_buffer self' = [] /\
  capture_client dev' = false /\ client_clock dev' = false /\
  client_clock_freq dev' = 0 /\ thread_priority_handle dev' = false /\
  client_running dev' = (if client self then false else client_running dev) /\
  com_balance dev' = com_balance dev - 1 /\
  event_handle self' = event_handle self /\ stop_handle self' = stop_handle self /\
  eos_sent self' = eos_sent self /\
  client_needs_restart self' = client_needs_restart self /\
  client self' = client self.
Proof.
  unfold gst_wasapi_src_unprepare.
  destruct (overflow_buffer self) eqn:Hb; simpl.
  - rewrite Hb. repeat split; reflexivity.
  - repeat split; reflexivity.
Qed.

Lemma prepare_failed_through_unprepare (self self0 self' : GstWasapiSrc)
  (dev dev0 dev' : wasapi_device) :
  (gst_wasapi_src_unprepare self0 dev0, false) = (self', dev', false) ->
  handed_to_unprepare self dev self0 dev0 ->
  exists self1 dev1,
    gst_wasapi_src_unprepare self1 dev1 = (self', dev') /\
    handed_to_unprepare self dev self1 dev1.
Proof.
  intros E A.
  assert (Hu : gst_wasapi_src_unprepare self0 dev0 = (self', dev'))
    by (apply (f_equal fst) in E; exact E).
  exists self0, dev0. split; [exact Hu | exact A].
Qed.

(** X21.  A prepare that fails leaves nothing behind, at whichever step
    it fails: the overflow buffer is released and the queue is empty, the
    capture client and the clock are released, the clock frequency is 0 and
    the thread priority is reverted, so the element's clock reports
    [GST_CLOCK_TIME_NONE]; the audio client, when there is one, has been
    stopped; the [CoInitialize] prepare started with is matched by the
    [CoUninitialize] of the unprepare it ends with; and the events, the
    one-shot flag and the restart flag are as they were.  Unprepare is not
    to be called once more after it: a further call finds nothing to
    release, but it calls [CoUninitialize] again and leaves the thread's
    balance one below where prepare found it. *)
Theorem failed_prepare_releases_everything self dev env self' dev' :
  gst_wasapi_src_prepare self dev env = (self', dev', false) ->
  overflow_buffer self' = [] /\ overflow_contents self' = [] /\
  capture_client dev' = false /\ client_clock dev' = false /\
  client_clock_freq dev' = 0 /\ thread_priority_handle dev' = false /\
  (forall position, gst_wasapi_src_get_time dev' position = GST_CLOCK_TIME_NONE) /\
  client_running dev' = (if client self then false else client_running dev) /\
  com_balance dev' = com_balance dev /\
  com_balance (snd (gst_wasapi_src_unprepare self' dev')) = com_balance dev - 1 /\
  event_handle self' = event_handle self /\ stop_handle self' = stop_handle self /\
  eos_sent self' = eos_sent self /\
  client_needs_restart self' = client_needs_restart self.
Proof.
  intros H.
  assert (W : exists self0 dev0,
             gst_wasapi_src_unprepare self0 dev0 = (self', dev') /\
             handed_to_unprepare self dev self0 dev0).
  { unfold gst_wasapi_src_prepare in H. cbv zeta in H.
    destruct (p_initialize env);
      [|apply (prepare_failed_through_unprepare self _ _ dev) in H; auto;
        unfold handed_to_unprepare; simpl; repeat split; reflexivity].
    destruct (p_buffer_size env);
      [|apply (prepare_failed_through_unprepare self _ _ dev) in H; auto;
        unfold handed_to_unprepare; simpl; repeat split; reflexivity].
    destruct (p_latency_failed env);
      [apply (prepare_failed_through_unprepare self _ _ dev) in H; auto;
       unfold handed_to_unprepare; simpl; repeat split; reflexivity|].
    destruct (p_set_event_failed env);
      [apply (prepare_failed_through_unprepare self _ _ dev) in H; auto;
       unfold handed_to_unprepare; simpl; repeat split; reflexivity|].
    destruct (negb (p_clock env));
      [apply (prepare_failed_through_unprepare self _ _ dev) in H; auto;
       unfold handed_to_unprepare; simpl; repeat split; reflexivity|].
    destruct (p_frequency env);
      [|apply (prepare_failed_through_unprepare self _ _ dev) in H; auto;
        unfold handed_to_unprepare; simpl; repeat split; reflexivity].
    destruct (negb (p_capture_client env));
      [apply (prepare_failed_through_unprepare self _ _ dev) in H; auto;
       unfold handed_to_unprepare; simpl; repeat split; reflexivity|].
    destruct (p_start_failed env);
      [apply (prepare_failed_through_unprepare self _ _ dev) in H; auto;
       unfold handed_to_unprepare; simpl; repeat split; reflexivity|].
    discriminate. }
  destruct W as (self0 & dev0 & Hu & E1 & E2 & E3 & E4 & E5 & E6 & E7).
  pose proof (unprepare_releases self0 dev0) as R. rewrite Hu in R.
  destruct R as (R1 & R2 & R3 & R4 & R5 & R6 & R7 & R8 & R9 & R10 & R11 & R12).
  pose proof (unprepare_releases self' dev') as R'.
  destruct (gst_wasapi_src_unprepare self' dev') as [self2 dev2].
  destruct R' as (_ & _ & _ & _ & _ & _ & R7' & _).
  split; [exact R1|]. split; [now apply overflow_contents_no_buffer|].
  split; [exact R2|]. split; [exact R3|]. split; [exact R4|]. split; [exact R5|].
  split; [intros position; unfold gst_wasapi_src_get_time; now rewrite R3|].
  split; [rewrite R6, E5, E6; reflexivity|].
  split; [lia|]. split; [simpl; lia|].
  repeat split; congruence.
Qed.

(** X21, witness: every call of prepare succeeds but the last one,
    [IAudioClient_Start]; the overflow buffer had been allocated and the
    clock and the capture client obtained by then. *)
Lemma failed_prepare_releases_everything_witness :
  exists self' dev',
    gst_wasapi_src_prepare (gst_wasapi_src_init ex_instance) ex_device
      ex_prepare_fails = (self', dev', false) /\
    overflow_buffer self' = [] /\ overflow_contents self' = [] /\
    capture_client dev' = false /\ client_clock dev' = false /\
    client_clock_freq dev' = 0 /\ thread_priority_handle dev' = false /\
    (forall position, gst_wasapi_src_get_time dev' position = GST_CLOCK_TIME_NONE) /\
    client_running dev'
    = (if client (gst_wasapi_src_init ex_instance) then false
       else client_running ex_device) /\
    com_balance dev' = com_balance ex_device /\
    com_balance (snd (gst_wasapi_src_unprepare self' dev'))
    = com_balance ex_device - 1 /\
    event_handle self' = event_handle (gst_wasapi_src_init ex_instance) /\
    stop_handle self' = stop_handle (gst_wasapi_src_init ex_instance) /\
    eos_sent self' = eos_sent (gst_wasapi_src_init ex_instance) /\
    client_needs_restart self'
    = client_needs_restart (gst_wasapi_src_init ex_instance).
Proof.
  do 2 eexists. split; [lazy; reflexivity|].
  refine (failed_prepare_releases_everything (gst_wasapi_src_init ex_instance)
            ex_device ex_prepare_fails _ _ _).
  vm_compute. reflexivity.
Defined.

Lemma prepare_ok self dev env self' dev' devp bufsz :
  let rb := ringbuffer (parent self) in
  let bpf := spec_bpf rb in
  gst_wasapi_src_prepare self dev env = (self', dev', true) ->
  p_initialize env = Some devp ->
  p_buffer_size env = Some bufsz ->
  0 < bpf ->
  0 < devp ->
  0 <= bufsz ->
  devp * bpf * 4 <= G_MAXINT ->
  bufsz * bpf < G_MAXINT ->
  self' = prepare_overflow_buffer
            (set_parent self
               (set_ringbuffer (parent self)
                  (set_spec_seg rb (devp * bpf)
                     (Z.max (bufsz * bpf / (devp * bpf)) 2 + 1))))
            (devp * bpf) (p_fresh env) /\
  capture_client dev' = true /\ client_clock dev' = true /\
  (forall f, p_frequency env = Some f -> client_clock_freq dev' = guint64 f).
Proof.
  intros rb bpf H Hi Hb Hbpf Hdevp Hbufsz Hseg Hbuf.
  unfold gst_wasapi_src_prepare in H. rewrite Hi, Hb in H. cbv zeta in H.
  fold rb in H. fold bpf in H.
  assert (Hp : 0 < devp * bpf) by nia.
  assert (Hq : 0 <= bufsz * bpf / (devp * bpf) <= bufsz * bpf).
  { split; [apply Z.div_pos; nia|].
    apply Z.div_le_upper_bound; [lia|]. nia. }
  assert (Hss : prepare_segsize (guint devp) (guint bpf) = devp * bpf).
  { unfold prepare_segsize.
    rewrite (guint_small devp) by (unfold G_MAXINT, G_MAXUINT in *; nia).
    rewrite (guint_small bpf) by (unfold G_MAXINT, G_MAXUINT in *; nia).
    rewrite guint_small by (unfold G_MAXINT, G_MAXUINT in *; nia).
    apply gint_small. unfold G_MAXINT in *. nia. }
  rewrite Hss in H.
  assert (Hst : prepare_segtotal (guint bufsz) (guint bpf) (devp * bpf)
                = Z.max (bufsz * bpf / (devp * bpf)) 2 + 1).
  { unfold prepare_segtotal.
    rewrite (guint_small bufsz) by (unfold G_MAXINT, G_MAXUINT in *; nia).
    rewrite (guint_small bpf) by (unfold G_MAXINT, G_MAXUINT in *; nia).
    rewrite (guint_small (bufsz * bpf)) by (unfold G_MAXINT, G_MAXUINT in *; nia).
    rewrite (guint_small (devp * bpf)) by (unfold G_MAXINT, G_MAXUINT in *; nia).
    rewrite guint_small by (unfold G_MAXINT, G_MAXUINT in *; lia).
    apply gint_small. unfold G_MAXINT in *. lia. }
  rewrite Hst in H.
  destruct (p_latency_failed env); [discriminate|].
  destruct (p_set_event_failed env); [discriminate|].
  destruct (negb (p_clock env)); [discriminate|].
  destruct (p_frequency env) as [f|]; [|discriminate].
  destruct (negb (p_capture_client env)); [discriminate|].
  destruct (p_start_failed env); [discriminate|].
  inversion H; subst. simpl. repeat split.
  intros f' Hf. inversion Hf; subst. reflexivity.
Qed.

(** X22.  What a prepare that succeeds sets up, for a device period of
    [devp] frames and a device buffer of [bufsz] frames of [bpf] bytes: a
    segment is one device period, [devp * bpf] bytes; the ring buffer has
    [max (bufsz / devp) 2 + 1] segments, so never fewer than 3; the
    overflow buffer is an empty, well-formed window on 4 segments; the
    capture client and the clock are there, and the clock reports the
    device position scaled by the clock's frequency. *)
Theorem prepare_sets_up_capture self dev env self' dev' devp bufsz :
  let bpf := spec_bpf (ringbuffer (parent self)) in
  let rb' := ringbuffer (parent self') in
  gst_wasapi_src_prepare self dev env = (self', dev', true) ->
  p_initialize env = Some devp ->
  p_buffer_size env = Some bufsz ->
  0 < bpf ->
  0 < devp ->
  0 <= bufsz ->
  devp * bpf * 4 <= G_MAXINT ->
  bufsz * bpf < G_MAXINT ->
  Z.of_nat (length (p_fresh env)) = devp * bpf * 4 ->
  0 < nBlockAlign (mix_format self) ->
  spec_segsize rb' = devp * bpf /\
  spec_segtotal rb' = Z.max (bufsz / devp) 2 + 1 /\
  3 <= spec_segtotal rb' /\
  overflow_ok self' /\ overflow_contents self' = [] /\
  overflow_buffer_size self' = 4 * spec_segsize rb' /\
  capture_client dev' = true /\ client_clock dev' = true /\
  (forall f pos,
     p_frequency env = Some f -> 0 < f <= G_MAXINT ->
     0 <= pos <= G_MAXUINT64 -> pos * GST_SECOND / f <= G_MAXUINT64 ->
     gst_wasapi_src_get_time dev' (Some pos) = pos * GST_SECOND / f).
Proof.
  intros bpf rb' H Hi Hb Hbpf Hdevp Hbufsz Hseg Hbuf Hfresh Halign.
  destruct (prepare_ok self dev env self' dev' devp bufsz H Hi Hb Hbpf Hdevp
              Hbufsz Hseg Hbuf) as (Hs & Hc & Hk & Hf).
  fold bpf in Hs.
  assert (Hsz : gsize (gint (devp * bpf * 4)) = devp * bpf * 4).
  { rewrite gint_small by (unfold G_MAXINT in *; nia).
    unfold gsize. apply Z.mod_small. unfold G_MAXINT in *. nia. }
  unfold rb'. rewrite Hs. unfold prepare_overflow_buffer, overflow_ok. simpl.
  rewrite Hsz.
  rewrite Z.div_mul_cancel_r by lia.
  split; [reflexivity|]. split; [reflexivity|]. split; [lia|].
  split; [unfold G_MAXINT, G_MAXUINT in *; repeat split; auto; unia|].
  split; [reflexivity|]. split.
  { change (devp * bpf * 4 = 4 * (devp * bpf)). ulia. }
  split; [exact Hc|]. split; [exact Hk|].
  intros f pos Hfreq Hfr Hpos Hfit.
  unfold gst_wasapi_src_get_time. rewrite Hk, (Hf f Hfreq). simpl negb. cbv iota.
  rewrite (guint64_small f) by (unfold G_MAXINT, G_MAXUINT64 in *; lia).
  rewrite (gint_small f) by (unfold G_MAXINT in *; lia).
  rewrite (guint64_small pos) by lia.
  unfold gst_util_uint64_scale_int. cbv zeta.
  replace (_ <=? G_MAXUINT64) with true; [reflexivity|].
  symmetry. apply Z.leb_le. exact Hfit.
Qed.

(** X22, witness: a period of 2 frames and a buffer of 6 frames of 4
    bytes: segments of 8 bytes, 4 of them in the ring, an overflow buffer
    of 32 bytes, and a 10 MHz clock that reads 1 s at position 10000000. *)
Lemma prepare_sets_up_capture_witness :
  exists self' dev',
    gst_wasapi_src_prepare (gst_wasapi_src_init ex_instance) ex_device
      ex_prepare_env = (self', dev', true) /\
    spec_segsize (ringbuffer (parent self')) = 2 * 4 /\
    spec_segtotal (ringbuffer (parent self')) = Z.max (6 / 2) 2 + 1 /\
    3 <= spec_segtotal (ringbuffer (parent self')) /\
    overflow_ok self' /\ overflow_contents self' = [] /\
    overflow_buffer_size self' = 4 * spec_segsize (ringbuffer (parent self')) /\
    capture_client dev' = true /\ client_clock dev' = true /\
    gst_wasapi_src_get_time dev' (Some 10000000) = 10000000 * GST_SECOND / 10000000.
Proof.
  do 2 eexists. split; [lazy; reflexivity|].
  match goal with |- context [overflow_ok ?s] =>
    match goal with |- context [capture_client ?d = true] =>
      pose proof (prepare_sets_up_capture (gst_wasapi_src_init ex_instance) ex_device
                    ex_prepare_env s d 2 6) as W
    end
  end.
  cbv zeta in W.
  destruct W as (W1 & W2 & W3 & W4 & W5 & W6 & W7 & W8 & W9).
  - vm_compute. reflexivity.
  - reflexivity.
  - reflexivity.
  - closed_facts.
  - closed_facts.
  - closed_facts.
  - closed_facts.
  - closed_facts.
  - reflexivity.
  - closed_facts.
  - split; [exact W1|]. split; [exact W2|]. split; [exact W3|].
    split; [exact W4|]. split; [exact W5|]. split; [exact W6|].
    split; [exact W7|]. split; [exact W8|].
    apply (W9 10000000 10000000); closed_facts.
Defined.

(** X23.  The overflow buffer is sized for bursts of five device periods.
    After a prepare that succeeded, on a device whose frames are as large
    as the ring buffer's, a read call for one segment that meets clean
    wakes bringing no more than five segments in all loses nothing: it
    returns the first segment of the bursts, and every byte beyond it is
    queued, in order, for the calls to come. *)
Theorem prepared_read_keeps_five_segments
  self dev env self' dev' devp bufsz data start_failed pre w rest :
  let bpf := spec_bpf (ringbuffer (parent self)) in
  let segsize := devp * bpf in
  gst_wasapi_src_prepare self dev env = (self', dev', true) ->
  p_initialize env = Some devp ->
  p_buffer_size env = Some bufsz ->
  0 < bpf ->
  0 < devp ->
  0 <= bufsz ->
  devp * bpf * 4 <= G_MAXINT ->
  bufsz * bpf < G_MAXINT ->
  Z.of_nat (length (p_fresh env)) = devp * bpf * 4 ->
  nBlockAlign (mix_format self) = bpf ->
  client_needs_restart self && start_failed = false ->
  segsize <= Z.of_nat (length data) ->
  Forall clean_wake (pre ++ [w]) ->
  Forall (wake_ok bpf) (pre ++ [w]) ->
  Z.of_nat (length (raw_bytes pre)) < segsize
    <= Z.of_nat (length (raw_bytes (pre ++ [w]))) ->
  Z.of_nat (length (raw_bytes (pre ++ [w]))) <= 5 * segsize ->
  exists r,
    gst_wasapi_src_read self' data segsize start_failed (pre ++ w :: rest) = Some r /\
    r_return r = segsize /\ r_exit r = exit_beach /\ r_env r = rest /\
    returned r = firstn (Z.to_nat segsize) (rendered_bytes (pre ++ [w])) /\
    overflow_contents (r_self r)
    = skipn (Z.to_nat segsize) (raw_bytes (pre ++ [w])).
Proof.
  intros bpf segsize H Hi Hb Hbpf Hdevp Hbufsz Hseg Hbuf Hfresh Halign Hstart Hdata
         Hclean Hwok Htot Hfive.
  destruct (prepare_ok self dev env self' dev' devp bufsz H Hi Hb Hbpf Hdevp
              Hbufsz Hseg Hbuf) as (Hs & _).
  fold bpf in Hs.
  assert (Hsz : gsize (gint (devp * bpf * 4)) = devp * bpf * 4).
  { rewrite gint_small by (unfold G_MAXINT in *; nia).
    unfold gsize. apply Z.mod_small. unfold G_MAXINT in *. nia. }
  assert (Hok : overflow_ok self').
  { rewrite Hs. unfold prepare_overflow_buffer, overflow_ok. simpl.
    rewrite Hsz, Halign. unfold G_MAXINT, G_MAXUINT in *. repeat split; auto; nia. }
  assert (Hfields : overflow_buffer_length self' = 0 /\
                    overflow_buffer_size self' = devp * bpf * 4 /\
                    nBlockAlign (mix_format self') = bpf /\
                    client_needs_restart self' = client_needs_restart self).
  { rewrite Hs. unfold prepare_overflow_buffer. simpl. rewrite Hsz. auto. }
  destruct Hfields as (F1 & F2 & F3 & F4).
  destruct (read_copies_bursts self' data segsize start_failed pre w rest)
    as (r & R1 & R2 & R3 & R4 & R5 & R6 & R7); auto.
  - now rewrite F4.
  - unfold segsize, G_MAXINT, G_MAXUINT in *. nia.
  - rewrite F3. unfold segsize. apply Z_mod_mult.
  - now rewrite F3.
  - rewrite F2. unfold segsize in *. lia.
  - exists r. repeat split; auto.
Qed.

(** X23, witness: the prepared example device, segments of 8 bytes; the
    first call for one segment meets two bursts of 16 bytes, 32 bytes in
    all, and keeps the 24 bytes beyond the segment. *)
Lemma prepared_read_keeps_five_segments_witness :
  exists self' dev' r,
    gst_wasapi_src_prepare (gst_wasapi_src_init ex_instance) ex_device
      ex_prepare_env = (self', dev', true) /\
    gst_wasapi_src_read self' (repeat xee 8) (2 * 4) false
      ([] ++ ex_wake [ex_packet; ex_packet] :: []) = Some r /\
    r_return r = 2 * 4 /\ r_exit r = exit_beach /\ r_env r = [] /\
    returned r = firstn (Z.to_nat (2 * 4))
                   (rendered_bytes ([] ++ [ex_wake [ex_packet; ex_packet]])) /\
    overflow_contents (r_self r)
    = skipn (Z.to_nat (2 * 4)) (raw_bytes ([] ++ [ex_wake [ex_packet; ex_packet]])).
Proof.
  do 2 eexists.
  match goal with |- exists r, ?A = (?s, ?d, true) /\ _ =>
    assert (E : A = (s, d, true)) by (lazy; reflexivity)
  end.
  match type of E with _ = (?s, ?d, _) =>
    destruct (prepared_read_keeps_five_segments (gst_wasapi_src_init ex_instance)
                ex_device ex_prepare_env s d 2 6 (repeat xee 8) false []
                (ex_wake [ex_packet; ex_packet]) []) as (r & W)
  end.
  - vm_compute. reflexivity.
  - reflexivity.
  - reflexivity.
  - closed_facts.
  - closed_facts.
  - closed_facts.
  - closed_facts.
  - closed_facts.
  - reflexivity.
  - reflexivity.
  - reflexivity.
  - closed_facts.
  - repeat constructor.
  - repeat constructor; closed_facts.
  - closed_facts.
  - closed_facts.
  - exists r. split; [exact E|]. exact W.
Defined.

(** ** Drift correction and the resync in the resample case *)

Lemma set_segdone_same rb : set_segdone rb (segdone rb) = rb.
Proof. destruct rb. reflexivity. Qed.

(** The resample case over unbounded integers.  The resync leaves the
    producer's counter one segment past the running-time segment [rts]: it
    advances the ring buffer unless [rts] is the last written segment
    already, and reading restarts at the write position in the first case,
    at [rts] itself in the second. *)
Lemma slave_resample_cases self clock first sample samples ts :
  let src := parent self in
  let rb := ringbuffer src in
  let sps := samples_per_seg rb in
  let cws := current_write_segment src in
  let rts := running_time_segment src clock in
  let td := timestamp_diff ts (base_time src) in
  let initial := if negb first && (initial_timestamp_diff self =? 0)
                 then td else initial_timestamp_diff self in
  let drift_ns := if td >? 0 then ABS64 (gint64 (initial - td)) else 0 in
  let fires := guint64 drift_ns >? drift_correction_threshold self in
  let self_d :=
    if fires then set_drift self 0 (guint64 (drift_correction_count self + 1))
    else set_drift self initial (drift_correction_count self) in
  let nrs := if rts =? cws - 1 then rts else rts + 1 in
  0 < sps <= G_MAXINT ->
  0 <= cws <= G_MAXINT ->
  0 <= segbase rb ->
  - 2 ^ 31 <= segdone rb <= G_MAXINT ->
  0 <= rts ->
  segbase rb + rts + 1 <= G_MAXINT ->
  0 <= samples <= G_MAXUINT ->
  slave_resample self clock first sample samples ts =
  if (rts - (cws - 1) >=? spec_segtotal rb) || (gint (sample / sps) =? 0)
     || first || fires
  then (set_timeshifted_count
          (set_parent self_d
             (set_next_sample
                (set_ringbuffer src (set_segdone rb (segbase rb + rts + 1)))
                (nrs * sps + samples)))
          (guint64 (timeshifted_count self + 1)),
        gst_util_uint64_scale_int (nrs * sps) GST_SECOND (spec_rate rb))
  else (self_d, ts).
Proof.
  intros src rb sps cws rts td initial drift_ns fires self_d nrs
         Hsps Hcws Hbase Hdone Hrts Hfit Hsamples.
  unfold slave_resample. cbv zeta. fold src. fold rb. fold sps.
  change (gint (gst_util_uint64_scale_int (guint64 (clock_time clock - base_time src))
                  (spec_rate rb) GST_SECOND / guint64 sps)) with rts.
  fold td. fold initial. fold drift_ns. fold fires. fold self_d.
  assert (Hc : segdone rb - segbase rb = cws) by reflexivity.
  replace (segdone rb - segbase rb - 1) with (cws - 1) by lia.
  rewrite (gint_small (cws - 1)) by (unfold G_MAXINT in *; lia).
  rewrite (gint_small (rts - (cws - 1))) by (unfold G_MAXINT in *; lia).
  rewrite (guint64_small sps) by (unfold G_MAXINT, G_MAXUINT64 in *; lia).
  destruct (_ || _ || _ || _); [|reflexivity].
  assert (Hp : parent self_d = src) by (unfold self_d; destruct fires; reflexivity).
  assert (Ht : timeshifted_count self_d = timeshifted_count self)
    by (unfold self_d; destruct fires; reflexivity).
  unfold resync. cbv zeta. rewrite Hp, Ht. fold rb. fold sps.
  rewrite (gint_small (rts - (cws - 1))) by (unfold G_MAXINT in *; lia).
  rewrite orb_false_l.
  rewrite (guint64_small sps) by (unfold G_MAXINT, G_MAXUINT64 in *; lia).
  unfold nrs.
  destruct (Z.eqb_spec rts (cws - 1)) as [Heq | Hne].
  - replace (rts - (cws - 1) =? 0) with true by (symmetry; apply Z.eqb_eq; lia).
    simpl negb. cbv iota.
    replace (segbase rb + rts + 1) with (segdone rb) by lia.
    rewrite set_segdone_same.
    rewrite (guint64_small rts) by (unfold G_MAXINT, G_MAXUINT64 in *; lia).
    assert (Hq : 0 <= rts * sps <= 2 ^ 62) by (unfold G_MAXINT in *; nia).
    rewrite (guint64_small (rts * sps)) by (unfold G_MAXUINT64; lia).
    rewrite (guint64_small (rts * sps + samples))
      by (unfold G_MAXUINT, G_MAXUINT64 in *; lia).
    reflexivity.
  - replace (rts - (cws - 1) =? 0) with false by (symmetry; apply Z.eqb_neq; lia).
    simpl negb. cbv iota.
    unfold gst_audio_ring_buffer_advance. simpl segdone. simpl segbase.
    simpl samples_per_seg. simpl spec_rate. fold sps.
    replace (segdone rb + (rts - (cws - 1))) with (segbase rb + rts + 1) by lia.
    rewrite (gint_small (segbase rb + rts + 1)) by (unfold G_MAXINT in *; lia).
    replace (segbase rb + rts + 1 - segbase rb) with (rts + 1) by lia.
    rewrite (gint_small (rts + 1)) by (unfold G_MAXINT in *; lia).
    rewrite (guint64_small (rts + 1)) by (unfold G_MAXINT, G_MAXUINT64 in *; lia).
    assert (Hq : 0 <= (rts + 1) * sps <= 2 ^ 62) by (unfold G_MAXINT in *; nia).
    rewrite (guint64_small ((rts + 1) * sps)) by (unfold G_MAXUINT64; lia).
    rewrite (guint64_small ((rts + 1) * sps + samples))
      by (unfold G_MAXUINT, G_MAXUINT64 in *; lia).
    reflexivity.
Qed.

(** A pull that reaches the resample case hands out the timestamp and
    leaves the element as [slave_resample] returns them, for the samples of
    the loop's last request. *)
Lemma create_resample_pull self offset length env clock r b :
  let src := parent self in
  let start := create_start src offset in
  let total := create_samples src length in
  gst_audio_base_src_create self offset length env = Some r ->
  cr_exit r = done ->
  cr_outbuf r = Some b ->
  slave_method src = GST_AUDIO_BASE_SRC_SLAVE_RESAMPLE ->
  slaved_to env clock ->
  0 <= start ->
  start + total <= G_MAXUINT64 ->
  ring_reads_ok (e_reads env) total ->
  exists n,
    0 <= n <= G_MAXUINT /\ 0 <= buf_offset b /\
    buf_offset_end b = buf_offset b + n /\
    (cr_self r, buf_timestamp b) =
      slave_resample (set_parent self (set_next_sample src (buf_offset b + n))) clock
        (next_sample src =? G_MAXUINT64) (buf_offset b) n
        (gst_util_uint64_scale_int (buf_offset b) GST_SECOND
           (spec_rate (ringbuffer src))).
Proof.
  intros src start total H Hd Hb Hm (Hc & Hown & Hts) Hstart Hsum Hreads.
  destruct (create_done_start _ _ _ _ _ H Hd) as (s & n & ts & rq & Hl & ->).
  fold src start total in Hl.
  pose proof (read_loop_no_timestamp _ _ _ _ _ _ Hts Hl _ _ _ eq_refl) as ->.
  pose proof (create_samples_range src length) as Htot. fold total in Htot.
  destruct (read_loop_sum _ _ _ _ _ _ _ _ _ Hstart Htot Hsum Hreads Hl)
    as (A & B & C & _ & _).
  exists n. revert Hb.
  unfold create_finish. rewrite Hc, Hown.
  change (GST_CLOCK_TIME_IS_VALID GST_CLOCK_TIME_NONE) with false.
  simpl negb. simpl andb. cbv iota.
  simpl slave_method. fold src. rewrite Hm.
  rewrite (guint64_small (s + n)) by lia.
  destruct (slave_resample _ _ _ _ _ _) as [self' t] eqn:Hs.
  simpl. intros Hb. inversion Hb; subst b. simpl.
  split; [lia|]. split; [lia|]. split; [reflexivity|].
  symmetry. exact Hs.
Qed.

(** C5.  In a pull that reaches the resample case, with the clock values,
    the counters and the segment numbers inside their types' ranges: the
    drift correction fires exactly when the drift, the distance between
    [initial_timestamp_diff] (as latched in this pull if it was unset) and
    [timestamp_diff], taken as zero when [timestamp_diff] is zero, is
    strictly above the threshold.  When it fires, [drift_correction_count]
    goes up by one, [initial_timestamp_diff] is reset to unset, and the
    resync branch is taken whatever the other three conditions say: the
    time shift is counted, the producer's counter is put one segment past
    the running-time segment, the next read position is moved to the
    samples after the new read segment, and the buffer is stamped with the
    time of that segment.  When it does not fire,
    [drift_correction_count] is unchanged, and unless one of the other
    three conditions asks for it nothing is resynchronised: the ring buffer
    and the time-shift count stay, reading goes on after the buffer, and
    the buffer keeps the timestamp of its first sample. *)
Theorem drift_correction_fires_iff self offset length env clock r b :
  let src := parent self in
  let rb := ringbuffer src in
  let sps := samples_per_seg rb in
  let cws := current_write_segment src in
  let rts := running_time_segment src clock in
  let first := next_sample src =? G_MAXUINT64 in
  let timestamp :=
    gst_util_uint64_scale_int (buf_offset b) GST_SECOND (spec_rate rb) in
  let td := timestamp_diff timestamp (base_time src) in
  let initial :=
    if negb first && (initial_timestamp_diff self =? 0)
    then td else initial_timestamp_diff self in
  let other := (rts - (cws - 1) >=? spec_segtotal rb)
               || (gint (buf_offset b / sps) =? 0) || first in
  let nrs := if rts =? cws - 1 then rts else rts + 1 in
  gst_audio_base_src_create self offset length env = Some r ->
  cr_exit r = done ->
  cr_outbuf r = Some b ->
  slave_method src = GST_AUDIO_BASE_SRC_SLAVE_RESAMPLE ->
  slaved_to env clock ->
  0 <= create_start src offset ->
  create_start src offset + create_samples src length <= G_MAXUINT64 ->
  ring_reads_ok (e_reads env) (create_samples src length) ->
  0 <= timestamp <= G_MAXINT64 ->
  0 <= base_time src <= G_MAXINT64 ->
  0 <= initial_timestamp_diff self <= G_MAXINT64 ->
  0 <= drift_correction_count self < G_MAXUINT64 ->
  0 <= timeshifted_count self < G_MAXUINT64 ->
  0 < sps <= G_MAXINT ->
  0 <= cws <= G_MAXINT ->
  0 <= segbase rb ->
  segdone rb <= G_MAXINT ->
  0 <= rts ->
  segbase rb + rts + 1 <= G_MAXINT ->
  (drift initial td > drift_correction_threshold self ->
   drift_correction_count (cr_self r) = drift_correction_count self + 1 /\
   initial_timestamp_diff (cr_self r) = 0 /\
   timeshifted_count (cr_self r) = timeshifted_count self + 1 /\
   ringbuffer (parent (cr_self r)) = set_segdone rb (segbase rb + rts + 1) /\
   next_sample (parent (cr_self r))
   = nrs * sps + (buf_offset_end b - buf_offset b) /\
   buf_timestamp b = gst_util_uint64_scale_int (nrs * sps) GST_SECOND (spec_rate rb)) /\
  (drift initial td <= drift_correction_threshold self ->
   drift_correction_count (cr_self r) = drift_correction_count self /\
   initial_timestamp_diff (cr_self r) = initial /\
   (other = false ->
    timeshifted_count (cr_self r) = timeshifted_count self /\
    ringbuffer (parent (cr_self r)) = rb /\
    next_sample (parent (cr_self r)) = buf_offset_end b /\
    buf_timestamp b = timestamp)).
Proof.
  intros src rb sps cws rts first timestamp td initial other nrs
         H Hd Hb Hm Hs Hstart Hsum Hreads Ht Hbt Hinit Hcount Hshift
         Hsps Hcws Hbase Hdone Hrts Hfit.
  destruct (create_resample_pull self offset length env clock r b H Hd Hb Hm Hs
              Hstart Hsum Hreads) as (n & Hn & Ho & Hend & P).
  assert (Hdone' : - 2 ^ 31 <= segdone rb <= G_MAXINT)
    by (unfold cws, current_write_segment in Hcws; fold src in Hcws; fold rb in Hcws; lia).
  set (self1 := set_parent self (set_next_sample (parent self) (buf_offset b + n))).
  pose proof (slave_resample_cases self1 clock first (buf_offset b) n timestamp
                Hsps Hcws Hbase Hdone' Hrts Hfit Hn) as Q.
  cbv zeta in Q.
  change (running_time_segment (parent self1) clock) with rts in Q.
  change (current_write_segment (parent self1)) with cws in Q.
  change (ringbuffer (parent self1)) with rb in Q.
  change (base_time (parent self1)) with (base_time src) in Q.
  change (initial_timestamp_diff self1) with (initial_timestamp_diff self) in Q.
  change (drift_correction_count self1) with (drift_correction_count self) in Q.
  change (drift_correction_threshold self1) with (drift_correction_threshold self) in Q.
  change (timeshifted_count self1) with (timeshifted_count self) in Q.
  fold sps in Q. fold td in Q. fold initial in Q. fold nrs in Q.
  assert (Htd : 0 <= td <= G_MAXINT64).
  { unfold td. rewrite timestamp_diff_abs by assumption.
    unfold G_MAXINT64 in *. lia. }
  assert (Hi : 0 <= initial <= G_MAXINT64)
    by (unfold initial; destruct (_ && _); assumption).
  rewrite drift_ns_exact in Q by assumption.
  assert (P' : (cr_self r, buf_timestamp b)
               = slave_resample self1 clock first (buf_offset b) n timestamp)
    by exact P.
  clear P. rename P' into P.
  rewrite Q in P. clear Q.
  split; intros Hcmp.
  - replace (drift initial td >? drift_correction_threshold self) with true in P
      by (symmetry; rewrite Z.gtb_ltb; apply Z.ltb_lt; lia).
    rewrite orb_true_r in P. inversion P as [[P1 P2]]. clear P.
    rewrite P1. cbn. rewrite !guint64_small by lia.
    repeat split; try reflexivity. rewrite Hend. f_equal. lia.
  - replace (drift initial td >? drift_correction_threshold self) with false in P
      by (symmetry; rewrite Z.gtb_ltb; apply Z.ltb_ge; lia).
    rewrite orb_false_r in P. fold other in P.
    destruct other.
    + inversion P as [[P1 P2]]. rewrite P1. cbn.
      split; [reflexivity|]. split; [reflexivity|]. intros X. discriminate X.
    + inversion P as [[P1 P2]]. rewrite P1. cbn.
      split; [reflexivity|]. split; [reflexivity|]. intros _.
      split; [reflexivity|]. split; [reflexivity|]. split; [|reflexivity].
      symmetry. exact Hend.
Qed.

(** C5, witness, with the figures of the specification: latched at 1 ms
    with a threshold of 5 ms, a [timestamp_diff] of 6.5 ms is a drift of
    5.5 ms and fires; one of 5.5 ms is a drift of 4.5 ms and does not.  In
    the first pull the pipeline clock stands in segment 25519: the
    producer's counter is moved from 5 to 25520, reading goes on at sample
    51042 and the buffer is stamped 1.063333333 s.  In the second pull the
    clock stands in segment 6, within the ring, and nothing is moved. *)
Lemma drift_correction_fires_iff_witness :
  (exists r b,
     gst_audio_base_src_create (ex_drifting 6500000) G_MAXUINT64 0 ex_env = Some r /\
     cr_outbuf r = Some b /\
     drift_correction_count (cr_self r) = 1 /\
     initial_timestamp_diff (cr_self r) = 0 /\
     timeshifted_count (cr_self r) = 1 /\
     ringbuffer (parent (cr_self r)) = set_segdone ex_ringbuffer 25520 /\
     next_sample (parent (cr_self r)) = 51042 /\
     buf_timestamp b = 1063333333) /\
  (exists r b,
     gst_audio_base_src_create (ex_drifting 5500000) G_MAXUINT64 0 ex_near_env
     = Some r /\
     cr_outbuf r = Some b /\
     drift_correction_count (cr_self r) = 0 /\
     initial_timestamp_diff (cr_self r) = 1000000 /\
     timeshifted_count (cr_self r) = 0 /\
     ringbuffer (parent (cr_self r)) = ex_ringbuffer /\
     next_sample (parent (cr_self r)) = 12 /\
     buf_timestamp b = 208333).
Proof.
  split.
  - do 2 eexists. split; [lazy; reflexivity|]. split; [reflexivity|].
    match goal with |- drift_correction_count (cr_self ?r) = _ /\ _ =>
      pose proof (drift_correction_fires_iff (ex_drifting 6500000) G_MAXUINT64 0
                    ex_env {| is_src_clock := false; clock_time := 1070000000;
                              time_offset := 0 |} r
                    {| buf_timestamp := 1063333333; buf_duration := 41667;
                       buf_offset := 10; buf_offset_end := 12;
                       buf_discont := true |}) as W
    end.
    cbv zeta in W.
    destruct W as [W _];
      [ closed_facts | closed_facts | closed_facts | closed_facts
      | split; [reflexivity|]; split; [reflexivity | repeat constructor]
      | closed_facts .. | ].
    destruct W as (W1 & W2 & W3 & W4 & W5 & W6); [closed_facts|].
    split; [rewrite W1; reflexivity|]. split; [rewrite W2; reflexivity|].
    split; [rewrite W3; reflexivity|]. split; [rewrite W4; reflexivity|].
    split; [rewrite W5; reflexivity|]. rewrite W6. reflexivity.
  - do 2 eexists. split; [lazy; reflexivity|]. split; [reflexivity|].
    match goal with |- drift_correction_count (cr_self ?r) = _ /\ _ =>
      pose proof (drift_correction_fires_iff (ex_drifting 5500000) G_MAXUINT64 0
                    ex_near_env {| is_src_clock := false; clock_time := 5958333;
                                   time_offset := 0 |} r
                    {| buf_timestamp := 208333; buf_duration := 41667;
                       buf_offset := 10; buf_offset_end := 12;
                       buf_discont := true |}) as W
    end.
    cbv zeta in W.
    destruct W as [_ W];
      [ closed_facts | closed_facts | closed_facts | closed_facts
      | split; [reflexivity|]; split; [reflexivity | repeat constructor]
      | closed_facts .. | ].
    destruct W as (W1 & W2 & W3); [closed_facts|].
    split; [rewrite W1; reflexivity|]. split; [rewrite W2; reflexivity|].
    destruct W3 as (W3 & W4 & W5 & W6); [reflexivity|].
    split; [rewrite W3; reflexivity|]. split; [rewrite W4; reflexivity|].
    split; [rewrite W5; reflexivity|]. rewrite W6. reflexivity.
Defined.

(** ** The drift is measured from the base time *)

(** C3.  [timestamp_diff] is computed from [base_time], an absolute
    reading of the pipeline clock, where the running time
    [reference_clock_now - base_time], which the same block has just
    computed, was meant.  Three pulls show what follows from it.

    The second pull of the example session finds the clock at 1.07 s, the
    base time at 1 s and a sample timestamp of 208333 ns: the running time
    is 69791667 ns away from the timestamp, and 999791667 ns is latched.

    With segments of 10 ms and the clock exactly in step with the samples
    (running time 10 ms at the timestamp 10 ms, then 20 ms at 20 ms, a
    drift of zero), the pull after the latching one sees the distance to
    the base time shrink by the 10 ms the stream has advanced, takes that
    for a drift above the threshold of 5 ms, counts a drift correction and
    resynchronises.

    The first pull of a session compares its distance to the base time
    with the unset value 0 and counts a drift correction too. *)
Theorem drift_measured_against_base_time :
  (exists r b,
     gst_audio_base_src_create ex_self G_MAXUINT64 0 ex_env = Some r /\
     cr_exit r = done /\ cr_outbuf r = Some b /\
     gst_util_uint64_scale_int (buf_offset b) GST_SECOND 48000 = 208333 /\
     spec_timestamp_diff 1070000000 1000000000 208333 = 69791667 /\
     initial_timestamp_diff (cr_self r) = 999791667) /\
  (exists r2 b2 r3 b3,
     gst_audio_base_src_create ex_steady G_MAXUINT64 0 (ex_steady_env 1010000000)
     = Some r2 /\
     cr_outbuf r2 = Some b2 /\ buf_timestamp b2 = 10000000 /\
     spec_timestamp_diff 1010000000 1000000000 (buf_timestamp b2) = 0 /\
     initial_timestamp_diff (cr_self r2) = 990000000 /\
     drift_correction_count (cr_self r2) = 0 /\
     gst_audio_base_src_create (segment_written (cr_self r2)) G_MAXUINT64 0
       (ex_steady_env 1020000000) = Some r3 /\
     cr_outbuf r3 = Some b3 /\ buf_offset b3 = 960 /\ buf_discont b3 = false /\
     gst_util_uint64_scale_int (buf_offset b3) GST_SECOND 48000 = 20000000 /\
     spec_timestamp_diff 1020000000 1000000000 20000000 = 0 /\
     drift (spec_timestamp_diff 1010000000 1000000000 10000000)
           (spec_timestamp_diff 1020000000 1000000000 20000000)
     <= drift_correction_threshold ex_steady /\
     drift_correction_count (cr_self r3) = 1 /\
     timeshifted_count (cr_self r3) = 1 /\
     initial_timestamp_diff (cr_self r3) = 0) /\
  (exists r,
     gst_audio_base_src_create ex_first G_MAXUINT64 0 ex_env = Some r /\
     cr_exit r = done /\
     drift_correction_count (cr_self r) = drift_correction_count ex_first + 1).
Proof.
  split; [|split].
  - do 2 eexists. split; [lazy; reflexivity|]. repeat split.
  - do 4 eexists. split; [lazy; reflexivity|].
    do 5 (split; [reflexivity|]).
    split; [lazy; reflexivity|].
    repeat split. vm_compute. discriminate.
  - eexists. split; [lazy; reflexivity|]. repeat split.
Qed.

(** ** Wakes that bring less than is asked for *)

(** What a packet and a wake's packets leave alone in the element. *)
Lemma capture_burst_frame st pk :
  let self' := l_self (capture_burst st pk) in
  event_handle self' = event_handle (l_self st) /\
  stop_handle self' = stop_handle (l_self st) /\
  device_strid self' = device_strid (l_self st).
Proof.
  unfold capture_burst; cbv zeta; simpl. split_ifs; auto.
Qed.

Lemma drain_frame pkts : forall st e st',
  drain st pkts = (e, st') ->
  event_handle (l_self st') = event_handle (l_self st) /\
  stop_handle (l_self st') = stop_handle (l_self st) /\
  device_strid (l_self st') = device_strid (l_self st).
Proof.
  induction pkts as [|pk rest IH]; intros st e st' H; simpl in H.
  - inversion H; subst; auto.
  - destruct (capture_burst_frame st pk) as (F1 & F2 & F3).
    destruct (gb_hr pk); try (inversion H; subst; now auto).
    destruct (gb_release_failed pk).
    + inversion H; subst. auto.
    + apply IH in H. destruct H as (H1 & H2 & H3).
      rewrite H1, H2, H3. auto.
Qed.

(** One clean wake while bytes are wanted, with the events as the wait
    leaves them: data-ready has released the wait, the stop event is
    signaled if the wake raised it. *)
Lemma capture_loop_clean_step st w env :
  clean_wake w ->
  0 < l_wanted st ->
  capture_loop st (w :: env) =
  match drain (set_self st
                 (set_events (l_self st)
                    (wait_satisfied (SetEvent (event_handle (l_self st))))
                    (if w_stop w then SetEvent (stop_handle (l_self st))
                     else stop_handle (l_self st))))
              (w_packets w) with
  | (drain_break, st') => capture_loop st' env
  | (drain_beach, st') => Some (beach st' env)
  | (drain_device_disappeared, st') =>
    Some (device_disappeared st' (w_post_failed w) env)
  end.
Proof.
  intros (Hready & Hwait & Hchg & _) Hw.
  cbn [capture_loop].
  replace (l_wanted st >? 0) with true
    by (symmetry; rewrite Z.gtb_ltb; now apply Z.ltb_lt).
  rewrite Hready, Hwait, Hchg, andb_false_r.
  unfold WaitForMultipleObjects. cbn [SetEvent signaled].
  change (WAIT_OBJECT_0 =? WAIT_OBJECT_0) with true. cbv iota.
  reflexivity.
Qed.

(** A run of clean wakes that together bring less than is still wanted:
    the loop goes through them, places all their bytes (zeroed where
    flagged silent), spills nothing, and stands before the next wake with
    the data-ready event consumed and the stop event signaled if it was or
    if one of the wakes raised it. *)
Lemma capture_loop_short_bursts pre : forall st rest,
  locals_ok st ->
  (pre <> [] -> overflow_buffer_ptr (l_self st) = 0) ->
  (pre <> [] -> l_wanted st mod nBlockAlign (mix_format (l_self st)) = 0) ->
  Forall clean_wake pre ->
  Forall (wake_ok (nBlockAlign (mix_format (l_self st)))) pre ->
  Z.of_nat (length (raw_bytes pre)) < l_wanted st ->
  exists st',
    capture_loop st (pre ++ rest) = capture_loop st' rest /\
    locals_ok st' /\
    overflow_buffer_ptr (l_self st') = overflow_buffer_ptr (l_self st) /\
    l_data_ptr st' = l_data_ptr st + Z.of_nat (length (raw_bytes pre)) /\
    l_wanted st' = l_wanted st - Z.of_nat (length (raw_bytes pre)) /\
    l_length st' = l_length st /\
    firstn (Z.to_nat (l_data_ptr st')) (l_data st') =
      firstn (Z.to_nat (l_data_ptr st)) (l_data st) ++ rendered_bytes pre /\
    overflow_contents (l_self st') = overflow_contents (l_self st) /\
    nBlockAlign (mix_format (l_self st')) = nBlockAlign (mix_format (l_self st)) /\
    eos_sent (l_self st') = eos_sent (l_self st) /\
    device_strid (l_self st') = device_strid (l_self st) /\
    bManualReset (event_handle (l_self st'))
    = bManualReset (event_handle (l_self st)) /\
    signaled (event_handle (l_self st'))
    = (match pre with
       | [] => signaled (event_handle (l_self st))
       | _ :: _ => bManualReset (event_handle (l_self st))
       end) /\
    bManualReset (stop_handle (l_self st'))
    = bManualReset (stop_handle (l_self st)) /\
    signaled (stop_handle (l_self st'))
    = signaled (stop_handle (l_self st)) || existsb w_stop pre.
Proof.
  induction pre as [|w0 pre IH]; intros st rest Hok Hptr Hmod Hclean Hwok Htot.
  - exists st. unfold raw_bytes, rendered_bytes, packets_of. simpl.
    rewrite app_nil_r, Z.add_0_r, Z.sub_0_r, orb_false_r.
    split; [reflexivity|]. split; [exact Hok|]. repeat split; auto.
  - simpl app.
    assert (Hptr0 := Hptr ltac:(discriminate)).
    assert (Hmod0 := Hmod ltac:(discriminate)).
    clear Hptr Hmod. rename Hptr0 into Hptr. rename Hmod0 into Hmod.
    inversion Hclean as [|? ? Hc Hclean']; subst.
    inversion Hwok as [|? ? Hwk Hwok']; subst.
    assert (Hsplit : raw_bytes (w0 :: pre)
                     = concat (map gb_from (w_packets w0)) ++ raw_bytes pre).
    { unfold raw_bytes, packets_of. cbn [map concat].
      now rewrite map_app, concat_app. }
    assert (Hsplit' : rendered_bytes (w0 :: pre)
                      = concat (map render (w_packets w0)) ++ rendered_bytes pre).
    { unfold rendered_bytes, packets_of. cbn [map concat].
      now rewrite map_app, concat_app. }
    rewrite Hsplit, length_app in Htot. rewrite Hsplit, Hsplit', length_app.
    set (raw0 := concat (map gb_from (w_packets w0))) in *.
    rewrite (capture_loop_clean_step st w0 (pre ++ rest) Hc) by lia.
    set (ev := wait_satisfied (SetEvent (event_handle (l_self st)))).
    set (sp := if w_stop w0 then SetEvent (stop_handle (l_self st))
               else stop_handle (l_self st)).
    destruct (set_events_locals st ev sp)
      as (S1 & S2 & S3 & S4 & S5 & S6 & S7 & S8 & S9 & S10).
    set (st1 := set_self st (set_events (l_self st) ev sp)) in *.
    assert (Hlen0 : 0 <= overflow_buffer_length (l_self st)) by apply Hok.
    assert (Hfit0 : overflow_buffer_length (l_self st)
                    <= overflow_buffer_size (l_self st)).
    { destruct Hok as ((H1 & H2 & H3 & _) & _). lia. }
    destruct (drain_copies (w_packets w0) st1) as
      (st' & E & Hok' & Hptr' & Hext' & I1 & I2 & I3 & I4 & I5 & I6);
      try (rewrite ?S2, ?S3, ?S4, ?S6, ?S9; auto; fail).
    { apply Hc. }
    { fold raw0. rewrite S3, S4, S9. lia. }
    rewrite E. fold raw0 in I1, I2, I4, I5.
    rewrite S9 in I1, I2, I4, I5.
    replace (Z.min _ (l_wanted st)) with (Z.of_nat (length raw0)) in * by lia.
    assert (Hb' : nBlockAlign (mix_format (l_self st'))
                  = nBlockAlign (mix_format (l_self st)))
      by (destruct Hext' as (_ & _ & _ & -> & _); exact S6).
    rewrite skipn_all2, app_nil_r in I5 by lia.
    destruct (drain_frame _ _ _ _ E) as (F1 & F2 & F3).
    destruct (drain_eos _ _ _ _ E) as (F4 & _).
    destruct (IH st' rest) as
      (st2 & R1 & R2 & R3 & R4 & R5 & R6 & R7 & R8 & R9 & R10 & R11 & R12 & R13
           & R14 & R15); auto.
    { intros _. now rewrite S6 in I6; rewrite Hb'. }
    { now rewrite Hb'. }
    { rewrite I2. lia. }
    exists st2. split; [exact R1|]. split; [exact R2|].
    split; [rewrite R3, Hptr', Hptr; reflexivity|].
    split; [rewrite R4, I1, S8; lia|]. split; [rewrite R5, I2; lia|].
    split; [rewrite R6, I3; exact S10|].
    split.
    { rewrite R7, I4, S7, S8, <- app_assoc. do 2 f_equal.
      apply firstn_all2. rewrite rendered_length. fold raw0. lia. }
    split; [rewrite R8, I5; exact S5|].
    split; [rewrite R9; exact Hb'|].
    split; [rewrite R10, F4; reflexivity|].
    split; [rewrite R11, F3; reflexivity|].
    split; [rewrite R12, F1; reflexivity|].
    split.
    { rewrite R13, F1. unfold st1, ev. simpl.
      destruct pre; [|reflexivity].
      destruct (bManualReset (event_handle (l_self st))); reflexivity. }
    split; [rewrite R14, F2; unfold st1, sp; simpl; destruct (w_stop w0); reflexivity|].
    rewrite R15, F2. unfold st1, sp. simpl.
    destruct (w_stop w0); simpl; [now rewrite orb_true_r|reflexivity].
Qed.

(** ** The stop signal at any wait of a call *)

(** A wait released by the stop signal: the rest of the destination is
    zero-filled and the call leaves through the normal exit; the wait has
    consumed the stop event if it is auto-reset. *)
Lemma capture_loop_stop_wake st w env :
  0 < l_wanted st ->
  signaled (stop_handle (l_self st)) || w_stop w = true ->
  signaled (event_handle (l_self st)) || w_data_ready w = false ->
  w_wait_failed w = false ->
  (device_strid (l_self st) = None -> w_default_changed w = false) ->
  capture_loop st (w :: env) =
  Some (beach
          (set_data
             (set_self st
                (set_events (l_self st) (event_handle (l_self st))
                   (wait_satisfied (SetEvent (stop_handle (l_self st))))))
             (memset (l_data st) (l_data_ptr st) x00 (l_wanted st)))
          env).
Proof.
  intros Hw Hstop Hnodata Hwait Hchg.
  apply orb_false_elim in Hnodata. destruct Hnodata as [Hquiet Hnone].
  cbn [capture_loop].
  replace (l_wanted st >? 0) with true
    by (symmetry; rewrite Z.gtb_ltb; apply Z.ltb_lt; lia).
  rewrite Hwait, Hnone.
  unfold WaitForMultipleObjects. rewrite Hquiet.
  replace (signaled (if w_stop w then SetEvent (stop_handle (l_self st))
                     else stop_handle (l_self st))) with true
    by (destruct (w_stop w); [reflexivity | now rewrite orb_false_r in Hstop]).
  replace (match device_strid (l_self st) with None => true | Some _ => false end
           && w_default_changed w) with false
    by (destruct (device_strid (l_self st)); [reflexivity | now rewrite Hchg]).
  change (WAIT_OBJECT_0 + 1 =? WAIT_OBJECT_0) with false.
  rewrite Z.eqb_refl. cbv iota.
  replace (wait_satisfied (if w_stop w then SetEvent (stop_handle (l_self st))
                           else stop_handle (l_self st)))
    with (wait_satisfied (SetEvent (stop_handle (l_self st)))); [reflexivity|].
  destruct (w_stop w); [reflexivity|].
  rewrite orb_false_r in Hstop. unfold wait_satisfied, SetEvent. simpl.
  rewrite Hstop. reflexivity.
Qed.

(** The entry of a call that gets past its restart: the locals after the
    queued bytes have been handed back. *)
Lemma read_enters self data len start_failed env :
  overflow_ok self ->
  0 <= len <= G_MAXUINT ->
  len <= Z.of_nat (length data) ->
  client_needs_restart self && start_failed = false ->
  exists st,
    gst_wasapi_src_read self data len start_failed env = capture_loop st env /\
    locals_ok st /\
    (0 < l_wanted st -> overflow_buffer_ptr (l_self st) = 0) /\
    l_data_ptr st = Z.min (overflow_buffer_length self) len /\
    l_wanted st = len - Z.min (overflow_buffer_length self) len /\
    l_length st = len /\
    firstn (Z.to_nat (l_data_ptr st)) (l_data st)
    = firstn (Z.to_nat (l_data_ptr st)) (overflow_contents self) /\
    overflow_contents (l_self st)
    = skipn (Z.to_nat (l_data_ptr st)) (overflow_contents self) /\
    nBlockAlign (mix_format (l_self st)) = nBlockAlign (mix_format self) /\
    event_handle (l_self st) = event_handle self /\
    stop_handle (l_self st) = stop_handle self /\
    device_strid (l_self st) = device_strid self /\
    eos_sent (l_self st) = eos_sent self.
Proof.
  intros Hok Hlen Hdata Hstart.
  unfold gst_wasapi_src_read. rewrite Hstart.
  set (self1 := if client_needs_restart self
                then set_client_needs_restart self false else self).
  assert (Hok1 : overflow_ok self1)
    by (unfold self1; destruct (client_needs_restart self); exact Hok).
  assert (H1 : overflow_contents self1 = overflow_contents self /\
               overflow_buffer_length self1 = overflow_buffer_length self /\
               nBlockAlign (mix_format self1) = nBlockAlign (mix_format self) /\
               event_handle self1 = event_handle self /\
               stop_handle self1 = stop_handle self /\
               device_strid self1 = device_strid self /\
               eos_sent self1 = eos_sent self)
    by (unfold self1; destruct (client_needs_restart self); repeat split; reflexivity).
  destruct H1 as (HO & HL & HB & Hev & Hsp & Hdev & Heos).
  replace (if client_needs_restart self then _ else _)
    with {| l_self := self1; l_data := data; l_data_ptr := 0;
            l_wanted := len; l_length := len |}
    by (unfold self1; destruct (client_needs_restart self); reflexivity).
  destruct (restore_overflow_ok self1 data len Hok1 Hlen Hdata)
    as (Hst & Hptr & Hdp & Hw & Hl & Hdl & Hhead & Hrest & Hbpf).
  destruct (restore_overflow_handles
              {| l_self := self1; l_data := data; l_data_ptr := 0;
                 l_wanted := len; l_length := len |}) as (He' & Hs' & Hd').
  destruct (restore_overflow_eos
              {| l_self := self1; l_data := data; l_data_ptr := 0;
                 l_wanted := len; l_length := len |}) as (Hq' & _).
  simpl l_self in He', Hs', Hd', Hq'.
  eexists. split; [reflexivity|].
  rewrite HL, HO in *.
  split; [exact Hst|]. split; [exact Hptr|]. split; [exact Hdp|].
  split; [exact Hw|]. split; [exact Hl|].
  split; [rewrite Hdp; exact Hhead|]. split; [rewrite Hdp; exact Hrest|].
  split; [congruence|]. split; [congruence|]. split; [congruence|].
  split; congruence.
Qed.

(** C7 (amended).  A read call whose request is not met from the overflow
    buffer and the bursts of the clean wakes before it, and one of whose
    waits is released by the stop signal (the stop event is signaled, the
    data-ready event is not, the wait does not fail, and no change of the
    default device is pending on an element without an explicit device),
    puts out what the overflow buffer held and what the bursts brought,
    zero-fills the rest of the destination and returns the requested length
    through the normal exit, without posting anything and without fetching
    from the device any more.  The stop event is auto-reset: that wait
    consumes it. *)
Theorem stop_flushes_current_read self data len start_failed pre w env :
  let bpf := nBlockAlign (mix_format self) in
  let queued := overflow_buffer_length self in
  let got := Z.of_nat (length (raw_bytes pre)) in
  overflow_ok self ->
  0 <= len <= G_MAXUINT ->
  len <= Z.of_nat (length data) ->
  client_needs_restart self && start_failed = false ->
  Forall clean_wake pre ->
  Forall (wake_ok bpf) pre ->
  (pre <> [] -> (len - queued) mod bpf = 0) ->
  queued + got < len ->
  signaled (stop_handle self) || existsb w_stop pre || w_stop w = true ->
  (match pre with
   | [] => signaled (event_handle self)
   | _ :: _ => bManualReset (event_handle self)
   end) || w_data_ready w = false ->
  w_wait_failed w = false ->
  (device_strid self = None -> w_default_changed w = false) ->
  bManualReset (stop_handle self) = false ->
  exists r,
    gst_wasapi_src_read self data len start_failed (pre ++ w :: env) = Some r /\
    r_return r = len /\ r_exit r = exit_beach /\ r_posted r = [] /\
    r_env r = env /\
    returned r = overflow_contents self ++ rendered_bytes pre
                 ++ repeat x00 (Z.to_nat (len - queued - got)) /\
    signaled (stop_handle (r_self r)) = false.
Proof.
  intros bpf queued got Hok Hlen Hdata Hstart Hclean Hwok Hframes Hmore Hstop
         Hnodata Hwait Hchg Hauto.
  assert (Hq : 0 <= queued) by apply Hok.
  assert (Hg : 0 <= got) by (unfold got; lia).
  pose proof (overflow_contents_length self Hok) as HOl.
  destruct (read_enters self data len start_failed (pre ++ w :: env)
              Hok Hlen Hdata Hstart)
    as (st & E & Hst & Hptr & Hdp & Hw & Hl & Hhead & _ & Hbpf & Hev & Hsp & Hdev & _).
  fold queued in Hdp, Hw.
  replace (Z.min queued len) with queued in * by lia.
  rewrite E. clear E.
  destruct (capture_loop_short_bursts pre st (w :: env)) as
    (st' & R1 & R2 & _ & R4 & R5 & R6 & R7 & _ & _ & _ & R11 & _ & R13 & R14 & R15);
    auto.
  { intros _. apply Hptr. lia. }
  { intros Hne. rewrite Hbpf, Hw. now apply Hframes. }
  { now rewrite Hbpf. }
  { fold got. lia. }
  rewrite R1. fold got in R4, R5.
  rewrite capture_loop_stop_wake; auto.
  - eexists. split; [reflexivity|].
    unfold returned.
    cbn [beach set_data set_self r_return r_exit r_posted r_env r_data r_self
         l_length l_data l_data_ptr l_wanted l_self].
    rewrite R6, Hl.
    split; [reflexivity|]. split; [reflexivity|]. split; [reflexivity|].
    split; [reflexivity|]. split.
    + destruct R2 as (_ & Hp & Hwr & Hfit).
      replace len with (l_data_ptr st' + l_wanted st') at 1 by lia.
      rewrite memset_written by lia.
      rewrite R7, Hhead, Hdp, R5, Hw, <- app_assoc. f_equal.
      apply firstn_all2. lia.
    + simpl. rewrite R14, Hsp, Hauto. reflexivity.
  - lia.
  - rewrite R15, Hsp. exact Hstop.
  - rewrite R13, Hev. destruct pre; exact Hnodata.
  - rewrite R11, Hdev. exact Hchg.
Qed.

(** C7, witness: a call for 8 bytes gets one frame of 4 bytes from the
    device; then the stop signal is raised.  The call returns the 4 bytes
    followed by 4 zero bytes. *)
Lemma stop_flushes_current_read_witness :
  exists r,
    gst_wasapi_src_read ex_self (repeat xee 8) 8 false
      ([ex_wake [ex_frame_packet]] ++ ex_stop_wake :: []) = Some r /\
    r_return r = 8 /\ r_exit r = exit_beach /\ r_posted r = [] /\ r_env r = [] /\
    returned r = overflow_contents ex_self
                 ++ rendered_bytes [ex_wake [ex_frame_packet]]
                 ++ repeat x00
                      (Z.to_nat (8 - overflow_buffer_length ex_self
                                 - Z.of_nat (length (raw_bytes
                                                       [ex_wake [ex_frame_packet]])))) /\
    returned r = [x01; x02; x03; x04; x00; x00; x00; x00] /\
    signaled (stop_handle (r_self r)) = false.
Proof.
  destruct (stop_flushes_current_read ex_self (repeat xee 8) 8 false
              [ex_wake [ex_frame_packet]] ex_stop_wake [])
    as (r & W1 & W2 & W3 & W4 & W5 & W6 & W7).
  - closed_facts.
  - closed_facts.
  - closed_facts.
  - reflexivity.
  - repeat constructor.
  - repeat constructor; closed_facts.
  - intros _. reflexivity.
  - closed_facts.
  - reflexivity.
  - reflexivity.
  - reflexivity.
  - intros _. reflexivity.
  - reflexivity.
  - exists r. split; [exact W1|]. split; [exact W2|]. split; [exact W3|].
    split; [exact W4|]. split; [exact W5|]. split; [exact W6|].
    split; [rewrite W6; reflexivity | exact W7].
Defined.

(** ** Device loss *)

Lemma drain_clean_prefix pks : forall st more,
  Forall packet_clean pks ->
  exists st',
    drain st (pks ++ more) = drain st' more /\
    l_length st' = l_length st /\
    eos_sent (l_self st') = eos_sent (l_self st).
Proof.
  induction pks as [|pk pks IH]; intros st more Hclean.
  - exists st. auto.
  - inversion Hclean as [|? ? [Hhr Hrel] Hclean']; subst.
    simpl. rewrite Hhr, Hrel.
    destruct (capture_burst_eos st pk) as [E L].
    destruct (IH (capture_burst st pk) more Hclean') as (st' & D & L' & E').
    exists st'. split; [exact D|]. split; congruence.
Qed.

(** A wake at which the call meets device loss takes it to the label
    [device_disappeared], with the length it was called with. *)
Lemma capture_loop_loss_wake st w rest :
  0 < l_wanted st ->
  meets_device_loss (l_self st) w ->
  exists st',
    capture_loop st (w :: rest)
    = Some (device_disappeared st' (w_post_failed w) rest) /\
    l_length st' = l_length st /\
    eos_sent (l_self st') = eos_sent (l_self st).
Proof.
  intros Hw Hloss.
  cbn [capture_loop].
  replace (l_wanted st >? 0) with true
    by (symmetry; rewrite Z.gtb_ltb; apply Z.ltb_lt; lia).
  destruct Hloss as [(Hdev & Hchg & Hret) | (Hchg & Hwait & Hready & Hpk)].
  - rewrite Hdev, Hchg. simpl andb.
    destruct (w_wait_failed w) eqn:Hf.
    + eexists. split; [reflexivity|]. split; reflexivity.
    + unfold WaitForMultipleObjects.
      destruct (w_data_ready w) eqn:Hd.
      * cbn [SetEvent signaled]. eexists. split; [reflexivity|]. split; reflexivity.
      * destruct Hret as [Hx | [Hx | Hs]]; try discriminate.
        rewrite Hs. cbn [SetEvent signaled].
        destruct (signaled (event_handle (l_self st)));
          eexists; (split; [reflexivity|]); split; reflexivity.
  - rewrite Hwait, Hready. unfold WaitForMultipleObjects. cbn [SetEvent signaled].
    replace (match device_strid (l_self st) with None => true | Some _ => false end
             && w_default_changed w) with false
      by (destruct (device_strid (l_self st)); [reflexivity | now rewrite Hchg]).
    change (WAIT_OBJECT_0 =? WAIT_OBJECT_0) with true. cbv iota.
    destruct Hpk as (pks & pk & more & -> & Hclean & Hinv).
    match goal with |- context [drain ?s _] =>
      destruct (drain_clean_prefix pks s (pk :: more) Hclean) as (st' & D & L & E)
    end.
    rewrite D. simpl. rewrite Hinv.
    exists st'. split; [reflexivity|]. split; [exact L | exact E].
Qed.

Lemma drain_loss_event pkts : forall st st',
  drain st pkts = (drain_device_disappeared, st') ->
  Exists (fun pk => gb_hr pk = AUDCLNT_E_DEVICE_INVALIDATED) pkts.
Proof.
  induction pkts as [|pk rest IH]; intros st st' H; simpl in H; [discriminate|].
  destruct (gb_hr pk) eqn:Hhr; try discriminate.
  - destruct (gb_release_failed pk); [discriminate|].
    apply Exists_cons_tl. eapply IH. exact H.
  - now apply Exists_cons_hd.
Qed.

(** A call reports device loss only when the script has it: the element
    goes on following the same device, the call reads a prefix of the
    script, and when it leaves through [device_disappeared] one of the
    wakes shows the loss. *)
Lemma capture_loop_loss_event env : forall st r,
  capture_loop st env = Some r ->
  device_strid (r_self r) = device_strid (l_self st) /\
  (exists pre, env = pre ++ r_env r) /\
  (lost r = true -> Exists (loss_event (device_strid (l_self st))) env).
Proof.
  induction env as [|w env IH]; intros st r H; simpl in H.
  - destruct (l_wanted st >? 0); [discriminate|].
    inversion H; subst. simpl.
    split; [reflexivity|]. split; [exists []; reflexivity | discriminate].
  - destruct (l_wanted st >? 0);
      [|inversion H; subst; simpl; split; [reflexivity|];
        split; [exists []; reflexivity | discriminate]].
    destruct (if w_wait_failed w then _ else _) as [[[res ev'] sp']|].
    + destruct (match device_strid (l_self st) with None => true | Some _ => false end
                && w_default_changed w) eqn:Hc.
      { inversion H; subst. simpl.
        split; [reflexivity|]. split; [exists [w]; reflexivity|].
        intros _. apply Exists_cons_hd. left.
        apply andb_prop in Hc. destruct Hc as [Hd Hch].
        destruct (device_strid (l_self st)); [discriminate | auto]. }
      destruct (res =? _).
      { destruct (drain _ (w_packets w)) as [e st'] eqn:Hd.
        destruct (drain_frame _ _ _ _ Hd) as (_ & _ & F3). simpl in F3.
        destruct e.
        - apply IH in H. destruct H as (H1 & [pre H2] & H3).
          rewrite F3 in H1, H3.
          split; [exact H1|]. split; [exists (w :: pre); simpl; now rewrite <- H2|].
          intros Hl. apply Exists_cons_tl. now apply H3.
        - inversion H; subst. simpl.
          split; [exact F3|]. split; [exists [w]; reflexivity | discriminate].
        - inversion H; subst. simpl.
          split; [exact F3|]. split; [exists [w]; reflexivity|].
          intros _. apply Exists_cons_hd. right.
          eapply drain_loss_event. exact Hd. }
      destruct (res =? _); inversion H; subst; simpl;
        (split; [reflexivity|]; split; [exists [w]; reflexivity | discriminate]).
    + apply IH in H. destruct H as (H1 & [pre H2] & H3). simpl in H1, H3.
      split; [exact H1|]. split; [exists (w :: pre); simpl; now rewrite <- H2|].
      intros Hl. apply Exists_cons_tl. now apply H3.
Qed.

Lemma read_loss_event self data len start_failed env r :
  gst_wasapi_src_read self data len start_failed env = Some r ->
  device_strid (r_self r) = device_strid self /\
  (exists pre, env = pre ++ r_env r) /\
  (lost r = true -> Exists (loss_event (device_strid self)) env).
Proof.
  unfold gst_wasapi_src_read. intros H.
  destruct (client_needs_restart self && start_failed).
  - inversion H; subst. simpl.
    split; [reflexivity|]. split; [exists []; reflexivity | discriminate].
  - apply capture_loop_loss_event in H.
    match type of H with context [restore_overflow ?s] =>
      destruct (restore_overflow_handles s) as (_ & _ & D) end.
    rewrite D in H.
    destruct (client_needs_restart self); exact H.
Qed.

Lemma run_reads_loss_event calls : forall self env self' env' rs,
  run_reads self env calls = Some (self', env', rs) ->
  Forall (fun r => lost r = true -> Exists (loss_event (device_strid self)) env) rs.
Proof.
  induction calls as [|c calls IH]; intros self env self' env' rs H.
  - simpl in H. inversion H; subst. constructor.
  - apply run_reads_cons in H. destruct H as (r & rs' & Hr & Hrest & ->).
    apply read_loss_event in Hr. destruct Hr as (D & [pre Hpre] & L).
    constructor; [exact L|].
    apply IH in Hrest. rewrite D in Hrest.
    eapply Forall_impl; [|exact Hrest]. simpl. intros r' Hr' Hl.
    rewrite Hpre. apply Exists_app. right. now apply Hr'.
Qed.

(** The call that hands the message to the bus is the first one of the
    session that meets device loss, and only if [eos_sent] was down when
    the session began. *)
Lemma run_reads_first_loss calls : forall self env self' env' rs rs1 r rs2,
  run_reads self env calls = Some (self', env', rs) ->
  rs = rs1 ++ r :: rs2 ->
  lost r = true ->
  r_post_attempts r
  = (if existsb lost rs1 || eos_sent self then [] else [wasapi_restart]).
Proof.
  induction calls as [|c calls IH]; intros self env self' env' rs rs1 r rs2 H Hs Hl.
  - simpl in H. inversion H; subst. destruct rs1; discriminate.
  - apply run_reads_cons in H. destruct H as (r0 & rs' & Hr & Hrest & ->).
    apply read_loss_report in Hr. destruct Hr as (E & P & _ & _).
    destruct rs1 as [|r1 rs1]; simpl in Hs; inversion Hs; subst.
    + simpl. rewrite P, Hl. destruct (eos_sent self); reflexivity.
    + rewrite (IH _ _ _ _ _ rs1 r rs2 Hrest eq_refl Hl), E. simpl.
      destruct (lost r1), (existsb lost rs1), (eos_sent self); reflexivity.
Qed.



